(** * Clipwise: highlight selection, caption grouping, subtitle encoding and
      clip rendering

    A shallow embedding of the caption and clip pipeline of the repository:

    - [lib/ai/highlights.ts]: [detectHighlights], [formatTime],
      [filterHighlightsByScore], [getBestHighlight] and, in the same file,
      the caption module that the processor imports as [../ai/captions]
      ([generateCaptions], [captionsToASS], [generateKaraokeEvents],
      [formatASSTime], [hexToASSColor]),
    - [lib/ai/providers.ts]: [checkAIConfiguration],
    - [lib/video/processor.ts]: [extractClip], [cropToVertical],
      [burnCaptions], [getVideoMetadata], [createClip],
    - the clip routes ([process], [retry], [regenerate]): the selection of
      the words of a clip and the options of the calls.

    Conventions of the embedding.

    - A JavaScript [number] is a rational ([Q]): every finite binary64
      number is one, and comparisons of numbers are exact; [===] on numbers
      is [Qeq_bool].  [JS.round64] rounds a rational to the nearest
      binary64 number, ties to even, and [JS.sub] and [JS.mul] are the
      subtraction and the multiplication of the machine: the exact result,
      rounded.  They are used where the rounding shows in what the code
      returns: the duration of a highlight, the times of the words of a
      clip, and the centiseconds of a time stamp.  The remainder [%] is
      exact on binary64 numbers.  The quotients by 60 and 3600 under
      [Math.floor], the arithmetic on frame sizes, the opacity byte and the
      duration handed to the media engine are computed exactly.  Overflow,
      [NaN] and the infinities are not modelled, except for the [NaN] that
      [parseInt] returns.
    - A JavaScript string is a [string] of 8-bit characters.  Where the
      sources change the case of arbitrary text or trim it
      ([generateCaptions]) the two functions are parameters; on the output
      of [toString(16)], which is ASCII, [toUpperCase] is defined.
    - A promise that settles is a [completion]: it resolves with a value or
      rejects with a thrown value.  Code that talks to the outside world
      (the language model, the media engine, the file system) is written in
      the monad [Eff], which threads the state of that world and keeps it
      when an exception is thrown, as JavaScript does. *)

From Stdlib Require Import ZArith QArith Qround Qabs Qpower Lqa.
From Stdlib Require Import String Ascii List Lia Bool.
From stdpp Require Import base strings gmap list.

Local Open Scope Z_scope.
Local Open Scope string_scope.

(** ** Thrown values, completions and the effect monad *)

(** What a [catch] clause can receive: an [Error] instance carrying a
    message, or any other value. *)
Inductive thrown : Type :=
| ErrorObject (message : string)
| OtherValue.

Inductive completion (A : Type) : Type :=
| Return (a : A)
| Throw (t : thrown).
Arguments Return {A} a.
Arguments Throw {A} t.

(** [error instanceof Error ? error.message : 'Unknown error'] *)
Definition messageOf (t : thrown) : string :=
  match t with
  | ErrorObject m => m
  | OtherValue => "Unknown error"
  end.

Definition Eff (S A : Type) : Type := S -> completion A * S.

Definition ret {S A} (a : A) : Eff S A := fun s => (Return a, s).
Definition throw {S A} (t : thrown) : Eff S A := fun s => (Throw t, s).
Definition bind {S A B} (m : Eff S A) (k : A -> Eff S B) : Eff S B :=
  fun s => match m s with
           | (Return a, s') => k a s'
           | (Throw t, s') => (Throw t, s')
           end.
(** [try { m } catch (e) { h e }] *)
Definition tryCatch {S A} (m : Eff S A) (h : thrown -> Eff S A) : Eff S A :=
  fun s => match m s with
           | (Return a, s') => (Return a, s')
           | (Throw t, s') => h t s'
           end.

Declare Scope eff_scope.
Delimit Scope eff_scope with eff.
Notation "'let*' x ':=' m 'in' k" := (bind m (fun x => k))
  (at level 10, x name, m at level 100, k at level 200) : eff_scope.
Notation "'run' m 'in' k" := (bind m (fun _ => k))
  (at level 10, m at level 100, k at level 200) : eff_scope.

(** ** JavaScript primitives used by the sources *)

Module JS.

(** [Math.floor] and [Math.round] (halves round up). *)
Definition Math_floor (q : Q) : Z := Qfloor q.
Definition Math_round (q : Q) : Z := Qfloor (q + (1 # 2)).

(** Truncation toward zero, and the remainder operator [%], whose result
    has the sign of the dividend. *)
Definition trunc (q : Q) : Z :=
  if Qle_bool 0 q then Qfloor q else (- Qfloor (- q))%Z.
Definition rem (a b : Q) : Q := (a - b * inject_Z (trunc (a / b)))%Q.

(** Binary64 numbers.  A finite binary64 number is a multiple [m * 2^e] of
    a power of two with [|m| < 2^53] and [-1074 <= e]. *)

(** [2^e] for an integer exponent. *)
Definition pow2 (e : Z) : Q := (2 ^ e)%Q.

(** The integer nearest to a rational, ties to the even one. *)
Definition nearestEven (s : Q) : Z :=
  let lower := Qfloor s in
  match (s - inject_Z lower ?= 1 # 2)%Q with
  | Lt => lower
  | Gt => (lower + 1)%Z
  | Eq => if Z.even lower then lower else (lower + 1)%Z
  end.

(** [floor (log2 |q|)] for a rational that is not zero. *)
Definition log2floor (q : Q) : Z :=
  let k := (Z.log2 (Z.abs (Qnum q)) - Z.log2 (Zpos (Qden q)))%Z in
  if Qle_bool (pow2 k) (Qabs q) then k else (k - 1)%Z.

(** The exponent of the unit in the last place of the binary64 numbers
    around [q]: 53 significant bits, and [2^-1074] among the subnormal
    numbers. *)
Definition ulpExponent (q : Q) : Z := Z.max (log2floor q - 52) (-1074).

(** Rounding to the nearest binary64 number, ties to even. *)
Definition round64 (q : Q) : Q :=
  (inject_Z (nearestEven (q / pow2 (ulpExponent q))) * pow2 (ulpExponent q))%Q.

(** The rationals that are binary64 numbers. *)
Definition isDouble (q : Q) : bool := Qeq_bool (round64 q) q.

(** [a - b] and [a * b] on numbers. *)
Definition sub (a b : Q) : Q := round64 (a - b).
Definition mul (a b : Q) : Q := round64 (a * b).

(** [a >= b] and [a <= b] and [a > b] on numbers. *)
Definition ge (a b : Q) : bool := Qle_bool b a.
Definition le (a b : Q) : bool := Qle_bool a b.
Definition gt (a b : Q) : bool := negb (Qle_bool a b).

(** The digit of a value below the radix, in lower case as
    [Number.prototype.toString] prints it. *)
Definition digitChar (d : N) : ascii :=
  if (d <? 10)%N then ascii_of_N (48 + d) else ascii_of_N (87 + d).

Fixpoint digitsOf (fuel : nat) (radix n : N) (acc : string) : string :=
  let acc' := String (digitChar (n mod radix)) acc in
  match fuel with
  | O => acc'
  | S fuel' =>
      if (n / radix =? 0)%N then acc'
      else digitsOf fuel' radix (n / radix) acc'
  end.

(** [n.toString(radix)] for a natural number. *)
Definition N_toString (radix n : N) : string :=
  digitsOf (N.to_nat (N.log2 n)) radix n "".

(** [z.toString(radix)] for an integer. *)
Definition Z_toString (radix : N) (z : Z) : string :=
  if (z <? 0)%Z then "-" ++ N_toString radix (Z.abs_N z)
  else N_toString radix (Z.abs_N z).

(** [s.padStart(n, c)] with a one-character filler. *)
Definition padStart (n : nat) (c : ascii) (s : string) : string :=
  string_of_list_ascii (repeat c (n - String.length s)) ++ s.

(** [xs.join(sep)] *)
Fixpoint join (sep : string) (xs : list string) : string :=
  match xs with
  | [] => ""
  | [x] => x
  | x :: rest => x ++ sep ++ join sep rest
  end.

(** [s.substring(a, b)] for [0 <= a <= b]. *)
Definition substring (a b : nat) (s : string) : string :=
  String.substring a (b - a) s.

(** [s.replace(pat, '')] with a one-character pattern: the first
    occurrence is removed. *)
Fixpoint removeFirst (c : ascii) (s : string) : string :=
  match s with
  | EmptyString => EmptyString
  | String a rest =>
      if Ascii.eqb a c then rest else String a (removeFirst c rest)
  end.

(** [toUpperCase] on the ASCII range. *)
Definition upperChar (c : ascii) : ascii :=
  let n := N_of_ascii c in
  if ((97 <=? n) && (n <=? 122))%N then ascii_of_N (n - 32) else c.
Fixpoint toUpperCase (s : string) : string :=
  match s with
  | EmptyString => EmptyString
  | String a rest => String (upperChar a) (toUpperCase rest)
  end.

(** [toLowerCase] and [trim] on the ASCII range.  The caption grouper is
    stated for arbitrary such functions; these instances serve to run it. *)
Definition lowerChar (c : ascii) : ascii :=
  let n := N_of_ascii c in
  if ((65 <=? n) && (n <=? 90))%N then ascii_of_N (n + 32) else c.
Fixpoint toLowerCase (s : string) : string :=
  match s with
  | EmptyString => EmptyString
  | String a rest => String (lowerChar a) (toLowerCase rest)
  end.

Definition isSpace (c : ascii) : bool :=
  let n := N_of_ascii c in
  ((9 <=? n) && (n <=? 13) || (n =? 32))%N.
Fixpoint trimStart (s : string) : string :=
  match s with
  | String c rest => if isSpace c then trimStart rest else s
  | EmptyString => s
  end.
Fixpoint trimEnd (s : string) : string :=
  match s with
  | String c rest =>
      match trimEnd rest with
      | EmptyString => if isSpace c then EmptyString else String c EmptyString
      | rest' => String c rest'
      end
  | EmptyString => s
  end.
Definition trim (s : string) : string := trimEnd (trimStart s).

(** [xs.slice(0, end)] on arrays: [end] is truncated to an integer, and a
    negative [end] counts from the back of the array. *)
Definition slice0 {A} (end_ : Q) (xs : list A) : list A :=
  let len := Z.of_nat (List.length xs) in
  let relativeEnd := trunc end_ in
  let final :=
    if (relativeEnd <? 0)%Z then Z.max (len + relativeEnd) 0
    else Z.min relativeEnd len in
  firstn (Z.to_nat final) xs.

End JS.


(** ** The language-model collaborator

    [generateObject] of the AI SDK is the only way the sources reach the
    language model.  The state of the world is the number of requests made
    so far; the oracle gives the settlement of the request with a given
    index (a validated object, or a rejection when the call fails or the
    answer does not match the schema). *)

Definition generateObject {Req A} (oracle : nat -> Req -> completion A)
    (request : Req) : Eff nat A :=
  fun calls => (oracle calls request, S calls).

(** [providers.ts]: [checkAIConfiguration], where [isAvailable] is
    [!!process.env.OPENAI_API_KEY]. *)
Definition checkAIConfiguration (isAvailable : bool) : Eff nat unit :=
  if negb isAvailable
  then throw (ErrorObject
    "OpenAI API key not configured. Please set OPENAI_API_KEY in your .env file.")
  else ret tt.

(** ** [lib/ai/highlights.ts], highlight detection *)

Module Highlights.

Record TranscriptionSegment := {
  seg_start : Q;
  seg_end : Q;
  seg_text : string;
}.

Record Highlight := {
  title : string;
  description : string;
  startTime : Q;
  endTime : Q;
  hookText : string;
  score : Q;
  tags : list string;
}.

Record HighlightsResult := {
  highlights : list Highlight;
  summary : string;
  mainTopics : list string;
}.

(** The [options] argument; an absent property is [None]. *)
Record Options := {
  maxHighlights : option Q;
  minDuration : option Q;
  maxDuration : option Q;
  targetAudience : option string;
  contentType : option string;
}.

Definition noOptions : Options :=
  {| maxHighlights := None; minDuration := None; maxDuration := None;
     targetAudience := None; contentType := None |}.

(** What the two prompts are built from. *)
Record Request := {
  req_segments : list TranscriptionSegment;
  req_maxHighlights : Q;
  req_minDuration : Q;
  req_maxDuration : Q;
  req_targetAudience : string;
  req_contentType : string;
}.

Definition buildRequest (segments : list TranscriptionSegment)
    (options : Options) : Request :=
  {| req_segments := segments;
     req_maxHighlights := default 5%Q (maxHighlights options);
     req_minDuration := default 15%Q (minDuration options);
     req_maxDuration := default 60%Q (maxDuration options);
     req_targetAudience :=
       default "social media users on TikTok, Instagram Reels, and YouTube Shorts"
               (targetAudience options);
     req_contentType := default "video content" (contentType options) |}.

(** The predicate of the [filter] call. *)
Definition isValid (minDuration maxDuration : Q) (h : Highlight) : bool :=
  let duration := JS.sub (endTime h) (startTime h) in
  JS.ge duration minDuration && JS.le duration maxDuration.

Definition validate (maxHighlights minDuration maxDuration : Q)
    (hs : list Highlight) : list Highlight :=
  JS.slice0 maxHighlights (List.filter (isValid minDuration maxDuration) hs).

Definition detectHighlights (isAvailable : bool)
    (oracle : nat -> Request -> completion HighlightsResult)
    (segments : list TranscriptionSegment) (options : Options)
    : Eff nat HighlightsResult :=
  (run checkAIConfiguration isAvailable in
   let request := buildRequest segments options in
   tryCatch
     (let* object := generateObject oracle request in
      let validatedHighlights :=
        validate (req_maxHighlights request) (req_minDuration request)
                 (req_maxDuration request) (highlights object) in
      ret {| highlights := validatedHighlights;
             summary := summary object;
             mainTopics := mainTopics object |})
     (fun error =>
        throw (ErrorObject
                 ("Failed to detect highlights: " ++ messageOf error))))%eff.

(** [formatTime]: the minutes and seconds of a time, as the prompt shows
    them. *)
Definition formatTime (seconds : Q) : string :=
  let mins := JS.Math_floor (seconds / 60)%Q in
  let secs := JS.Math_floor (JS.rem seconds 60) in
  JS.Z_toString 10 mins ++ ":" ++ JS.padStart 2 "0" (JS.Z_toString 10 secs).

Definition filterHighlightsByScore (highlights : list Highlight) (minScore : Q)
    : list Highlight :=
  List.filter (fun h => JS.ge (score h) minScore) highlights.

(** The callback of the [reduce] call. *)
Definition better (best current : Highlight) : Highlight :=
  if JS.gt (score current) (score best) then current else best.

(** [reduce] without an initial value starts from the first element; [None]
    is [null]. *)
Definition getBestHighlight (highlights : list Highlight) : option Highlight :=
  match highlights with
  | [] => None
  | first :: rest => Some (fold_left better rest first)
  end.

End Highlights.

(** ** [lib/ai/highlights.ts], the caption module *)

Module Captions.

(** A line feed, written [\n] in the source. *)
Definition LF : string := String (ascii_of_nat 10) "".

(** [WordTimestamp] of [./transcribe]: the fields the sources read. *)
Record WordTimestamp := {
  ts_word : string;
  ts_start : Q;
  ts_end : Q;
}.

Record CaptionWord := {
  word : string;
  startTime : Q;
  endTime : Q;
  emphasis : bool;
}.

Inductive Position := top | center | bottom.

Record CaptionSegment := {
  seg_startTime : Q;
  seg_endTime : Q;
  words : list CaptionWord;
  position : Position;
}.

Record Style := {
  fontSize : Q;
  color : string;
  highlightColor : string;
}.

Record CaptionsResult := {
  captions : list CaptionSegment;
  style : Style;
  hook : string;
}.

Record Options := {
  maxWordsPerSegment : option Q;
  emphasizeKeywords : option bool;
  includeHook : option bool;
  language : option string;
}.

Definition noOptions : Options :=
  {| maxWordsPerSegment := None; emphasizeKeywords := None;
     includeHook := None; language := None |}.

(** What the two prompts are built from. *)
Record Request := {
  req_words : list WordTimestamp;
  req_maxWordsPerSegment : Q;
  req_emphasizeKeywords : bool;
  req_includeHook : bool;
  req_language : string;
}.

Definition buildRequest (ws : list WordTimestamp) (options : Options)
    : Request :=
  {| req_words := ws;
     req_maxWordsPerSegment := default 3%Q (maxWordsPerSegment options);
     req_emphasizeKeywords := default true (emphasizeKeywords options);
     req_includeHook := default true (includeHook options);
     req_language := default "en" (language options) |}.

Section Grouper.

(** [String.prototype.toLowerCase] and [String.prototype.trim]. *)
Variable toLowerCase : string -> string.
Variable trim : string -> string.

Definition normalize (s : string) : string := trim (toLowerCase s).

(** [new Set(words.map(w => w.word.toLowerCase().trim()))] *)
Definition originalWords (ws : list WordTimestamp) : gset string :=
  list_to_set (List.map (fun w => normalize (ts_word w)) ws).

(** [captions.flatMap(seg => seg.words.map(w => w.word.toLowerCase().trim()))] *)
Definition captionWords (object : CaptionsResult) : list string :=
  List.flat_map
    (fun seg => List.map (fun w => normalize (word w)) (words seg))
    (captions object).

(** [captionWords.filter(w => !originalWords.has(w))] *)
Definition hallucinatedWords (ws : list WordTimestamp)
    (object : CaptionsResult) : list string :=
  List.filter (fun w => negb (bool_decide (w ∈ originalWords ws)))
              (captionWords object).

Definition generateCaptions (isAvailable : bool)
    (oracle : nat -> Request -> completion CaptionsResult)
    (ws : list WordTimestamp) (options : Options)
    : Eff nat CaptionsResult :=
  (run checkAIConfiguration isAvailable in
   let request := buildRequest ws options in
   tryCatch
     (let* object := generateObject oracle request in
      let hallucinated := hallucinatedWords ws object in
      if (0 <? List.length hallucinated)%nat
      then throw (ErrorObject
             ("AI hallucinated words not in transcription: "
                ++ JS.join ", " hallucinated))
      else ret object)
     (fun error =>
        throw (ErrorObject
                 ("Failed to generate captions: " ++ messageOf error))))%eff.

End Grouper.

(** *** The subtitle encoder *)

(** [parseInt(s, 16)]: leading white space, an optional sign, an optional
    [0x] prefix, then the longest run of hexadecimal digits; [None] is
    [NaN]. *)
Definition isWhiteSpace (c : ascii) : bool :=
  let n := N_of_ascii c in
  ((9 <=? n) && (n <=? 13) || (n =? 32))%N.

Fixpoint skipWhiteSpace (s : string) : string :=
  match s with
  | String c rest => if isWhiteSpace c then skipWhiteSpace rest else s
  | EmptyString => s
  end.

Definition hexDigitValue (c : ascii) : option N :=
  let n := N_of_ascii c in
  if ((48 <=? n) && (n <=? 57))%N then Some (n - 48)%N
  else if ((97 <=? n) && (n <=? 102))%N then Some (n - 87)%N
  else if ((65 <=? n) && (n <=? 70))%N then Some (n - 55)%N
  else None.

Fixpoint parseHexDigits (s : string) (acc : option N) : option N :=
  match s with
  | String c rest =>
      match hexDigitValue c with
      | Some d => parseHexDigits rest (Some (16 * default 0%N acc + d)%N)
      | None => acc
      end
  | EmptyString => acc
  end.

Definition parseInt16 (s : string) : option Z :=
  let s1 := skipWhiteSpace s in
  let '(sign, s2) :=
    match s1 with
    | String "-" rest => ((-1)%Z, rest)
    | String "+" rest => (1%Z, rest)
    | _ => (1%Z, s1)
    end in
  let s3 :=
    match s2 with
    | String "0" (String "x" rest) => rest
    | String "0" (String "X" rest) => rest
    | _ => s2
    end in
  match parseHexDigits s3 None with
  | Some n => Some (sign * Z.of_N n)%Z
  | None => None
  end.

(** [v.toString(16).padStart(2, '0').toUpperCase()] *)
Definition hexByte (v : option Z) : string :=
  let digits :=
    match v with
    | Some z => JS.Z_toString 16 z
    | None => "NaN"
    end in
  JS.toUpperCase (JS.padStart 2 "0" digits).

Definition hexToASSColor (hex : string) (alpha : Q) : string :=
  let cleanHex := JS.removeFirst "#" hex in
  let r := parseInt16 (JS.substring 0 2 cleanHex) in
  let g := parseInt16 (JS.substring 2 4 cleanHex) in
  let b := parseInt16 (JS.substring 4 6 cleanHex) in
  let a := JS.Math_round ((1 - alpha) * 255)%Q in
  "&H" ++ hexByte (Some a) ++ hexByte b ++ hexByte g ++ hexByte r.

Definition pad2 (z : Z) : string := JS.padStart 2 "0" (JS.Z_toString 10 z).

Definition formatASSTime (seconds : Q) : string :=
  let hours := JS.Math_floor (seconds / 3600)%Q in
  let minutes := JS.Math_floor (JS.rem seconds 3600 / 60)%Q in
  let secs := JS.Math_floor (JS.rem seconds 60) in
  let centiseconds := JS.Math_floor (JS.mul (JS.rem seconds 1) 100) in
  JS.Z_toString 10 hours ++ ":" ++ pad2 minutes ++ ":" ++ pad2 secs
    ++ "." ++ pad2 centiseconds.

(** The text of one word inside the cue of [active]. *)
Definition renderWord (st : Style) (active w : CaptionWord) : string :=
  if String.eqb (word w) (word active)
     && Qeq_bool (startTime w) (startTime active)
  then "{\1c" ++ hexToASSColor (highlightColor st) 1
         ++ "\3c&H00000000\bord3}" ++ word w
  else "{\1c&H00FFFFFF\3c&H00000000\bord2}" ++ word w.

(** [word.emphasis ? 'Highlight' : 'Highlight'] *)
Definition wordStyle (w : CaptionWord) : string :=
  if emphasis w then "Highlight" else "Highlight".

(** The body of the outer [words.map]: the cue of one word. *)
Definition karaokeCue (st : Style) (segmentWords : list CaptionWord)
    (active : CaptionWord) : string :=
  let start := formatASSTime (startTime active) in
  let end_ := formatASSTime (endTime active) in
  let wordStyle := wordStyle active in
  let fullText := JS.join " " (List.map (renderWord st active) segmentWords) in
  "Dialogue: 0," ++ start ++ "," ++ end_ ++ ",Default,,0,0,0,," ++ fullText
    ++ LF.

Definition karaokeCues (segment : CaptionSegment) (st : Style)
    : list string :=
  List.map (karaokeCue st (words segment)) (words segment).

Definition generateKaraokeEvents (segment : CaptionSegment) (st : Style)
    : string :=
  JS.join "" (karaokeCues segment st).

Section Encoder.

(** [Number.prototype.toString], used to print the font size. *)
Variable Number_toString : Q -> string.

(** The columns named by the [Format:] line of the styles section. *)
Definition styleFormat : list string :=
  [ "Name"; "Fontname"; "Fontsize"; "PrimaryColour"; "SecondaryColour";
    "OutlineColour"; "BackColour"; "Bold"; "Italic"; "Underline"; "StrikeOut";
    "ScaleX"; "ScaleY"; "Spacing"; "Angle"; "BorderStyle"; "Outline"; "Shadow";
    "Alignment"; "MarginL"; "MarginR"; "MarginV"; "Encoding" ].

(** The comma-separated values of the two [Style:] lines. *)
Definition defaultStyle (st : Style) : list string :=
  [ "Default"; "Arial"; Number_toString (fontSize st);
    "&H00FFFFFF"; "&H00FFFFFF"; "&H00000000"; "&H80000000";
    "1"; "0"; "0"; "0"; "100"; "100"; "0"; "0"; "1"; "2"; "1"; "2";
    "10"; "10"; "480"; "1" ].

Definition highlightStyle (st : Style) : list string :=
  [ "Highlight"; "Arial"; Number_toString (fontSize st);
    hexToASSColor (highlightColor st) 1; hexToASSColor (highlightColor st) 1;
    "&H00000000"; hexToASSColor (highlightColor st) (8 # 10);
    "1"; "0"; "0"; "0"; "100"; "100"; "0"; "0"; "1"; "2"; "1"; "2";
    "10"; "10"; "480"; "1" ].

Definition headerLines (st : Style) : list string :=
  [ "[Script Info]";
    "Title: Clipwise Captions";
    "ScriptType: v4.00+";
    "WrapStyle: 0";
    "ScaledBorderAndShadow: yes";
    "YCbCr Matrix: None";
    "PlayResY: 1920";
    "";
    "[V4+ Styles]";
    "Format: " ++ JS.join ", " styleFormat;
    "Style: " ++ JS.join "," (defaultStyle st);
    "Style: " ++ JS.join "," (highlightStyle st);
    "";
    "[Events]";
    "Format: Layer, Start, End, Style, Name, MarginL, MarginR, MarginV, Effect, Text";
    "" ].

(** The template literal of the header, line by line. *)
Definition header (st : Style) : string := JS.join LF (headerLines st).

Definition captionsToASS (captionsResult : CaptionsResult) : string :=
  let events :=
    JS.join ""
      (List.map (fun segment => generateKaraokeEvents segment (style captionsResult))
                (captions captionsResult)) in
  header (style captionsResult) ++ events.

End Encoder.

End Captions.

(** ** [lib/video/processor.ts]

    The world of the processor is the file system, a finite map from paths
    to contents, and the number of times the clock has been read.  The
    media engine, the prober and the clock are given by an [Environment]:
    each run of the engine ends or fails as the environment decides, and a
    failed run may leave part of its output behind.  [writeFile],
    [rename] and [unlink] fail when the environment says so; [unlink] and
    [rename] also fail when the file is not there. *)

Module Processor.

Record World := {
  files : gmap string string;
  clockReads : nat;
}.

Definition exists_ (path : string) (w : World) : Prop :=
  is_Some (files w !! path).

Record CropOptions := { crop_w : Z; crop_h : Z; crop_x : Z; crop_y : Z }.
Record ScaleOptions := { scale_w : Z; scale_h : Z }.

Inductive VideoFilter :=
| crop (options : CropOptions)
| scale (options : ScaleOptions).

(** One invocation of the media engine. *)
Inductive EngineCall :=
| Extract (input : string) (startTime duration : Q) (output : string)
| Filter (input : string) (videoFilters : list VideoFilter) (output : string)
| Ass (input : string) (assPath : string) (output : string).

Definition outputOf (call : EngineCall) : string :=
  match call with
  | Extract _ _ _ output | Filter _ _ output | Ass _ _ output => output
  end.

(** How an invocation ends: with the [end] event and the output written,
    or with the [error] event, after which part of the output may have
    been left behind. *)
Inductive EngineResult :=
| Ended (written : string)
| Errored (message : string) (leftBehind : option string).

Record Stream := {
  codec_type : string;
  stream_width : option Z;
  stream_height : option Z;
}.

Record Metadata := { streams : list Stream }.

(** What the callback of [ffprobe] receives: the message of an error, or
    the metadata. *)
Inductive ProbeResult :=
| ProbeError (message : string)
| Probed (metadata : Metadata).

Record Environment := {
  tmpdir : string;
  clock : nat -> Z;
  engine : EngineCall -> World -> EngineResult;
  ffprobe : string -> World -> ProbeResult;
  writeFault : string -> World -> option string;
  renameFault : string -> string -> World -> option string;
  unlinkFault : string -> World -> option string;
}.

(** The optional properties of the [options] arguments. *)
Inductive CropPosition := center | top | bottom.

Record VerticalOptions := {
  opt_width : option Z;
  opt_height : option Z;
  opt_position : option CropPosition;
}.

Record ClipOptions := {
  opt_cropToVertical : option bool;
  opt_burnCaptions : option bool;
}.

(** The [format] part of what [ffprobe] reports; a missing property is
    [None]. *)
Record Format := {
  format_duration : option Q;
  format_name : option string;
  bit_rate : option Q;
}.

(** What [getVideoMetadata] resolves with. *)
Record VideoMetadata := {
  duration : Q;
  width : Z;
  height : Z;
  format : string;
  bitrate : Q;
}.

Section WithEnvironment.

Variable env : Environment.
Variable Number_toString : Q -> string.

(** [Date.now()] *)
Definition Date_now : Eff World Z :=
  fun w => (Return (clock env (clockReads w)),
            {| files := files w; clockReads := S (clockReads w) |}).

(** [path.join(dir, name)] for a directory without a trailing slash. *)
Definition path_join (dir name : string) : string := dir ++ "/" ++ name.

(** [fs.writeFile], [fs.unlink] and [fs.rename] *)
Definition writeFile (path content : string) : Eff World unit :=
  fun w => match writeFault env path w with
           | Some message => (Throw (ErrorObject message), w)
           | None => (Return tt,
                      {| files := <[path := content]> (files w);
                         clockReads := clockReads w |})
           end.

Definition unlink (path : string) : Eff World unit :=
  fun w => match files w !! path with
           | None => (Throw (ErrorObject
                        ("ENOENT: no such file or directory, unlink " ++ path)), w)
           | Some _ =>
               match unlinkFault env path w with
               | Some message => (Throw (ErrorObject message), w)
               | None => (Return tt,
                          {| files := delete path (files w);
                             clockReads := clockReads w |})
               end
           end.

Definition rename (oldPath newPath : string) : Eff World unit :=
  fun w => match files w !! oldPath with
           | None => (Throw (ErrorObject
                        ("ENOENT: no such file or directory, rename " ++ oldPath)), w)
           | Some content =>
               match renameFault env oldPath newPath w with
               | Some message => (Throw (ErrorObject message), w)
               | None => (Return tt,
                          {| files := <[newPath := content]> (delete oldPath (files w));
                             clockReads := clockReads w |})
               end
           end.

(** [try { await fs.unlink(path); } catch (e) { }] *)
Definition unlinkQuietly (path : string) : Eff World unit :=
  tryCatch (unlink path) (fun _ => ret tt).

(** Running the media engine until its [end] or [error] event; the
    handlers are the continuations. *)
Definition runEngine {A} (call : EngineCall)
    (onEnd : Eff World A) (onError : string -> Eff World A) : Eff World A :=
  fun w => match engine env call w with
           | Ended written =>
               onEnd {| files := <[outputOf call := written]> (files w);
                        clockReads := clockReads w |}
           | Errored message leftBehind =>
               onError message
                 {| files := match leftBehind with
                             | Some part => <[outputOf call := part]> (files w)
                             | None => files w
                             end;
                    clockReads := clockReads w |}
           end.

Definition ffmpegError {A} (message : string) : Eff World A :=
  throw (ErrorObject ("FFmpeg error: " ++ message)).

Definition extractClip (inputPath : string) (startTime endTime : Q)
    (outputPath : string) : Eff World unit :=
  let duration := (endTime - startTime)%Q in
  runEngine (Extract inputPath startTime duration outputPath)
            (ret tt) ffmpegError.

(** [!videoStream.width]: the property is missing or zero. *)
Definition falsy (dimension : option Z) : bool :=
  match dimension with
  | Some n => (n =? 0)%Z
  | None => true
  end.

(** The filter chain chosen for a source of the given dimensions. *)
Definition cropFilters (sourceWidth sourceHeight : Z)
    (width height : Z) (position : CropPosition) : list VideoFilter :=
  let targetAspect := (9 / 16)%Q in
  let sourceAspect := (inject_Z sourceWidth / inject_Z sourceHeight)%Q in
  if JS.gt sourceAspect targetAspect then
    let cropWidth := JS.Math_floor (inject_Z sourceHeight * targetAspect)%Q in
    let cropX := JS.Math_floor (inject_Z (sourceWidth - cropWidth) / 2)%Q in
    let cropY := 0%Z in
    [ crop {| crop_w := cropWidth; crop_h := sourceHeight;
              crop_x := cropX; crop_y := cropY |};
      scale {| scale_w := width; scale_h := height |} ]
  else
    let cropHeight := JS.Math_floor (inject_Z sourceWidth / targetAspect)%Q in
    let cropY :=
      match position with
      | top => 0%Z
      | bottom => (sourceHeight - cropHeight)%Z
      | center => JS.Math_floor (inject_Z (sourceHeight - cropHeight) / 2)%Q
      end in
    let cropX := 0%Z in
    [ crop {| crop_w := sourceWidth; crop_h := cropHeight;
              crop_x := cropX; crop_y := cropY |};
      scale {| scale_w := width; scale_h := height |} ].

Definition cropToVertical (inputPath outputPath : string)
    (options : option VerticalOptions) : Eff World unit :=
  let width := default 1080%Z (options ≫= opt_width) in
  let height := default 1920%Z (options ≫= opt_height) in
  let position := default center (options ≫= opt_position) in
  fun w =>
    match ffprobe env inputPath w with
    | ProbeError message =>
        (Throw (ErrorObject ("FFprobe error: " ++ message)), w)
    | Probed metadata =>
        match List.find (fun s => String.eqb (codec_type s) "video")
                        (streams metadata) with
        | Some videoStream =>
            if falsy (stream_width videoStream) || falsy (stream_height videoStream)
            then (Throw (ErrorObject "Could not determine video dimensions"), w)
            else
              let sourceWidth := default 0%Z (stream_width videoStream) in
              let sourceHeight := default 0%Z (stream_height videoStream) in
              runEngine
                (Filter inputPath
                   (cropFilters sourceWidth sourceHeight width height position)
                   outputPath)
                (ret tt) ffmpegError w
        | None =>
            (Throw (ErrorObject "Could not determine video dimensions"), w)
        end
    end.

(** [value || 0] and [value || 'unknown'] *)
Definition orZero (value : option Z) : Z :=
  if falsy value then 0%Z else default 0%Z value.

Definition orZeroQ (value : option Q) : Q :=
  match value with
  | Some q => if Qeq_bool q 0 then 0%Q else q
  | None => 0%Q
  end.

Definition orUnknown (value : option string) : string :=
  match value with
  | Some name => if String.eqb name "" then "unknown" else name
  | None => "unknown"
  end.

(** [getVideoMetadata]; [probeFormat] gives the [format] part of the
    metadata that [ffprobe] reports for a path. *)
Definition getVideoMetadata (probeFormat : string -> World -> Format)
    (inputPath : string) : Eff World VideoMetadata :=
  fun w =>
    match ffprobe env inputPath w with
    | ProbeError message =>
        (Throw (ErrorObject ("FFprobe error: " ++ message)), w)
    | Probed metadata =>
        match List.find (fun s => String.eqb (codec_type s) "video")
                        (streams metadata) with
        | Some videoStream =>
            (Return {| duration := orZeroQ (format_duration (probeFormat inputPath w));
                       width := orZero (stream_width videoStream);
                       height := orZero (stream_height videoStream);
                       format := orUnknown (format_name (probeFormat inputPath w));
                       bitrate := orZeroQ (bit_rate (probeFormat inputPath w)) |}, w)
        | None => (Throw (ErrorObject "No video stream found"), w)
        end
    end.

Definition burnCaptions (inputPath : string)
    (captionsResult : Captions.CaptionsResult) (outputPath : string)
    : Eff World unit :=
  (let* now := Date_now in
   let assPath :=
     path_join (tmpdir env) ("captions-" ++ JS.Z_toString 10 now ++ ".ass") in
   let assContent := Captions.captionsToASS Number_toString captionsResult in
   run writeFile assPath assContent in
   runEngine (Ass inputPath assPath outputPath)
     (run unlinkQuietly assPath in ret tt)
     (fun message => run unlinkQuietly assPath in ffmpegError message))%eff.

Definition extractedPathOf (timestamp : Z) : string :=
  path_join (tmpdir env) ("clip-" ++ JS.Z_toString 10 timestamp ++ "-extracted.mp4").
Definition croppedPathOf (timestamp : Z) : string :=
  path_join (tmpdir env) ("clip-" ++ JS.Z_toString 10 timestamp ++ "-cropped.mp4").

Definition createClip (inputVideoPath : string) (startTime endTime : Q)
    (captionsResult : option Captions.CaptionsResult) (outputPath : string)
    (options : option ClipOptions) : Eff World unit :=
  let shouldCrop := default true (options ≫= opt_cropToVertical) in
  let shouldBurnCaptions := default true (options ≫= opt_burnCaptions) in
  let tempDir := tmpdir env in
  (let* timestamp := Date_now in
   tryCatch
     (let extractedPath := extractedPathOf timestamp in
      run extractClip inputVideoPath startTime endTime extractedPath in
      let* processedPath :=
        (if shouldCrop then
           let croppedPath := croppedPathOf timestamp in
           run cropToVertical extractedPath croppedPath None in
           run unlink extractedPath in
           ret croppedPath
         else ret extractedPath) in
      match shouldBurnCaptions, captionsResult with
      | true, Some captionsResult =>
          run burnCaptions processedPath captionsResult outputPath in
          unlink processedPath
      | _, _ => rename processedPath outputPath
      end)
     (fun error =>
        run unlinkQuietly (extractedPathOf timestamp) in
        run unlinkQuietly (croppedPathOf timestamp) in
        throw error))%eff.

End WithEnvironment.

End Processor.

(** ** The clip routes

    [app/api/videos/[id]/process/route.ts] and its siblings [retry] and
    [regenerate] cut the words of one highlight out of the transcription
    before they call [generateCaptions] and [createClip]. *)

Module ProcessRoute.

(** [transcription.words.filter(...)] *)
Definition clipWords (words : list Captions.WordTimestamp)
    (highlight : Highlights.Highlight) : list Captions.WordTimestamp :=
  List.filter
    (fun word =>
       JS.ge (Captions.ts_start word) (Highlights.startTime highlight)
       && JS.le (Captions.ts_end word) (Highlights.endTime highlight))
    words.

(** [clipWords.map(...)]: times relative to the start of the clip. *)
Definition adjustedWords (clipWords : list Captions.WordTimestamp)
    (highlight : Highlights.Highlight) : list Captions.WordTimestamp :=
  List.map
    (fun word =>
       {| Captions.ts_word := Captions.ts_word word;
          Captions.ts_start :=
            JS.sub (Captions.ts_start word) (Highlights.startTime highlight);
          Captions.ts_end :=
            JS.sub (Captions.ts_end word) (Highlights.startTime highlight) |})
    clipWords.

(** The options of the two calls. *)
Definition highlightOptions : Highlights.Options :=
  {| Highlights.maxHighlights := Some 5%Q;
     Highlights.minDuration := Some 15%Q;
     Highlights.maxDuration := Some 60%Q;
     Highlights.targetAudience :=
       Some "TikTok, Instagram Reels, YouTube Shorts users";
     Highlights.contentType := Some "video content" |}.

Definition captionOptions (language : option string) : Captions.Options :=
  {| Captions.maxWordsPerSegment := Some 3%Q;
     Captions.emphasizeKeywords := Some true;
     Captions.includeHook := Some true;
     Captions.language := language |}.

End ProcessRoute.

(** * The vocabulary of the properties

    The notions the statements below are written with, and the sample
    inputs on which they are run. *)

(** A printer of numbers that is exact on integers; it stands for
    [Number.prototype.toString] where a concrete track is computed. *)
Definition integerToString (q : Q) : string := JS.Z_toString 10 (Qfloor q).

(** The number that a decimal literal of the sources denotes: the binary64
    number nearest to it. *)
Definition double (decimal : Q) : Q := Qred (JS.round64 decimal).

Section HighlightVocabulary.
Import Highlights.

Definition demoHighlight (a b : Q) : Highlight :=
  {| title := "t"; description := "d"; startTime := a; endTime := b;
     hookText := "hook"; score := 90; tags := [] |}.

Definition demoObject (hs : list Highlight) : HighlightsResult :=
  {| highlights := hs; summary := "s"; mainTopics := [] |}.

(** Options that only set the limit. *)
Definition limitedTo (limit : Q) : Options :=
  {| maxHighlights := Some limit; minDuration := None; maxDuration := None;
     targetAudience := None; contentType := None |}.

(** The error the caller sees when highlight detection fails for the
    given cause. *)
Definition HighlightDetectionFailed (cause : string) : thrown :=
  ErrorObject ("Failed to detect highlights: " ++ cause).

End HighlightVocabulary.

Section CaptionVocabulary.
Import Captions.

(** The error the caller sees when the answer of the model contains the
    given words that are not in the transcription. *)
Definition CaptionHallucinationError (offendingWords : list string) : thrown :=
  ErrorObject ("Failed to generate captions: "
                 ++ "AI hallucinated words not in transcription: "
                 ++ JS.join ", " offendingWords).

Definition demoWord (s : string) (a b : Q) : WordTimestamp :=
  {| ts_word := s; ts_start := a; ts_end := b |}.

Definition demoCaptionWord (s : string) (a b : Q) : CaptionWord :=
  {| word := s; startTime := a; endTime := b; emphasis := false |}.

Definition demoStyle : Style :=
  {| fontSize := 36; color := "#FFFFFF"; highlightColor := "#FFD700" |}.

Definition demoSegment (ws : list CaptionWord) : CaptionSegment :=
  {| seg_startTime := 0; seg_endTime := 2; words := ws; position := bottom |}.

Definition demoCaptions (segs : list CaptionSegment) : CaptionsResult :=
  {| captions := segs; style := demoStyle; hook := "" |}.

Definition demoTranscript : list WordTimestamp :=
  [ demoWord "Hola" (1 # 2) (3 # 4); demoWord "esto" (3 # 4) (5 # 4);
    demoWord "es" (5 # 4) (3 # 2); demoWord "importante" (3 # 2) 2 ].

Definition allAscii : list ascii := List.map ascii_of_nat (seq 0 256).

Definition isHexDigit (c : ascii) : bool :=
  match hexDigitValue c with Some _ => true | None => false end.

(** The value of a channel written with two hexadecimal digits. *)
Definition hexPairValue (c1 c2 : ascii) : Z :=
  Z.of_N (16 * default 0%N (hexDigitValue c1) + default 0%N (hexDigitValue c2)).

(** Reading a colour token back, following the byte order documented for
    [hexToASSColor], [&HAABBGGRR]: red is the last byte, blue the second. *)
Definition decodeASSColor (token : string) : option (Z * Z * Z) :=
  match parseInt16 (JS.substring 8 10 token),
        parseInt16 (JS.substring 6 8 token),
        parseInt16 (JS.substring 4 6 token) with
  | Some r, Some g, Some b => Some (r, g, b)
  | _, _, _ => None
  end.

Definition twoChars (c1 c2 : ascii) : string := String c1 (String c2 "").

Definition hashed (c1 c2 c3 c4 c5 c6 : ascii) : string :=
  String "#" (String c1 (String c2 (String c3 (String c4 (String c5 (String c6 "")))))).

Definition unhashed (c1 c2 c3 c4 c5 c6 : ascii) : string :=
  String c1 (String c2 (String c3 (String c4 (String c5 (String c6 ""))))).

(** Whole seconds and whole centiseconds of a time. *)
Definition wholeSeconds (seconds : Q) : Z := Qfloor seconds.
Definition wholeCentiseconds (seconds : Q) : Z := Qfloor (seconds * 100).

(** The centiseconds that [formatASSTime] prints: the product by 100 is
    rounded before its floor is taken. *)
Definition printedCentiseconds (seconds : Q) : Z :=
  JS.Math_floor (JS.mul (JS.rem seconds 1) 100).

(** A value below 100 written with exactly two decimal digits. *)
Definition decimalDigit (d : Z) : ascii := ascii_of_N (48 + Z.to_N d).
Definition twoDigits (n : Z) : string :=
  String (decimalDigit (n / 10)) (String (decimalDigit (n mod 10)) "").

(** All the cues of a track, segment after segment. *)
Definition allCues (c : CaptionsResult) : list string :=
  List.flat_map (fun segment => karaokeCues segment (style c)) (captions c).

(** No two words of the list start at the same time. *)
Definition distinctStarts (ws : list CaptionWord) : Prop :=
  forall i j wi wj,
    ws !! i = Some wi -> ws !! j = Some wj ->
    (startTime wi == startTime wj)%Q -> i = j.

Definition demoTrack : CaptionsResult :=
  demoCaptions
    [ demoSegment [demoCaptionWord "Hola" 0 (1 # 2); demoCaptionWord "a" (1 # 2) (3 # 4);
                   demoCaptionWord "todos" (3 # 4) (5 # 4)];
      demoSegment [demoCaptionWord "hoy" (5 # 4) (7 # 4);
                   demoCaptionWord "vamos" (7 # 4) (9 # 4)];
      demoSegment [demoCaptionWord "a" (9 # 4) (5 # 2);
                   demoCaptionWord "hablar" (5 # 2) 3;
                   demoCaptionWord "de" 3 (13 # 4);
                   demoCaptionWord "virales" (13 # 4) 4] ].

(** Forgetting the emphasis flags of a result. *)
Definition withoutEmphasis (w : CaptionWord) : CaptionWord :=
  {| word := word w; startTime := startTime w; endTime := endTime w;
     emphasis := false |}.

Definition segmentWithoutEmphasis (segment : CaptionSegment) : CaptionSegment :=
  {| seg_startTime := seg_startTime segment; seg_endTime := seg_endTime segment;
     words := List.map withoutEmphasis (words segment);
     position := position segment |}.

Definition resultWithoutEmphasis (c : CaptionsResult) : CaptionsResult :=
  {| captions := List.map segmentWithoutEmphasis (captions c);
     style := style c; hook := hook c |}.

(** Two results that are equal except in the emphasis flags of their
    words. *)
Definition equalExceptEmphasis (c1 c2 : CaptionsResult) : Prop :=
  resultWithoutEmphasis c1 = resultWithoutEmphasis c2.



Definition demoEmphasized : CaptionsResult :=
  demoCaptions
    [ demoSegment
        [ {| word := "Hola"; startTime := 0; endTime := 1 # 2; emphasis := true |};
          {| word := "a"; startTime := 1 # 2; endTime := 3 # 4; emphasis := false |};
          {| word := "todos"; startTime := 3 # 4; endTime := 5 # 4;
             emphasis := true |} ] ].

Definition demoPlain : CaptionsResult :=
  demoCaptions
    [ demoSegment [demoCaptionWord "Hola" 0 (1 # 2); demoCaptionWord "a" (1 # 2) (3 # 4);
                   demoCaptionWord "todos" (3 # 4) (5 # 4)] ].

(** Two answers that pass the check of [generateCaptions] for the sample
    transcription: a word that starts before the clip does, and a word
    whose text ends with a line feed (which [trim] removes before the
    comparison). *)
Definition demoEarlyWord : CaptionsResult :=
  demoCaptions [demoSegment [demoCaptionWord "Hola" (- (1 # 2)) (1 # 2)]].

Definition demoBrokenWord : CaptionsResult :=
  demoCaptions [demoSegment [demoCaptionWord ("Hola" ++ LF) 0 (1 # 2)]].

(** The number of line feeds of a text. *)
Fixpoint lineFeeds (s : string) : nat :=
  match s with
  | EmptyString => 0
  | String c rest => (if Ascii.eqb c (ascii_of_nat 10) then 1 else 0) + lineFeeds rest
  end.

(** No word of the result contains a line feed. *)
Definition singleLineWords (c : CaptionsResult) : Prop :=
  forall segment w,
    In segment (captions c) -> In w (words segment) -> lineFeeds (word w) = 0%nat.

End CaptionVocabulary.

Section ProcessorVocabulary.
Import Processor.
Variable env : Environment.
Variable Number_toString : Q -> string.

(** The window of the crop filter, in integer arithmetic. *)
Definition cropWindow (sourceWidth sourceHeight : Z) (position : CropPosition)
    : CropOptions :=
  if decide (9 * sourceHeight < 16 * sourceWidth)
  then {| crop_w := 9 * sourceHeight / 16;
          crop_h := sourceHeight;
          crop_x := (sourceWidth - 9 * sourceHeight / 16) / 2;
          crop_y := 0 |}
  else {| crop_w := sourceWidth;
          crop_h := 16 * sourceWidth / 9;
          crop_x := 0;
          crop_y := match position with
                    | top => 0
                    | bottom => sourceHeight - 16 * sourceWidth / 9
                    | center => (sourceHeight - 16 * sourceWidth / 9) / 2
                    end |}.

Definition demoEnvironment (outcome : EngineCall -> EngineResult)
    (probed : ProbeResult) : Environment :=
  {| tmpdir := "/tmp";
     clock := fun n => 1700000000000 + Z.of_nat n;
     engine := fun call _ => outcome call;
     ffprobe := fun _ _ => probed;
     writeFault := fun _ _ => None;
     renameFault := fun _ _ _ => None;
     unlinkFault := fun _ _ => None |}.


Definition demoProbe (w h : Z) : ProbeResult :=
  Probed {| streams := [ {| codec_type := "audio"; stream_width := None;
                            stream_height := None |};
                         {| codec_type := "video"; stream_width := Some w;
                            stream_height := Some h |} ] |}.

Definition emptyWorld : World := {| files := ∅; clockReads := 0 |}.

Definition absent (path : string) (w : World) : Prop := files w !! path = None.

(** A computation that never brings the path into existence. *)
Definition preserves {A} (path : string) (m : Eff World A) : Prop :=
  forall w, absent path w -> absent path (snd (m w)).


(** The path of the subtitle file written when the clock shows [now]. *)
Definition assPathOf (now : Z) : string :=
  path_join (tmpdir env) ("captions-" ++ JS.Z_toString 10 now ++ ".ass").

(** The world after one reading of the clock. *)
Definition tick (w : World) : World :=
  {| files := files w; clockReads := S (clockReads w) |}.

(** What [burnCaptions] does once the path of the subtitle file is known. *)
Definition burnWith (assPath inputPath outputPath content : string)
    : Eff World unit :=
  bind (writeFile env assPath content)
       (fun _ =>
          runEngine env (Ass inputPath assPath outputPath)
            (bind (unlinkQuietly env assPath) (fun _ => ret tt))
            (fun message => bind (unlinkQuietly env assPath)
                                 (fun _ => ffmpegError message))).

(** The body of the [try] block of [createClip]. *)
Definition createClipBody (inputVideoPath : string) (startTime endTime : Q)
    (captionsResult : option Captions.CaptionsResult) (outputPath : string)
    (shouldCrop shouldBurnCaptions : bool) (timestamp : Z) : Eff World unit :=
  bind (extractClip env inputVideoPath startTime endTime (extractedPathOf env timestamp))
       (fun _ =>
          bind (if shouldCrop
                then bind (cropToVertical env (extractedPathOf env timestamp)
                                          (croppedPathOf env timestamp) None)
                          (fun _ => bind (unlink env (extractedPathOf env timestamp))
                                         (fun _ => ret (croppedPathOf env timestamp)))
                else ret (extractedPathOf env timestamp))
               (fun processedPath =>
                  match shouldBurnCaptions, captionsResult with
                  | true, Some captionsResult =>
                      bind (burnCaptions env Number_toString processedPath
                                         captionsResult outputPath)
                           (fun _ => unlink env processedPath)
                  | _, _ => rename env processedPath outputPath
                  end)).

(** The [catch] clause of [createClip]. *)
Definition cleanup (first second : string) (error : thrown) : Eff World unit :=
  bind (unlinkQuietly env first)
       (fun _ => bind (unlinkQuietly env second) (fun _ => throw error)).

(** A media engine whose crop stage fails and leaves part of its output
    behind. *)
Definition failingCrop (call : EngineCall) : EngineResult :=
  match call with
  | Filter _ _ _ => Errored "Conversion failed!" (Some "partial")
  | _ => Ended "mp4"
  end.

End ProcessorVocabulary.

Section SelectionVocabulary.
Import Highlights.

Definition scoredHighlight (name : string) (points : Q) : Highlight :=
  {| title := name; description := "d"; startTime := 0; endTime := 30;
     hookText := "hook"; score := points; tags := [] |}.

End SelectionVocabulary.

Section WindowVocabulary.
Import Captions.

(** The words of the sample transcription that are spoken between 0.75 s and
    2 s, and the answer of a model that groups the first two. *)
Definition demoWindow : Highlights.Highlight := demoHighlight (3 # 4) 2.

Definition demoWindowAnswer : CaptionsResult :=
  demoCaptions [demoSegment [demoCaptionWord "esto" 0 (1 # 2);
                             demoCaptionWord "es" (1 # 2) (3 # 4)]].

End WindowVocabulary.

Section EncoderVocabulary.
Import Captions.

(** The time that a stamp [H:MM:SS.cc] denotes, in centiseconds. *)
Definition centisecondsOf (hours minutes secs centiseconds : Z) : Z :=
  ((hours * 60 + minutes) * 60 + secs) * 100 + centiseconds.

(** A result without its segments that have no words. *)
Definition withoutEmptySegments (c : CaptionsResult) : CaptionsResult :=
  {| captions :=
       List.filter (fun segment => negb (List.length (words segment) =? 0)%nat)
                   (captions c);
     style := style c; hook := hook c |}.

(** The sample track laid out differently: other segment times, another
    position, another text colour and a hook. *)
Definition demoRearranged : CaptionsResult :=
  {| captions :=
       [ {| seg_startTime := 5; seg_endTime := 9;
            words := [demoCaptionWord "Hola" 0 (1 # 2);
                      demoCaptionWord "a" (1 # 2) (3 # 4);
                      demoCaptionWord "todos" (3 # 4) (5 # 4)];
            position := top |} ];
     style := {| fontSize := 36; color := "#000000"; highlightColor := "#FFD700" |};
     hook := "Hola a todos" |}.

Definition demoWithEmptySegment : CaptionsResult :=
  demoCaptions
    [ demoSegment [];
      demoSegment [demoCaptionWord "Hola" 0 (1 # 2); demoCaptionWord "a" (1 # 2) (3 # 4);
                   demoCaptionWord "todos" (3 # 4) (5 # 4)];
      demoSegment [] ].

End EncoderVocabulary.

Section FrameVocabulary.
Import Processor.

(** A computation that leaves the file at the path as it is: neither
    created, nor removed, nor rewritten. *)
Definition keeps {A} (path : string) (m : Eff World A) : Prop :=
  forall w, files (snd (m w)) !! path = files w !! path.

Definition isVideo (s : Stream) : bool := String.eqb (codec_type s) "video".

(** A probe that finds a video stream without dimensions after an audio
    stream, and a later video stream that has them. *)
Definition demoProbeWithoutDimensions : ProbeResult :=
  Probed {| streams := [ {| codec_type := "audio"; stream_width := None;
                            stream_height := None |};
                         {| codec_type := "video"; stream_width := None;
                            stream_height := Some 1080 |};
                         {| codec_type := "video"; stream_width := Some 1920;
                            stream_height := Some 1080 |} ] |}.

Definition demoFormat : Format :=
  {| format_duration := Some (125 # 2); format_name := Some "";
     bit_rate := None |}.

(** A media engine whose extraction fails. *)
Definition failingExtract (call : EngineCall) : EngineResult :=
  match call with
  | Extract _ _ _ _ => Errored "Invalid data found when processing input" None
  | _ => Ended "mp4"
  end.

(** A world that holds the uploaded video. *)
Definition demoWorld : World :=
  {| files := {[ "/tmp/input-1.mp4" := "video" ]}; clockReads := 0 |}.

End FrameVocabulary.

Section StageVocabulary.
Import Processor.

(** The environment with another prober. *)
Definition withProbe (env : Environment) (probe : string -> World -> ProbeResult)
    : Environment :=
  {| tmpdir := tmpdir env; clock := clock env; engine := engine env;
     ffprobe := probe;
     writeFault := writeFault env; renameFault := renameFault env;
     unlinkFault := unlinkFault env |}.

(** Options that switch the crop off and leave the rest to the defaults. *)
Definition withoutCrop : ClipOptions :=
  {| opt_cropToVertical := Some false; opt_burnCaptions := None |}.

End StageVocabulary.

(** * Properties *)

(** ** Rounding to binary64 *)

Section RoundingFacts.

Lemma pow2_pos (e : Z) : (0 < JS.pow2 e)%Q.
Proof. apply Qpower_0_lt. reflexivity. Qed.

Lemma pow2_plus (a b : Z) : (JS.pow2 (a + b) == JS.pow2 a * JS.pow2 b)%Q.
Proof. apply Qpower_plus. discriminate. Qed.

Lemma pow2_le (a b : Z) : a <= b -> (JS.pow2 a <= JS.pow2 b)%Q.
Proof. intros H. apply Qpower_le_compat_l; [exact H|discriminate]. Qed.

Lemma pow2_lt_inv (a b : Z) : (JS.pow2 a < JS.pow2 b)%Q -> a < b.
Proof. intros H. eapply Qpower_lt_compat_l_inv; [exact H|reflexivity]. Qed.

Lemma pow2_inject (e : Z) : 0 <= e -> (JS.pow2 e == inject_Z (2 ^ e))%Q.
Proof. intros H. symmetry. apply (Zpower_Qpower 2 e H). Qed.

Lemma nearestEven_bounds (s : Q) :
  (inject_Z (JS.nearestEven s) - (1 # 2) <= s)%Q /\
  (s <= inject_Z (JS.nearestEven s) + (1 # 2))%Q.
Proof.
  unfold JS.nearestEven.
  pose proof (Qfloor_le s) as Hlow. pose proof (Qlt_floor s) as Hhigh.
  rewrite inject_Z_plus in Hhigh. change (inject_Z 1) with 1%Q in Hhigh.
  destruct (Qcompare_spec (s - inject_Z (Qfloor s)) (1 # 2)) as [Heq|Hlt|Hgt].
  - destruct (Z.even (Qfloor s)).
    + split; lra.
    + rewrite inject_Z_plus. change (inject_Z 1) with 1%Q. split; lra.
  - split; lra.
  - rewrite inject_Z_plus. change (inject_Z 1) with 1%Q. split; lra.
Qed.

Lemma nearestEven_comp (s t : Q) : (s == t)%Q -> JS.nearestEven s = JS.nearestEven t.
Proof.
  intros Heq. unfold JS.nearestEven. rewrite (Qfloor_comp s t Heq).
  assert (Hcmp : (s - inject_Z (Qfloor t) ?= 1 # 2)%Q
                 = (t - inject_Z (Qfloor t) ?= 1 # 2)%Q).
  { apply Qcompare_comp; [now rewrite Heq|reflexivity]. }
  now rewrite Hcmp.
Qed.

Lemma nearestEven_monotone (s t : Q) :
  (s <= t)%Q -> JS.nearestEven s <= JS.nearestEven t.
Proof.
  intros Hle.
  destruct (Z_le_gt_dec (JS.nearestEven s) (JS.nearestEven t)) as [H|H]; [exact H|].
  exfalso.
  destruct (nearestEven_bounds s) as [Hs _].
  destruct (nearestEven_bounds t) as [_ Ht].
  assert (Hstep : (inject_Z (JS.nearestEven t) + 1 <= inject_Z (JS.nearestEven s))%Q).
  { change 1%Q with (inject_Z 1). rewrite <- inject_Z_plus, <- Zle_Qle. lia. }
  assert (Heq : (s == t)%Q) by lra.
  apply nearestEven_comp in Heq. lia.
Qed.

Lemma nearestEven_inject (m : Z) : JS.nearestEven (inject_Z m) = m.
Proof.
  unfold JS.nearestEven. rewrite Qfloor_Z.
  destruct (Qcompare_spec (inject_Z m - inject_Z m) (1 # 2)) as [H|H|H];
    try reflexivity; exfalso; lra.
Qed.

(** Rounding to the multiples of [2^e] is monotone and leaves the multiples
    where they are. *)
Lemma grid_monotone (e : Z) (x y : Q) :
  (x <= y)%Q ->
  (inject_Z (JS.nearestEven (x / JS.pow2 e)) * JS.pow2 e
   <= inject_Z (JS.nearestEven (y / JS.pow2 e)) * JS.pow2 e)%Q.
Proof.
  intros Hle. pose proof (pow2_pos e) as Hpos.
  apply Qmult_le_compat_r; [|now apply Qlt_le_weak].
  rewrite <- Zle_Qle. apply nearestEven_monotone.
  apply Qmult_le_compat_r; [exact Hle|].
  apply Qlt_le_weak. now apply Qinv_lt_0_compat.
Qed.

Lemma grid_fixed (e m : Z) (g : Q) :
  (g == inject_Z m * JS.pow2 e)%Q ->
  (inject_Z (JS.nearestEven (g / JS.pow2 e)) * JS.pow2 e == g)%Q.
Proof.
  intros Hg. pose proof (pow2_pos e) as Hpos.
  assert (Hscaled : (g / JS.pow2 e == inject_Z m)%Q).
  { rewrite Hg. field. intros H0. rewrite H0 in Hpos. now apply Qlt_irrefl in Hpos. }
  rewrite (nearestEven_comp _ _ Hscaled), nearestEven_inject. now symmetry.
Qed.

Lemma pow2_on_grid (e k : Z) :
  e <= k -> (JS.pow2 k == inject_Z (2 ^ (k - e)) * JS.pow2 e)%Q.
Proof.
  intros Hle. rewrite <- pow2_inject by lia. rewrite <- pow2_plus.
  now replace (k - e + e) with k by lia.
Qed.

Lemma frac_lt (n d a b : Q) :
  (0 < d)%Q -> (0 < b)%Q -> (n * b < a * d)%Q -> (n / d < a / b)%Q.
Proof.
  intros Hd Hb H. apply Qlt_shift_div_l; [exact Hb|].
  assert (Heq : (n / d * b == n * b / d)%Q).
  { field. intros H0. rewrite H0 in Hd. now apply Qlt_irrefl in Hd. }
  rewrite Heq. now apply Qlt_shift_div_r.
Qed.

Lemma frac_le (n d a b : Q) :
  (0 < d)%Q -> (0 < b)%Q -> (n * b <= a * d)%Q -> (n / d <= a / b)%Q.
Proof.
  intros Hd Hb H. apply Qle_shift_div_l; [exact Hb|].
  assert (Heq : (n / d * b == n * b / d)%Q).
  { field. intros H0. rewrite H0 in Hd. now apply Qlt_irrefl in Hd. }
  rewrite Heq. now apply Qle_shift_div_r.
Qed.

(** [log2floor] gives the binade of a number. *)
Lemma log2floor_spec (q : Q) :
  ~ (q == 0)%Q ->
  (JS.pow2 (JS.log2floor q) <= Qabs q)%Q /\
  (Qabs q < JS.pow2 (JS.log2floor q + 1))%Q.
Proof.
  intros Hq. destruct q as [num den].
  assert (Hnum : 0 < Z.abs num).
  { assert (num <> 0); [|lia]. intros ->. apply Hq. reflexivity. }
  unfold JS.log2floor. cbn [Qnum Qden].
  set (a := Z.log2 (Z.abs num)). set (b := Z.log2 (Z.pos den)).
  destruct (Z.log2_spec (Z.abs num) Hnum) as [Ha1 Ha2]. fold a in Ha1, Ha2.
  destruct (Z.log2_spec (Z.pos den) (Pos2Z.is_pos den)) as [Hb1 Hb2].
  fold b in Hb1, Hb2.
  assert (Ha0 : 0 <= a) by apply Z.log2_nonneg.
  assert (Hb0 : 0 <= b) by apply Z.log2_nonneg.
  assert (Habs : (Qabs (num # den) == inject_Z (Z.abs num) / inject_Z (Z.pos den))%Q).
  { rewrite <- Zabs_Qabs. apply Qmake_Qdiv. }
  assert (Hden : (0 < inject_Z (Z.pos den))%Q) by (unfold Qlt; cbn; lia).
  assert (Hpow : forall u v, 0 <= u -> 0 <= v ->
            (JS.pow2 (u - v) == inject_Z (2 ^ u) / inject_Z (2 ^ v))%Q).
  { intros u v Hu Hv. unfold JS.pow2. rewrite Qpower_minus by discriminate.
    fold (JS.pow2 u) (JS.pow2 v). now rewrite !pow2_inject. }
  assert (Hpos2 : forall v, 0 <= v -> (0 < inject_Z (2 ^ v))%Q).
  { intros v Hv. rewrite <- pow2_inject by exact Hv. apply pow2_pos. }
  destruct (Qle_bool (JS.pow2 (a - b)) (Qabs (num # den))) eqn:E.
  - split; [now apply Qle_bool_iff|].
    replace (a - b + 1) with (a + 1 - b) by lia.
    rewrite Habs, Hpow by lia.
    apply frac_lt; [exact Hden|now apply Hpos2|].
    rewrite <- !inject_Z_mult, <- Zlt_Qlt.
    replace (2 ^ (a + 1)) with (2 ^ Z.succ a) by (f_equal; lia). nia.
  - assert (Hlt : (Qabs (num # den) < JS.pow2 (a - b))%Q).
    { apply Qnot_le_lt. intros Hle. apply Qle_bool_iff in Hle. congruence. }
    split; [|now replace (a - b - 1 + 1) with (a - b) by lia].
    replace (a - b - 1) with (a - (b + 1)) by lia.
    rewrite Habs, Hpow by lia.
    apply frac_le; [apply Hpos2; lia|exact Hden|].
    rewrite <- !inject_Z_mult, <- Zle_Qle.
    replace (2 ^ (b + 1)) with (2 ^ Z.succ b) by (f_equal; lia). nia.
Qed.

(** Two roundings are in order when a number of both grids lies between
    their arguments. *)
Lemma round64_via_grid (x y g : Q) (mx my : Z) :
  (x <= g)%Q -> (g <= y)%Q ->
  (g == inject_Z mx * JS.pow2 (JS.ulpExponent x))%Q ->
  (g == inject_Z my * JS.pow2 (JS.ulpExponent y))%Q ->
  (JS.round64 x <= JS.round64 y)%Q.
Proof.
  intros Hxg Hgy Hgx Hgy'. unfold JS.round64.
  apply Qle_trans with g.
  - pose proof (grid_monotone (JS.ulpExponent x) x g Hxg) as H.
    now rewrite (grid_fixed _ _ _ Hgx) in H.
  - pose proof (grid_monotone (JS.ulpExponent y) g y Hgy) as H.
    now rewrite (grid_fixed _ _ _ Hgy') in H.
Qed.

Lemma round64_monotone (x y : Q) :
  (x <= y)%Q -> (JS.round64 x <= JS.round64 y)%Q.
Proof.
  intros Hle.
  destruct (Qlt_le_dec 0 x) as [Hx|Hx].
  - (* both positive *)
    assert (Hy : (0 < y)%Q) by lra.
    assert (Hx0 : ~ (x == 0)%Q) by lra. assert (Hy0 : ~ (y == 0)%Q) by lra.
    destruct (log2floor_spec x Hx0) as [Hx1 Hx2].
    destruct (log2floor_spec y Hy0) as [Hy1 Hy2].
    rewrite Qabs_pos in Hx1, Hx2, Hy1, Hy2 by lra.
    assert (Hk : JS.log2floor x < JS.log2floor y + 1).
    { apply pow2_lt_inv. lra. }
    destruct (Z.eq_dec (JS.ulpExponent x) (JS.ulpExponent y)) as [He|He].
    + unfold JS.round64. rewrite He. now apply grid_monotone.
    + unfold JS.ulpExponent in He.
      assert (Hk' : JS.log2floor x + 1 <= JS.log2floor y) by lia.
      assert (Hey : JS.ulpExponent y = JS.log2floor y - 52)
        by (unfold JS.ulpExponent; lia).
      assert (Hex : JS.ulpExponent x <= JS.log2floor y)
        by (unfold JS.ulpExponent; lia).
      apply (round64_via_grid x y (JS.pow2 (JS.log2floor y))
               (2 ^ (JS.log2floor y - JS.ulpExponent x))
               (2 ^ (JS.log2floor y - JS.ulpExponent y))).
      * apply Qlt_le_weak. eapply Qlt_le_trans; [exact Hx2|]. now apply pow2_le.
      * exact Hy1.
      * now apply pow2_on_grid.
      * apply pow2_on_grid. lia.
  - destruct (Qlt_le_dec y 0) as [Hy|Hy].
    + (* both negative *)
      assert (Hx' : (x < 0)%Q) by lra.
      assert (Hx0 : ~ (x == 0)%Q) by lra. assert (Hy0 : ~ (y == 0)%Q) by lra.
      destruct (log2floor_spec x Hx0) as [Hx1 Hx2].
      destruct (log2floor_spec y Hy0) as [Hy1 Hy2].
      rewrite Qabs_neg in Hx1, Hx2, Hy1, Hy2 by lra.
      assert (Hk : JS.log2floor y < JS.log2floor x + 1).
      { apply pow2_lt_inv. lra. }
      destruct (Z.eq_dec (JS.ulpExponent x) (JS.ulpExponent y)) as [He|He].
      * unfold JS.round64. rewrite He. now apply grid_monotone.
      * unfold JS.ulpExponent in He.
        assert (Hk' : JS.log2floor y + 1 <= JS.log2floor x) by lia.
        assert (Hex : JS.ulpExponent x = JS.log2floor x - 52)
          by (unfold JS.ulpExponent; lia).
        assert (Hey : JS.ulpExponent y <= JS.log2floor x)
          by (unfold JS.ulpExponent; lia).
        apply (round64_via_grid x y (- JS.pow2 (JS.log2floor x))
                 (- 2 ^ (JS.log2floor x - JS.ulpExponent x))
                 (- 2 ^ (JS.log2floor x - JS.ulpExponent y))).
        -- lra.
        -- assert (JS.pow2 (JS.log2floor y + 1) <= JS.pow2 (JS.log2floor x))%Q
             by now apply pow2_le.
           lra.
        -- rewrite inject_Z_opp, (pow2_on_grid (JS.ulpExponent x) (JS.log2floor x)) by lia.
           ring.
        -- rewrite inject_Z_opp, (pow2_on_grid (JS.ulpExponent y) (JS.log2floor x)) by lia.
           ring.
    + (* zero lies between *)
      apply (round64_via_grid x y 0 0 0); try assumption; ring.
Qed.

Lemma round64_comp (x y : Q) : (x == y)%Q -> (JS.round64 x == JS.round64 y)%Q.
Proof.
  intros Heq. apply Qle_antisym; apply round64_monotone; rewrite Heq; apply Qle_refl.
Qed.

Lemma round64_zero : (JS.round64 0 == 0)%Q.
Proof. vm_compute. reflexivity. Qed.

Lemma round64_nonneg (q : Q) : (0 <= q)%Q -> (0 <= JS.round64 q)%Q.
Proof.
  intros Hq. rewrite <- round64_zero. now apply round64_monotone.
Qed.

(** The integers up to 100 are binary64 numbers. *)
Lemma round64_small_integer (n : Z) :
  0 <= n <= 100 -> (JS.round64 (inject_Z n) == inject_Z n)%Q.
Proof.
  pose (check := fun k : nat =>
    Qeq_bool (JS.round64 (inject_Z (Z.of_nat k))) (inject_Z (Z.of_nat k))).
  assert (Hall : forallb check (seq 0 101) = true) by (vm_compute; reflexivity).
  intros Hn.
  assert (Hin : In (Z.to_nat n) (seq 0 101)) by (apply in_seq; lia).
  eapply forallb_forall in Hall; [|exact Hin].
  unfold check in Hall. rewrite Z2Nat.id in Hall by lia.
  now apply Qeq_bool_iff in Hall.
Qed.

Lemma sub_monotone (a b c : Q) : (a <= b)%Q -> (JS.sub a c <= JS.sub b c)%Q.
Proof. intros H. apply round64_monotone. lra. Qed.

Lemma sub_nonneg (a b : Q) : (b <= a)%Q -> (0 <= JS.sub a b)%Q.
Proof. intros H. apply round64_nonneg. lra. Qed.

(** A binary64 number that is not negative is [m * 2^e] with
    [m <= 2^53] and [-1074 <= e]. *)
Lemma double_decomposition (q : Q) :
  (0 <= q)%Q -> JS.isDouble q = true ->
  exists m e, 0 <= m <= 2 ^ 53 /\ -1074 <= e /\ (q == inject_Z m * JS.pow2 e)%Q.
Proof.
  intros Hq Hdouble. apply Qeq_bool_iff in Hdouble. unfold JS.round64 in Hdouble.
  set (e := JS.ulpExponent q) in *.
  set (m := JS.nearestEven (q / JS.pow2 e)) in *.
  pose proof (pow2_pos e) as Hpos.
  exists m, e. split; [|split].
  - split.
    + rewrite <- (nearestEven_inject 0). apply nearestEven_monotone.
      apply Qle_shift_div_l; [exact Hpos|]. change (inject_Z 0) with 0%Q. lra.
    + destruct (Qeq_dec q 0) as [Hzero|Hnonzero].
      * subst m. rewrite (nearestEven_comp _ (inject_Z 0)).
        -- rewrite nearestEven_inject. lia.
        -- rewrite Hzero. unfold Qdiv. ring.
      * rewrite <- (nearestEven_inject (2 ^ 53)). apply nearestEven_monotone.
        destruct (log2floor_spec q Hnonzero) as [_ Hhigh].
        rewrite Qabs_pos in Hhigh by exact Hq.
        apply Qle_shift_div_r; [exact Hpos|].
        rewrite <- pow2_inject by lia. rewrite <- pow2_plus.
        apply Qlt_le_weak. eapply Qlt_le_trans; [exact Hhigh|].
        apply pow2_le. subst e. unfold JS.ulpExponent. lia.
  - subst e. unfold JS.ulpExponent. lia.
  - now symmetry.
Qed.

Lemma fraction_bound (m P : Z) :
  0 <= m <= 2 ^ 53 -> 0 < P -> (P <= 2 ^ 53 \/ 2 ^ 54 <= P) ->
  (m mod P) * 2 ^ 53 <= (2 ^ 53 - 1) * P.
Proof.
  intros Hm HP Hsize.
  pose proof (Z.mod_pos_bound m P HP) as Hmod.
  assert (Hle : m mod P <= m) by (apply Z.mod_le; lia).
  change (2 ^ 53) with 9007199254740992 in *.
  change (2 ^ 54) with 18014398509481984 in *.
  destruct Hsize; nia.
Qed.

(** The fractional part of a binary64 number is at most [1 - 2^-53]. *)
Lemma double_fraction (q : Q) :
  (0 <= q)%Q -> JS.isDouble q = true ->
  (q - inject_Z (Qfloor q) <= 1 - (1 # 9007199254740992))%Q.
Proof.
  intros Hq Hdouble.
  destruct (double_decomposition q Hq Hdouble) as (m & e & Hm & He & Heq).
  destruct (Z_le_gt_dec 0 e) as [Hpos|Hneg].
  - assert (Hint : (q == inject_Z (m * 2 ^ e))%Q).
    { rewrite Heq, inject_Z_mult, pow2_inject by exact Hpos. reflexivity. }
    rewrite (Qfloor_comp _ _ Hint), Qfloor_Z, Hint. 
    assert (H0 : (inject_Z (m * 2 ^ e) - inject_Z (m * 2 ^ e) == 0)%Q) by ring.
    rewrite H0. vm_compute. discriminate.
  - set (P := 2 ^ (- e)).
    assert (HP : 0 < P) by (apply Z.pow_pos_nonneg; lia).
    assert (Hpow : (JS.pow2 e == / inject_Z P)%Q).
    { replace e with (- - e) at 1 by lia. unfold JS.pow2.
      rewrite Qpower_opp. fold (JS.pow2 (- e)). now rewrite pow2_inject by lia. }
    assert (HPq : (0 < inject_Z P)%Q).
    { change 0%Q with (inject_Z 0). rewrite <- Zlt_Qlt. exact HP. }
    assert (Hdiv : (q == inject_Z m / inject_Z P)%Q).
    { rewrite Heq, Hpow. reflexivity. }
    rewrite (Qfloor_comp _ _ Hdiv), <- Zdiv_Qdiv, Hdiv.
    assert (Hsize : P <= 2 ^ 53 \/ 2 ^ 54 <= P).
    { destruct (Z_le_gt_dec (- e) 53) as [H|H].
      - left. apply Z.pow_le_mono_r; lia.
      - right. apply Z.pow_le_mono_r; lia. }
    pose proof (fraction_bound m P Hm HP Hsize) as Hbound.
    assert (Hfrac : (inject_Z m / inject_Z P - inject_Z (m / P)
                     == inject_Z (m mod P) / inject_Z P)%Q).
    { rewrite (Z.mod_eq m P) by lia. unfold Z.sub.
      rewrite inject_Z_plus, inject_Z_opp, inject_Z_mult.
      field. intros H0. rewrite H0 in HPq. now apply Qlt_irrefl in HPq. }
    rewrite Hfrac. apply Qle_shift_div_r; [exact HPq|].
    assert (Hgoal : (inject_Z (m mod P) * inject_Z (2 ^ 53)
                     <= inject_Z (2 ^ 53 - 1) * inject_Z P)%Q).
    { rewrite <- !inject_Z_mult, <- Zle_Qle. exact Hbound. }
    change (inject_Z (2 ^ 53)) with 9007199254740992%Q in Hgoal.
    change (inject_Z (2 ^ 53 - 1)) with 9007199254740991%Q in Hgoal.
    revert Hgoal. generalize (inject_Z (m mod P)) (inject_Z P). intros x y Hgoal.
    lra.
Qed.

End RoundingFacts.

(** ** Highlight selection *)

Section HighlightFacts.
Import Highlights.

Lemma trunc_nonneg (q : Q) : (0 <= q)%Q -> JS.trunc q = Qfloor q /\ 0 <= Qfloor q.
Proof.
  intros Hq. unfold JS.trunc.
  rewrite (proj2 (Qle_bool_iff 0 q) Hq). split; [reflexivity|].
  change 0 with (Qfloor 0). now apply Qfloor_resp_le.
Qed.

Lemma slice0_nonneg {A} (q : Q) (xs : list A) :
  (0 <= q)%Q -> JS.slice0 q xs = firstn (Z.to_nat (Qfloor q)) xs.
Proof.
  intros Hq. unfold JS.slice0.
  destruct (trunc_nonneg q Hq) as [-> Hfloor].
  destruct (Z.ltb_spec (Qfloor q) 0) as [?|_]; [lia|].
  destruct (Z.le_ge_cases (Qfloor q) (Z.of_nat (List.length xs))) as [Hle|Hge].
  - now rewrite Z.min_l.
  - rewrite Z.min_r by assumption. rewrite Nat2Z.id.
    rewrite firstn_all. symmetry. apply firstn_all2. lia.
Qed.

Lemma isValid_spec (lo hi : Q) (h : Highlight) :
  isValid lo hi h = true <->
  (lo <= JS.sub (endTime h) (startTime h))%Q /\
  (JS.sub (endTime h) (startTime h) <= hi)%Q.
Proof.
  unfold isValid, JS.ge, JS.le.
  rewrite andb_true_iff, !Qle_bool_iff. reflexivity.
Qed.

Lemma detectHighlights_run (oracle : nat -> Request -> completion HighlightsResult)
    segments options calls :
  detectHighlights true oracle segments options calls =
  (match oracle calls (buildRequest segments options) with
   | Return object =>
       Return {| highlights :=
                   validate (default 5%Q (maxHighlights options))
                            (default 15%Q (minDuration options))
                            (default 60%Q (maxDuration options))
                            (highlights object);
                 summary := summary object;
                 mainTopics := mainTopics object |}
   | Throw t =>
       Throw (ErrorObject ("Failed to detect highlights: " ++ messageOf t))
   end, S calls).
Proof.
  unfold detectHighlights, bind, tryCatch, generateObject, checkAIConfiguration,
    ret, throw. cbn.
  destruct (oracle calls (buildRequest segments options)); reflexivity.
Qed.

End HighlightFacts.

Section HighlightClaims.
Import Highlights.

Lemma filter_sublist {A} (f : A -> bool) (xs : list A) :
  List.filter f xs `sublist_of` xs.
Proof.
  induction xs as [|x xs IH]; simpl.
  - constructor.
  - destruct (f x); now constructor.
Qed.

(** C2, as amended: when the limit [maxHighlights] (5 when absent) is not
    negative, the list returned by [detectHighlights] is exactly the first
    [maxHighlights] elements (a fractional limit is truncated) of the
    candidates, in the order of the model, whose duration lies in
    [[minDuration, maxDuration]] (15 and 60 when absent); nothing is
    re-sorted.  The duration is the one the program computes:
    [endTime - startTime] in binary64 arithmetic, that is, the difference
    rounded to the nearest binary64 number.  With the default bounds a
    candidate whose computed span is 1.5s or 61s is rejected and one whose
    computed span is 25s is kept. *)
Theorem detectHighlights_filters_then_truncates :
  forall (oracle : nat -> Request -> completion HighlightsResult)
         segments options calls object,
    oracle calls (buildRequest segments options) = Return object ->
    (0 <= default 5 (maxHighlights options))%Q ->
    let survivors :=
      List.filter (isValid (default 15%Q (minDuration options))
                           (default 60%Q (maxDuration options)))
                  (highlights object) in
    (exists result,
        fst (detectHighlights true oracle segments options calls) = Return result /\
        highlights result =
          firstn (Z.to_nat (Qfloor (default 5%Q (maxHighlights options)))) survivors /\
        highlights result `sublist_of` highlights object) /\
    (forall h, In h survivors <->
               In h (highlights object) /\
               (default 15 (minDuration options)
                  <= JS.sub (endTime h) (startTime h))%Q /\
               (JS.sub (endTime h) (startTime h)
                  <= default 60 (maxDuration options))%Q) /\
    (forall h, (JS.sub (endTime h) (startTime h) == 3 # 2)%Q ->
               isValid 15 60 h = false) /\
    (forall h, (JS.sub (endTime h) (startTime h) == 25)%Q ->
               isValid 15 60 h = true) /\
    (forall h, (JS.sub (endTime h) (startTime h) == 61)%Q ->
               isValid 15 60 h = false).
Proof.
  intros oracle segments options calls object Horacle Hlimit survivors.
  split; [|split; [|split; [|split]]].
  - rewrite detectHighlights_run, Horacle. cbn [fst].
    eexists; split; [reflexivity|]. cbn [highlights]. unfold validate.
    rewrite slice0_nonneg by assumption. split; [reflexivity|].
    etransitivity; [apply sublist_take | apply filter_sublist].
  - intros h. unfold survivors. rewrite filter_In, isValid_spec. reflexivity.
  - intros h Hspan. unfold isValid, JS.ge, JS.le.
    apply andb_false_iff. left. apply not_true_iff_false.
    rewrite Qle_bool_iff, Hspan. intros Hle. now apply Hle.
  - intros h Hspan. apply isValid_spec. rewrite Hspan.
    split; vm_compute; discriminate.
  - intros h Hspan. unfold isValid, JS.ge, JS.le.
    apply andb_false_iff. right. apply not_true_iff_false.
    rewrite Qle_bool_iff, Hspan. intros Hle. now apply Hle.
Qed.

Lemma detectHighlights_filters_then_truncates_witness :
  exists result,
    fst (detectHighlights true
           (fun _ _ => Return (demoObject [demoHighlight 10 (23 # 2);
                                           demoHighlight 45 70;
                                           demoHighlight 0 61;
                                           demoHighlight (double (551 # 10))
                                                         (double (701 # 10));
                                           demoHighlight (double (1 # 10))
                                                         (double (601 # 10));
                                           demoHighlight 120 155]))
           [] noOptions 0%nat) = Return result /\
    highlights result =
      [demoHighlight 45 70;
       demoHighlight (double (1 # 10)) (double (601 # 10));
       demoHighlight 120 155].
Proof.
  destruct (detectHighlights_filters_then_truncates
              (fun _ _ => Return (demoObject [demoHighlight 10 (23 # 2);
                                              demoHighlight 45 70;
                                              demoHighlight 0 61;
                                              demoHighlight (double (551 # 10))
                                                            (double (701 # 10));
                                              demoHighlight (double (1 # 10))
                                                            (double (601 # 10));
                                              demoHighlight 120 155]))
              [] noOptions 0%nat _ eq_refl) as [(result & Hrun & Hlist & _) _].
  - discriminate.
  - exists result. split; [exact Hrun|]. rewrite Hlist. vm_compute. reflexivity.
Defined.

(** C2, the claim as stated fails for a negative limit: [slice(0, -1)]
    drops the last of the surviving candidates, so with
    [maxHighlights = -1] and two candidates of 25s and 35s the first one is
    returned, which is not "the first -1 elements". *)
Lemma detectHighlights_negative_limit :
  exists result,
    fst (detectHighlights true
           (fun _ _ => Return (demoObject [demoHighlight 45 70;
                                           demoHighlight 120 155]))
           [] (limitedTo (-1)) 0%nat) = Return result /\
    highlights result = [demoHighlight 45 70] /\
    highlights result <>
      firstn (Z.to_nat (JS.trunc (-1)))
             (List.filter (isValid 15 60)
                          [demoHighlight 45 70; demoHighlight 120 155]).
Proof.
  eexists. split; [reflexivity|]. split; [reflexivity|]. discriminate.
Qed.

End HighlightClaims.

Section HighlightFailure.
Import Highlights.

(** C8: [detectHighlights] fails with [HighlightDetectionFailed cause]
    exactly when the request to the language model is rejected (the call
    fails or the answer does not match the schema), [cause] being the
    message of the rejection; the model is asked exactly once, so nothing
    is retried; and when the request succeeds but no candidate survives the
    duration filter, the call returns a result with an empty highlight
    list. *)
Theorem detectHighlights_failure_contract :
  forall (isAvailable : bool)
         (oracle : nat -> Request -> completion HighlightsResult)
         segments options calls,
    let request := buildRequest segments options in
    let outcome := detectHighlights isAvailable oracle segments options calls in
    (forall cause,
        fst outcome = Throw (HighlightDetectionFailed cause) <->
        isAvailable = true /\
        exists t, oracle calls request = Throw t /\ messageOf t = cause) /\
    (isAvailable = true -> snd outcome = S calls) /\
    (isAvailable = false -> snd outcome = calls) /\
    (forall object,
        isAvailable = true ->
        oracle calls request = Return object ->
        List.filter (isValid (req_minDuration request) (req_maxDuration request))
                    (highlights object) = [] ->
        exists result,
          fst outcome = Return result /\ highlights result = []).
Proof.
  intros isAvailable oracle segments options calls request outcome.
  destruct isAvailable.
  - subst outcome. rewrite detectHighlights_run. fold request. cbn [fst snd].
    split; [|split; [|split]].
    + intros cause. split.
      * destruct (oracle calls request) as [object|t]; [discriminate|].
        unfold HighlightDetectionFailed. intros Heq.
        simpl in Heq. injection Heq as Heq.
        split; [reflexivity|]. now exists t.
      * intros (_ & t & -> & <-). reflexivity.
    + reflexivity.
    + discriminate.
    + intros object _ Horacle Hnone. rewrite Horacle.
      eexists; split; [reflexivity|]. cbn [highlights]. unfold validate.
      unfold request in Hnone. cbn [buildRequest req_minDuration req_maxDuration] in Hnone.
      rewrite Hnone. unfold JS.slice0. now rewrite firstn_nil.
  - subst outcome. cbn. split; [|split; [|split]].
    + intros cause. split; [discriminate|]. intros [Hfalse _]. discriminate.
    + discriminate.
    + reflexivity.
    + discriminate.
Qed.

Lemma detectHighlights_failure_contract_witness :
  fst (detectHighlights true (fun _ _ => Throw (ErrorObject "rate limited"))
         [] noOptions 0%nat) = Throw (HighlightDetectionFailed "rate limited") /\
  snd (detectHighlights true (fun _ _ => Throw (ErrorObject "rate limited"))
         [] noOptions 0%nat) = 1%nat /\
  exists result,
    fst (detectHighlights true
           (fun _ _ => Return (demoObject [demoHighlight 10 (23 # 2)]))
           [] noOptions 0%nat) = Return result /\
    highlights result = [].
Proof.
  pose proof (detectHighlights_failure_contract true
                (fun _ _ => Throw (ErrorObject "rate limited"))
                [] noOptions 0%nat) as (Hfail & Hcalls & _ & _).
  pose proof (detectHighlights_failure_contract true
                (fun _ _ => Return (demoObject [demoHighlight 10 (23 # 2)]))
                [] noOptions 0%nat) as (_ & _ & _ & Hempty).
  split; [|split].
  - apply Hfail. split; [reflexivity|]. eexists. split; reflexivity.
  - apply Hcalls. reflexivity.
  - apply (Hempty _ eq_refl eq_refl). reflexivity.
Defined.

End HighlightFailure.

(** ** Caption grouping *)

Section CaptionFacts.
Import Captions.
Variable toLowerCase : string -> string.
Variable trim : string -> string.

Lemma generateCaptions_run (oracle : nat -> Request -> completion CaptionsResult)
    ws options calls :
  generateCaptions toLowerCase trim true oracle ws options calls =
  (match oracle calls (buildRequest ws options) with
   | Return object =>
       if (0 <? List.length (hallucinatedWords toLowerCase trim ws object))%nat
       then Throw (ErrorObject
              ("Failed to generate captions: "
                 ++ "AI hallucinated words not in transcription: "
                 ++ JS.join ", " (hallucinatedWords toLowerCase trim ws object)))
       else Return object
   | Throw t =>
       Throw (ErrorObject ("Failed to generate captions: " ++ messageOf t))
   end, S calls).
Proof.
  unfold generateCaptions, bind, tryCatch, generateObject, checkAIConfiguration,
    ret, throw. cbn.
  destruct (oracle calls (buildRequest ws options)) as [object|t]; [|reflexivity].
  destruct (List.length (hallucinatedWords toLowerCase trim ws object));
    reflexivity.
Qed.

Lemma generateCaptions_unconfigured (oracle : nat -> Request -> completion CaptionsResult)
    ws options calls :
  generateCaptions toLowerCase trim false oracle ws options calls =
  (Throw (ErrorObject
     "OpenAI API key not configured. Please set OPENAI_API_KEY in your .env file."),
   calls).
Proof. reflexivity. Qed.

Lemma filter_nil_inv {A} (f : A -> bool) (xs : list A) :
  List.filter f xs = [] -> forall x, In x xs -> f x = false.
Proof.
  induction xs as [|y ys IH]; simpl; [tauto|].
  destruct (f y) eqn:Hy; [discriminate|].
  intros Hnil x [<-|Hin]; auto.
Qed.

Lemma originalWords_spec ws (w : string) :
  w ∈ originalWords toLowerCase trim ws <->
  exists input, In input ws /\ w = normalize toLowerCase trim (ts_word input).
Proof.
  unfold originalWords. rewrite elem_of_list_to_set, list_elem_of_In, in_map_iff.
  split; intros (input & H1 & H2); exists input; split; auto.
Qed.

Lemma captionWords_spec object (w : string) :
  In w (captionWords toLowerCase trim object) <->
  exists seg cw, In seg (captions object) /\ In cw (words seg) /\
                 w = normalize toLowerCase trim (word cw).
Proof.
  unfold captionWords. rewrite in_flat_map. split.
  - intros (seg & Hseg & Hin). apply in_map_iff in Hin as (cw & <- & Hcw).
    now exists seg, cw.
  - intros (seg & cw & Hseg & Hcw & ->). exists seg. split; [assumption|].
    apply in_map_iff. now exists cw.
Qed.

Lemma hallucinatedWords_spec ws object (w : string) :
  In w (hallucinatedWords toLowerCase trim ws object) <->
  In w (captionWords toLowerCase trim object) /\
  w ∉ originalWords toLowerCase trim ws.
Proof.
  unfold hallucinatedWords. rewrite filter_In, negb_true_iff, bool_decide_eq_false.
  reflexivity.
Qed.

End CaptionFacts.

Section CaptionClaims.
Import Captions.

(** C1: when the model answers, [generateCaptions] fails with
    [CaptionHallucinationError] naming the offending words exactly when
    some word of the returned segments has a lowercase-trimmed text that is
    not among the lowercase-trimmed input words, and otherwise returns the
    answer; so for every result that [generateCaptions] returns, each
    normalized word of the result is a normalized input word. *)
Theorem generateCaptions_rejects_hallucinations :
  forall (toLowerCase trim : string -> string) (isAvailable : bool)
         (oracle : nat -> Request -> completion CaptionsResult)
         ws options calls,
    let outcome :=
      fst (generateCaptions toLowerCase trim isAvailable oracle ws options calls) in
    (forall object,
        isAvailable = true ->
        oracle calls (buildRequest ws options) = Return object ->
        let offending := hallucinatedWords toLowerCase trim ws object in
        (forall w, In w offending <->
                   In w (captionWords toLowerCase trim object) /\
                   w ∉ originalWords toLowerCase trim ws) /\
        (offending <> [] -> outcome = Throw (CaptionHallucinationError offending)) /\
        (offending = [] -> outcome = Return object)) /\
    (forall result,
        outcome = Return result ->
        (list_to_set (captionWords toLowerCase trim result) : gset string)
          ⊆ originalWords toLowerCase trim ws).
Proof.
  intros toLowerCase trim isAvailable oracle ws options calls outcome.
  split.
  - intros object -> Horacle offending. subst outcome.
    rewrite generateCaptions_run, Horacle. cbn [fst]. fold offending.
    split; [|split].
    + intros w. apply hallucinatedWords_spec.
    + intros Hsome. destruct offending; [congruence|reflexivity].
    + intros ->. reflexivity.
  - intros result Hreturn. subst outcome.
    destruct isAvailable; [|discriminate].
    rewrite generateCaptions_run in Hreturn. cbn [fst] in Hreturn.
    destruct (oracle calls (buildRequest ws options)) as [object|t]; [|discriminate].
    destruct (hallucinatedWords toLowerCase trim ws object) as [|bad rest] eqn:Hnone;
      [|discriminate].
    injection Hreturn as <-.
    intros w Hw. apply elem_of_list_to_set, list_elem_of_In in Hw.
    pose proof (filter_nil_inv _ _ Hnone w Hw) as Hin.
    apply negb_false_iff, bool_decide_eq_true in Hin. exact Hin.
Qed.

Lemma generateCaptions_rejects_hallucinations_witness :
  fst (generateCaptions JS.toLowerCase JS.trim true
         (fun _ _ => Return (demoCaptions
            [demoSegment [demoCaptionWord "Bienvenidos" 0 1;
                          demoCaptionWord " HOLA " 1 2]]))
         demoTranscript noOptions 0%nat)
  = Throw (CaptionHallucinationError ["bienvenidos"]).
Proof.
  pose proof (generateCaptions_rejects_hallucinations JS.toLowerCase JS.trim true
                (fun _ _ => Return (demoCaptions
                   [demoSegment [demoCaptionWord "Bienvenidos" 0 1;
                                 demoCaptionWord " HOLA " 1 2]]))
                demoTranscript noOptions 0%nat) as [Hobject _].
  specialize (Hobject _ eq_refl eq_refl) as (_ & Hreject & _).
  apply Hreject. vm_compute. discriminate.
Defined.

(** C6, as amended: [generateCaptions] does not check the size of the
    segments.  A result it returns is the answer of the model, unchanged;
    the bound, [maxWordsPerSegment] with 3 as its default, is only part of
    the request, so every returned segment has between 2 and
    [maxWordsPerSegment] words whenever every segment of the model's answer
    has. *)
Theorem generateCaptions_returns_model_segments :
  forall (toLowerCase trim : string -> string) (isAvailable : bool)
         (oracle : nat -> Request -> completion CaptionsResult)
         ws options calls result,
    fst (generateCaptions toLowerCase trim isAvailable oracle ws options calls)
      = Return result ->
    let request := buildRequest ws options in
    let sized (segment : CaptionSegment) :=
      (2 <= List.length (words segment))%nat /\
      (inject_Z (Z.of_nat (List.length (words segment)))
         <= req_maxWordsPerSegment request)%Q in
    oracle calls request = Return result /\
    req_maxWordsPerSegment request = default 3%Q (maxWordsPerSegment options) /\
    (forall object,
        oracle calls request = Return object ->
        Forall sized (captions object) -> Forall sized (captions result)).
Proof.
  intros toLowerCase trim isAvailable oracle ws options calls result Hreturn
         request sized.
  destruct isAvailable; [|discriminate].
  rewrite generateCaptions_run in Hreturn. cbn [fst] in Hreturn. fold request in Hreturn.
  destruct (oracle calls request) as [object|t] eqn:Horacle; [|discriminate].
  destruct (0 <? _)%nat; [discriminate|]. injection Hreturn as <-.
  split; [reflexivity|]. split; [reflexivity|].
  intros object' Hobject. now injection Hobject as <-.
Qed.

Lemma generateCaptions_returns_model_segments_witness :
  (fun _ _ => Return (demoCaptions
      [demoSegment [demoCaptionWord "Hola" (1 # 2) (3 # 4);
                    demoCaptionWord "esto" (3 # 4) (5 # 4)]]))
    0%nat (buildRequest demoTranscript noOptions)
  = Return (demoCaptions
      [demoSegment [demoCaptionWord "Hola" (1 # 2) (3 # 4);
                    demoCaptionWord "esto" (3 # 4) (5 # 4)]]).
Proof.
  apply (generateCaptions_returns_model_segments JS.toLowerCase JS.trim true
           (fun _ _ => Return (demoCaptions
              [demoSegment [demoCaptionWord "Hola" (1 # 2) (3 # 4);
                            demoCaptionWord "esto" (3 # 4) (5 # 4)]]))
           demoTranscript noOptions 0%nat).
  reflexivity.
Defined.

(** C6, the claim as stated fails: the model answers with a single segment
    of one word taken from the transcription, and [generateCaptions]
    returns it. *)
Lemma generateCaptions_accepts_one_word_segment :
  exists result segment,
    fst (generateCaptions JS.toLowerCase JS.trim true
           (fun _ _ => Return (demoCaptions
              [demoSegment [demoCaptionWord "Hola" (1 # 2) (3 # 4)]]))
           demoTranscript noOptions 0%nat) = Return result /\
    In segment (captions result) /\
    List.length (words segment) = 1%nat /\
    ~ (2 <= List.length (words segment))%nat.
Proof.
  eexists. eexists. split; [vm_compute; reflexivity|].
  split; [left; reflexivity|]. split; [reflexivity|]. simpl. lia.
Qed.

End CaptionClaims.

(** ** Colour tokens *)

Section ColourFacts.
Import Captions.

Lemma allAscii_complete (c : ascii) : In c allAscii.
Proof.
  unfold allAscii. rewrite <- (ascii_nat_embedding c).
  apply in_map, in_seq. pose proof (nat_ascii_bounded c). lia.
Qed.

Lemma forall_ascii (P : ascii -> bool) :
  forallb P allAscii = true -> forall c, P c = true.
Proof.
  intros Hall c. eapply forallb_forall in Hall; [exact Hall|apply allAscii_complete].
Qed.

Lemma channel_roundtrip (c1 c2 : ascii) :
  isHexDigit c1 = true -> isHexDigit c2 = true ->
  parseInt16 (twoChars c1 c2) = Some (hexPairValue c1 c2) /\
  hexByte (Some (hexPairValue c1 c2)) = twoChars (JS.upperChar c1) (JS.upperChar c2) /\
  parseInt16 (twoChars (JS.upperChar c1) (JS.upperChar c2)) = Some (hexPairValue c1 c2).
Proof.
  pose (check := fun c1 c2 : ascii =>
    implb (isHexDigit c1 && isHexDigit c2)
      (match parseInt16 (twoChars c1 c2),
             parseInt16 (twoChars (JS.upperChar c1) (JS.upperChar c2)) with
       | Some v, Some v' =>
           (v =? hexPairValue c1 c2)%Z && (v' =? hexPairValue c1 c2)%Z
           && String.eqb (hexByte (Some (hexPairValue c1 c2)))
                         (twoChars (JS.upperChar c1) (JS.upperChar c2))
       | _, _ => false
       end)).
  assert (Hall : forallb (fun a => forallb (check a) allAscii) allAscii = true)
    by (vm_compute; reflexivity).
  intros H1 H2.
  pose proof (forall_ascii _ (forall_ascii _ Hall c1) c2) as Hcheck.
  unfold check in Hcheck. rewrite H1, H2 in Hcheck. cbn [andb implb] in Hcheck.
  destruct (parseInt16 (twoChars c1 c2)) as [v|]; [|discriminate].
  destruct (parseInt16 (twoChars (JS.upperChar c1) (JS.upperChar c2))) as [v'|];
    [|discriminate].
  apply andb_true_iff in Hcheck as [Hcheck Hprint].
  apply andb_true_iff in Hcheck as [Hv Hv'].
  apply Z.eqb_eq in Hv, Hv'. apply String.eqb_eq in Hprint.
  subst. auto.
Qed.

Lemma hexDigit_not_hash (c : ascii) :
  isHexDigit c = true -> Ascii.eqb c "#" = false.
Proof.
  pose (check := fun c : ascii => implb (isHexDigit c) (negb (Ascii.eqb c "#"))).
  assert (Hall : forallb check allAscii = true) by (vm_compute; reflexivity).
  intros Hc. pose proof (forall_ascii _ Hall c) as Hcheck.
  unfold check in Hcheck. rewrite Hc in Hcheck. now apply negb_true_iff in Hcheck.
Qed.

Lemma alphaByte_roundtrip (a : Z) :
  0 <= a <= 255 ->
  exists c1 c2, hexByte (Some a) = twoChars c1 c2 /\
                parseInt16 (twoChars c1 c2) = Some a.
Proof.
  pose (check := fun n : nat =>
    match hexByte (Some (Z.of_nat n)) with
    | String c1 (String c2 EmptyString) =>
        match parseInt16 (twoChars c1 c2) with
        | Some v => (v =? Z.of_nat n)%Z
        | None => false
        end
    | _ => false
    end).
  assert (Hall : forallb check (seq 0 256) = true) by (vm_compute; reflexivity).
  intros Ha.
  assert (Hin : In (Z.to_nat a) (seq 0 256)) by (apply in_seq; lia).
  eapply forallb_forall in Hall; [|exact Hin].
  unfold check in Hall. rewrite Z2Nat.id in Hall by lia.
  destruct (hexByte (Some a)) as [|c1 [|c2 [|]]]; try discriminate.
  exists c1, c2. split; [reflexivity|].
  destruct (parseInt16 (twoChars c1 c2)); [|discriminate].
  apply Z.eqb_eq in Hall. now subst.
Qed.

Lemma alphaByte_range (alpha : Q) :
  (0 <= alpha)%Q -> (alpha <= 1)%Q ->
  0 <= JS.Math_round ((1 - alpha) * 255)%Q <= 255.
Proof.
  intros Hlo Hhi. unfold JS.Math_round. split.
  - change 0 with (Qfloor 0). apply Qfloor_resp_le. lra.
  - assert (Hlt : (inject_Z (Qfloor ((1 - alpha) * 255 + (1 # 2))) < inject_Z 256)%Q).
    { eapply Qle_lt_trans; [apply Qfloor_le|]. unfold inject_Z at 1. lra. }
    rewrite <- Zlt_Qlt in Hlt. lia.
Qed.

End ColourFacts.

Section ColourClaims.
Import Captions.

Lemma hexToASSColor_six_digits (c1 c2 c3 c4 c5 c6 : ascii) (alpha : Q) :
  isHexDigit c1 = true -> isHexDigit c2 = true -> isHexDigit c3 = true ->
  isHexDigit c4 = true -> isHexDigit c5 = true -> isHexDigit c6 = true ->
  hexToASSColor (hashed c1 c2 c3 c4 c5 c6) alpha =
    "&H" ++ hexByte (Some (JS.Math_round ((1 - alpha) * 255)%Q))
         ++ twoChars (JS.upperChar c5) (JS.upperChar c6)
         ++ twoChars (JS.upperChar c3) (JS.upperChar c4)
         ++ twoChars (JS.upperChar c1) (JS.upperChar c2) /\
  hexToASSColor (unhashed c1 c2 c3 c4 c5 c6) alpha =
    hexToASSColor (hashed c1 c2 c3 c4 c5 c6) alpha.
Proof.
  intros H1 H2 H3 H4 H5 H6.
  assert (Hclean : JS.removeFirst "#" (unhashed c1 c2 c3 c4 c5 c6)
                   = unhashed c1 c2 c3 c4 c5 c6).
  { unfold unhashed. cbn [JS.removeFirst].
    now rewrite !hexDigit_not_hash by assumption. }
  assert (Hhashed : JS.removeFirst "#" (hashed c1 c2 c3 c4 c5 c6)
                    = unhashed c1 c2 c3 c4 c5 c6) by reflexivity.
  unfold hexToASSColor. rewrite Hclean, Hhashed. split; [|reflexivity].
  change (JS.substring 0 2 (unhashed c1 c2 c3 c4 c5 c6)) with (twoChars c1 c2).
  change (JS.substring 2 4 (unhashed c1 c2 c3 c4 c5 c6)) with (twoChars c3 c4).
  change (JS.substring 4 6 (unhashed c1 c2 c3 c4 c5 c6)) with (twoChars c5 c6).
  destruct (channel_roundtrip c1 c2 H1 H2) as (-> & -> & _).
  destruct (channel_roundtrip c3 c4 H3 H4) as (-> & -> & _).
  destruct (channel_roundtrip c5 c6 H5 H6) as (-> & -> & _).
  reflexivity.
Qed.

(** C5: for a colour of six hexadecimal digits, with or without [#], and an
    opacity between 0 and 1, [hexToASSColor] yields [&HAABBGGRR]: the
    alpha byte is [round((1 - opacity) * 255)], so 0 when fully opaque, and
    the three channels are the digits of the input, in upper case, in the
    order blue, green, red; reading the token back in that byte order gives
    the red, green and blue values of the input.  In particular [#FFD700]
    at full opacity is the token [&H0000D7FF], which decodes to
    (255, 215, 0). *)
Theorem hexToASSColor_byte_order :
  forall (c1 c2 c3 c4 c5 c6 : ascii) (alpha : Q),
    isHexDigit c1 = true -> isHexDigit c2 = true -> isHexDigit c3 = true ->
    isHexDigit c4 = true -> isHexDigit c5 = true -> isHexDigit c6 = true ->
    (0 <= alpha)%Q -> (alpha <= 1)%Q ->
    let a := JS.Math_round ((1 - alpha) * 255)%Q in
    let token := hexToASSColor (hashed c1 c2 c3 c4 c5 c6) alpha in
    0 <= a <= 255 /\
    ((alpha == 1)%Q -> a = 0) /\
    (exists a1 a2,
        parseInt16 (twoChars a1 a2) = Some a /\
        token = String "&" (String "H" (twoChars a1 a2))
                  ++ twoChars (JS.upperChar c5) (JS.upperChar c6)
                  ++ twoChars (JS.upperChar c3) (JS.upperChar c4)
                  ++ twoChars (JS.upperChar c1) (JS.upperChar c2)) /\
    hexToASSColor (unhashed c1 c2 c3 c4 c5 c6) alpha = token /\
    decodeASSColor token =
      Some (hexPairValue c1 c2, hexPairValue c3 c4, hexPairValue c5 c6) /\
    hexToASSColor "#FFD700" 1 = "&H0000D7FF" /\
    decodeASSColor "&H0000D7FF" = Some (255, 215, 0).
Proof.
  intros c1 c2 c3 c4 c5 c6 alpha H1 H2 H3 H4 H5 H6 Hlo Hhi a token.
  pose proof (alphaByte_range alpha Hlo Hhi) as Hrange. fold a in Hrange.
  destruct (hexToASSColor_six_digits c1 c2 c3 c4 c5 c6 alpha H1 H2 H3 H4 H5 H6)
    as [Htoken Hplain].
  fold a in Htoken. fold token in Htoken, Hplain.
  destruct (alphaByte_roundtrip a Hrange) as (a1 & a2 & Hbyte & Hparse).
  rewrite Hbyte in Htoken.
  split; [exact Hrange|]. split.
  { intros Hone. unfold a, JS.Math_round.
    assert (Heq : ((1 - alpha) * 255 + (1 # 2) == 1 # 2)%Q) by (rewrite Hone; reflexivity).
    now rewrite Heq. }
  split; [exists a1, a2; split; [exact Hparse|exact Htoken]|].
  split; [exact Hplain|]. split; [|split; reflexivity].
  rewrite Htoken. unfold decodeASSColor.
  change (JS.substring 8 10 _) with (twoChars (JS.upperChar c1) (JS.upperChar c2)).
  change (JS.substring 6 8 _) with (twoChars (JS.upperChar c3) (JS.upperChar c4)).
  change (JS.substring 4 6 _) with (twoChars (JS.upperChar c5) (JS.upperChar c6)).
  destruct (channel_roundtrip c1 c2 H1 H2) as (_ & _ & ->).
  destruct (channel_roundtrip c3 c4 H3 H4) as (_ & _ & ->).
  destruct (channel_roundtrip c5 c6 H5 H6) as (_ & _ & ->).
  reflexivity.
Qed.

Lemma hexToASSColor_byte_order_witness :
  hexToASSColor "ff6b35" (8 # 10) = hexToASSColor "#ff6b35" (8 # 10) /\
  decodeASSColor (hexToASSColor "#ff6b35" (8 # 10)) = Some (255, 107, 53).
Proof.
  pose proof (hexToASSColor_byte_order "f" "f" "6" "b" "3" "5" (8 # 10)
                eq_refl eq_refl eq_refl eq_refl eq_refl eq_refl) as H.
  destruct H as (_ & _ & _ & Hplain & Hdecode & _).
  - vm_compute. discriminate.
  - vm_compute. discriminate.
  - split; [exact Hplain|exact Hdecode].
Defined.

End ColourClaims.

(** ** Time stamps *)

Section TimeFacts.
Import Captions.

Lemma Qfloor_unique (x : Q) (z : Z) :
  (inject_Z z <= x)%Q -> (x < inject_Z (z + 1))%Q -> Qfloor x = z.
Proof.
  intros Hle Hlt. apply Z.le_antisymm.
  - assert (H : (inject_Z (Qfloor x) < inject_Z (z + 1))%Q)
      by (eapply Qle_lt_trans; [apply Qfloor_le|exact Hlt]).
    rewrite <- Zlt_Qlt in H. lia.
  - rewrite <- (Qfloor_Z z). now apply Qfloor_resp_le.
Qed.

Lemma Qfloor_bounds (x : Q) :
  (inject_Z (Qfloor x) <= x)%Q /\ (x < inject_Z (Qfloor x) + 1)%Q.
Proof.
  split; [apply Qfloor_le|].
  pose proof (Qlt_floor x) as H. rewrite inject_Z_plus in H. exact H.
Qed.

Lemma inject_Z_pos (n : Z) : 0 < n -> (0 < inject_Z n)%Q.
Proof. intros Hn. unfold Qlt. simpl. lia. Qed.

Lemma floor_div_const (s : Q) (n : Z) :
  0 < n -> Qfloor (s / inject_Z n) = Qfloor s / n.
Proof.
  intros Hn. apply Qfloor_unique.
  - destruct (Qfloor_bounds s) as [Hlo _].
    pose proof (Z.mul_div_le (Qfloor s) n Hn) as Hdiv.
    rewrite Zle_Qle, inject_Z_mult in Hdiv.
    assert (Hn' : (0 < inject_Z n)%Q) by now apply inject_Z_pos.
    apply Qle_shift_div_l; [exact Hn'|].
    rewrite Qmult_comm. eapply Qle_trans; [exact Hdiv|exact Hlo].
  - destruct (Qfloor_bounds s) as [_ Hhi].
    assert (Hn' : (0 < inject_Z n)%Q) by now apply inject_Z_pos.
    apply Qlt_shift_div_r; [exact Hn'|].
    assert (Hz : Qfloor s + 1 <= (Qfloor s / n + 1) * n).
    { pose proof (Z.mod_pos_bound (Qfloor s) n Hn).
      pose proof (Z.div_mod (Qfloor s) n). nia. }
    rewrite Zle_Qle, inject_Z_plus, inject_Z_mult in Hz.
    eapply Qlt_le_trans; [exact Hhi|exact Hz].
Qed.

Lemma floor_sub_int (s : Q) (m : Z) :
  Qfloor (s - inject_Z m) = Qfloor s - m.
Proof.
  destruct (Qfloor_bounds s) as [Hlo Hhi].
  apply Qfloor_unique.
  - unfold Z.sub. rewrite inject_Z_plus, inject_Z_opp. lra.
  - replace (Qfloor s - m + 1) with (Qfloor s + 1 - m) by lia.
    unfold Z.sub. rewrite !inject_Z_plus, inject_Z_opp. change (inject_Z 1) with 1%Q. lra.
Qed.

Lemma rem_nonneg (s : Q) (n : Z) :
  (0 <= s)%Q -> 0 < n ->
  (JS.rem s (inject_Z n) == s - inject_Z (n * (Qfloor s / n)))%Q.
Proof.
  intros Hs Hn. unfold JS.rem.
  assert (Hn' : (0 < inject_Z n)%Q) by now apply inject_Z_pos.
  assert (Hq : (0 <= s / inject_Z n)%Q).
  { apply Qle_shift_div_l; [exact Hn'|]. lra. }
  destruct (trunc_nonneg _ Hq) as [-> _].
  rewrite floor_div_const by assumption.
  rewrite inject_Z_mult. reflexivity.
Qed.

End TimeFacts.

Section TimeShape.
Import Captions.

Lemma pad2_twoDigits (n : Z) : 0 <= n < 100 -> pad2 n = twoDigits n.
Proof.
  pose (check := fun k : nat =>
    String.eqb (pad2 (Z.of_nat k)) (twoDigits (Z.of_nat k))).
  assert (Hall : forallb check (seq 0 100) = true) by (vm_compute; reflexivity).
  intros Hn.
  assert (Hin : In (Z.to_nat n) (seq 0 100)) by (apply in_seq; lia).
  eapply forallb_forall in Hall; [|exact Hin].
  unfold check in Hall. rewrite Z2Nat.id in Hall by lia.
  now apply String.eqb_eq in Hall.
Qed.

Lemma formatASSTime_fields (seconds : Q) :
  (0 <= seconds)%Q ->
  JS.Math_floor (seconds / 3600) = wholeSeconds seconds / 3600 /\
  JS.Math_floor (JS.rem seconds 3600 / 60) = wholeSeconds seconds mod 3600 / 60 /\
  JS.Math_floor (JS.rem seconds 60) = wholeSeconds seconds mod 60 /\
  (JS.rem seconds 1 == seconds - inject_Z (wholeSeconds seconds))%Q.
Proof.
  intros Hs. unfold JS.Math_floor, wholeSeconds.
  split; [|split; [|split]].
  - change 3600%Q with (inject_Z 3600). now apply floor_div_const.
  - change 3600%Q with (inject_Z 3600). change 60%Q with (inject_Z 60).
    rewrite (rem_nonneg seconds 3600 Hs) by lia.
    rewrite floor_div_const by lia. rewrite floor_sub_int.
    rewrite Z.mod_eq by lia. reflexivity.
  - change 60%Q with (inject_Z 60).
    rewrite (rem_nonneg seconds 60 Hs) by lia.
    rewrite floor_sub_int. rewrite Z.mod_eq by lia. reflexivity.
  - change 1%Q with (inject_Z 1) at 1.
    rewrite (rem_nonneg seconds 1 Hs) by lia.
    now rewrite Z.div_1_r, Z.mul_1_l.
Qed.

(** The exact centiseconds of the fractional part. *)
Lemma fraction_centiseconds (seconds : Q) :
  Qfloor ((seconds - inject_Z (wholeSeconds seconds)) * 100)
  = wholeCentiseconds seconds mod 100.
Proof.
  unfold wholeSeconds, wholeCentiseconds.
  assert (Heq : ((seconds - inject_Z (Qfloor seconds)) * 100
                 == seconds * 100 - inject_Z (100 * Qfloor seconds))%Q)
    by (rewrite inject_Z_mult; change (inject_Z 100) with 100%Q; ring).
  rewrite Heq, floor_sub_int.
  assert (Hwhole : Qfloor seconds = Qfloor (seconds * 100) / 100).
  { rewrite <- floor_div_const by lia. apply Qfloor_comp.
    change (inject_Z 100) with 100%Q. field. }
  rewrite Hwhole at 1. rewrite Z.mod_eq by lia. reflexivity.
Qed.

(** The centiseconds that are printed are the exact ones, or one more when
    the product by 100 rounds up to the next integer. *)
Lemma printedCentiseconds_near (seconds : Q) :
  (0 <= seconds)%Q ->
  wholeCentiseconds seconds mod 100 <= printedCentiseconds seconds
    <= wholeCentiseconds seconds mod 100 + 1.
Proof.
  intros Hs. unfold printedCentiseconds, JS.Math_floor, JS.mul.
  destruct (formatASSTime_fields seconds Hs) as (_ & _ & _ & Hrem).
  assert (Hround : (JS.round64 (JS.rem seconds 1 * 100)
                    == JS.round64 ((seconds - inject_Z (wholeSeconds seconds)) * 100))%Q).
  { apply round64_comp. now rewrite Hrem. }
  rewrite (Qfloor_comp _ _ Hround).
  pose proof (fraction_centiseconds seconds) as Hexact.
  pose proof (Z.mod_pos_bound (wholeCentiseconds seconds) 100 eq_refl) as Hrange.
  set (product := ((seconds - inject_Z (wholeSeconds seconds)) * 100)%Q) in *.
  set (exact := wholeCentiseconds seconds mod 100) in *.
  pose proof (Qfloor_le product) as Hlow. pose proof (Qlt_floor product) as Hhigh.
  rewrite Hexact in Hlow, Hhigh. split.
  - rewrite <- (Qfloor_Z exact) at 1. apply Qfloor_resp_le.
    rewrite <- (round64_small_integer exact) by lia.
    now apply round64_monotone.
  - rewrite <- (Qfloor_Z (exact + 1)). apply Qfloor_resp_le.
    rewrite <- (round64_small_integer (exact + 1)) by lia.
    apply round64_monotone. now apply Qlt_le_weak.
Qed.

(** For a binary64 number they stay below 100. *)
Lemma printedCentiseconds_double (seconds : Q) :
  (0 <= seconds)%Q -> JS.isDouble seconds = true ->
  0 <= printedCentiseconds seconds < 100.
Proof.
  intros Hs Hdouble. split.
  - pose proof (printedCentiseconds_near seconds Hs) as [Hlow _].
    pose proof (Z.mod_pos_bound (wholeCentiseconds seconds) 100 eq_refl). lia.
  - unfold printedCentiseconds, JS.Math_floor, JS.mul.
    destruct (formatASSTime_fields seconds Hs) as (_ & _ & _ & Hrem).
    pose proof (double_fraction seconds Hs Hdouble) as Hfraction.
    fold (wholeSeconds seconds) in Hfraction.
    assert (Hle : (JS.rem seconds 1 * 100
                   <= (1 - (1 # 9007199254740992)) * 100)%Q).
    { rewrite Hrem. lra. }
    apply round64_monotone in Hle. apply Qfloor_resp_le in Hle.
    assert (Hlast : Qfloor (JS.round64 ((1 - (1 # 9007199254740992)) * 100)) = 99)
      by (vm_compute; reflexivity).
    lia.
Qed.

Lemma formatASSTime_nonneg (seconds : Q) :
  (0 <= seconds)%Q -> JS.isDouble seconds = true ->
  formatASSTime seconds =
    JS.Z_toString 10 (wholeSeconds seconds / 3600)
      ++ ":" ++ twoDigits (wholeSeconds seconds mod 3600 / 60)
      ++ ":" ++ twoDigits (wholeSeconds seconds mod 60)
      ++ "." ++ twoDigits (printedCentiseconds seconds).
Proof.
  intros Hs Hdouble. unfold formatASSTime.
  fold (printedCentiseconds seconds).
  destruct (formatASSTime_fields seconds Hs) as (-> & -> & -> & _).
  pose proof (Z.mod_pos_bound (wholeSeconds seconds) 3600 eq_refl) as H1.
  pose proof (Z.mod_pos_bound (wholeSeconds seconds) 60 eq_refl) as H2.
  pose proof (printedCentiseconds_double seconds Hs Hdouble) as H3.
  assert (H4 : 0 <= wholeSeconds seconds mod 3600 / 60 < 100).
  { split; [apply Z.div_pos; lia|]. apply Z.div_lt_upper_bound; lia. }
  rewrite !pad2_twoDigits by lia. reflexivity.
Qed.

End TimeShape.

(** ** Karaoke cues *)

Section CueFacts.
Import Captions.

Lemma append_empty_r (s : string) : s ++ "" = s.
Proof.
  induction s as [|c s IH]; [reflexivity|].
  change (String c (s ++ "") = String c s). now rewrite IH.
Qed.

Lemma append_associative (s1 s2 s3 : string) :
  (s1 ++ s2) ++ s3 = s1 ++ (s2 ++ s3).
Proof.
  induction s1 as [|c s1 IH]; [reflexivity|].
  change (String c ((s1 ++ s2) ++ s3) = String c (s1 ++ (s2 ++ s3))).
  now rewrite IH.
Qed.

Lemma join_empty_cons (x : string) (xs : list string) :
  JS.join "" (x :: xs) = x ++ JS.join "" xs.
Proof.
  destruct xs as [|y ys]; [|reflexivity].
  cbn [JS.join]. symmetry. apply append_empty_r.
Qed.

Lemma join_empty_app (xs ys : list string) :
  JS.join "" (xs ++ ys) = JS.join "" xs ++ JS.join "" ys.
Proof.
  induction xs as [|x xs IH]; [reflexivity|].
  rewrite <- app_comm_cons, !join_empty_cons, IH.
  now rewrite append_associative.
Qed.

Lemma events_are_cues (c : CaptionsResult) :
  JS.join ""
    (List.map (fun segment => generateKaraokeEvents segment (style c)) (captions c))
  = JS.join "" (allCues c).
Proof.
  unfold allCues, generateKaraokeEvents.
  induction (captions c) as [|segment rest IH]; [reflexivity|].
  cbn [List.map List.flat_map].
  now rewrite join_empty_cons, join_empty_app, IH.
Qed.

Lemma captionsToASS_text (Number_toString : Q -> string) (c : CaptionsResult) :
  captionsToASS Number_toString c
  = header Number_toString (style c) ++ JS.join "" (allCues c).
Proof. unfold captionsToASS. now rewrite events_are_cues. Qed.

Lemma lookup_map {A B} (f : A -> B) (xs : list A) (i : nat) :
  List.map f xs !! i = f <$> xs !! i.
Proof.
  revert i. induction xs as [|x xs IH]; intros [|i]; simpl; auto.
Qed.

Lemma renderWord_active (st : Style) (w : CaptionWord) :
  renderWord st w w =
    "{\1c" ++ hexToASSColor (highlightColor st) 1 ++ "\3c&H00000000\bord3}" ++ word w.
Proof.
  unfold renderWord. rewrite String.eqb_refl.
  now rewrite (proj2 (Qeq_bool_iff _ _) (Qeq_refl (startTime w))).
Qed.

Lemma renderWord_other (st : Style) (active w : CaptionWord) :
  ~ (startTime w == startTime active)%Q ->
  renderWord st active w = "{\1c&H00FFFFFF\3c&H00000000\bord2}" ++ word w.
Proof.
  intros Hne. unfold renderWord.
  destruct (Qeq_bool (startTime w) (startTime active)) eqn:Heq.
  - apply Qeq_bool_iff in Heq. contradiction.
  - now rewrite andb_false_r.
Qed.

Lemma fullText_highlights_one (st : Style) (ws : list CaptionWord) (i : nat)
    (active : CaptionWord) :
  distinctStarts ws -> ws !! i = Some active ->
  List.map (renderWord st active) ws =
  imap (fun j w =>
          if (j =? i)%nat
          then "{\1c" ++ hexToASSColor (highlightColor st) 1
                 ++ "\3c&H00000000\bord3}" ++ word w
          else "{\1c&H00FFFFFF\3c&H00000000\bord2}" ++ word w) ws.
Proof.
  intros Hdistinct Hactive. apply list_eq. intros j.
  rewrite lookup_map, list_lookup_imap.
  destruct (ws !! j) as [w|] eqn:Hj; [|reflexivity]. cbn [fmap option_fmap option_map].
  f_equal. destruct (Nat.eqb_spec j i) as [->|Hne].
  - rewrite Hactive in Hj. injection Hj as <-. apply renderWord_active.
  - apply renderWord_other. intros Heq. apply Hne.
    exact (Hdistinct j i w active Hj Hactive Heq).
Qed.

End CueFacts.

(** ** Lines of the events *)

Section LineFacts.
Import Captions.

Lemma lineFeeds_app (s1 s2 : string) :
  lineFeeds (s1 ++ s2) = (lineFeeds s1 + lineFeeds s2)%nat.
Proof.
  induction s1 as [|c s1 IH]; [reflexivity|].
  change (lineFeeds (String c (s1 ++ s2))
          = (lineFeeds (String c s1) + lineFeeds s2)%nat).
  cbn [lineFeeds]. rewrite IH. lia.
Qed.

Lemma digitChar_plain (d : N) :
  (d < 16)%N -> Ascii.eqb (JS.digitChar d) (ascii_of_nat 10) = false.
Proof.
  pose (check := fun k : nat =>
    negb (Ascii.eqb (JS.digitChar (N.of_nat k)) (ascii_of_nat 10))).
  assert (Hall : forallb check (seq 0 16) = true) by (vm_compute; reflexivity).
  intros Hd.
  assert (Hin : In (N.to_nat d) (seq 0 16)) by (apply in_seq; lia).
  eapply forallb_forall in Hall; [|exact Hin].
  unfold check in Hall. rewrite N2Nat.id in Hall. now apply negb_true_iff in Hall.
Qed.

Lemma lineFeeds_digitsOf (fuel : nat) (radix n : N) (acc : string) :
  (0 < radix <= 16)%N ->
  lineFeeds (JS.digitsOf fuel radix n acc) = lineFeeds acc.
Proof.
  intros Hradix. revert n acc.
  assert (Hstep : forall n acc,
             lineFeeds (String (JS.digitChar (n mod radix)) acc) = lineFeeds acc).
  { intros n acc. cbn [lineFeeds]. rewrite digitChar_plain; [reflexivity|].
    pose proof (N.mod_lt n radix). lia. }
  induction fuel as [|fuel IH]; intros n acc; cbn [JS.digitsOf].
  - apply Hstep.
  - destruct (n / radix =? 0)%N; [apply Hstep|]. rewrite IH. apply Hstep.
Qed.

Lemma lineFeeds_Z_toString (radix : N) (z : Z) :
  (0 < radix <= 16)%N -> lineFeeds (JS.Z_toString radix z) = 0%nat.
Proof.
  intros Hradix. unfold JS.Z_toString, JS.N_toString.
  destruct (z <? 0)%Z.
  - change (lineFeeds (String "-" (JS.digitsOf (N.to_nat (N.log2 (Z.abs_N z)))
                                               radix (Z.abs_N z) "")) = 0%nat).
    cbn [lineFeeds]. now rewrite lineFeeds_digitsOf.
  - now rewrite lineFeeds_digitsOf.
Qed.

Lemma lineFeeds_padStart (n : nat) (s : string) :
  lineFeeds (JS.padStart n "0" s) = lineFeeds s.
Proof.
  unfold JS.padStart. rewrite lineFeeds_app.
  induction (n - String.length s)%nat as [|k IH]; [reflexivity|].
  cbn [repeat string_of_list_ascii lineFeeds]. exact IH.
Qed.

Lemma lineFeeds_toUpperCase (s : string) :
  lineFeeds (JS.toUpperCase s) = lineFeeds s.
Proof.
  pose (check := fun c : ascii =>
    Bool.eqb (Ascii.eqb (JS.upperChar c) (ascii_of_nat 10))
             (Ascii.eqb c (ascii_of_nat 10))).
  assert (Hall : forallb check allAscii = true) by (vm_compute; reflexivity).
  induction s as [|c s IH]; [reflexivity|].
  cbn [JS.toUpperCase lineFeeds]. rewrite IH.
  pose proof (forall_ascii _ Hall c) as Hc. unfold check in Hc.
  apply Bool.eqb_prop in Hc. now rewrite Hc.
Qed.

Lemma lineFeeds_hexByte (v : option Z) : lineFeeds (hexByte v) = 0%nat.
Proof.
  unfold hexByte. rewrite lineFeeds_toUpperCase, lineFeeds_padStart.
  destruct v as [z|]; [|reflexivity]. apply lineFeeds_Z_toString. lia.
Qed.

Lemma lineFeeds_hexToASSColor (hex : string) (alpha : Q) :
  lineFeeds (hexToASSColor hex alpha) = 0%nat.
Proof.
  unfold hexToASSColor. rewrite !lineFeeds_app, !lineFeeds_hexByte. reflexivity.
Qed.

Lemma lineFeeds_formatASSTime (seconds : Q) :
  lineFeeds (formatASSTime seconds) = 0%nat.
Proof.
  unfold formatASSTime, pad2.
  rewrite !lineFeeds_app, !lineFeeds_padStart, !lineFeeds_Z_toString by lia.
  reflexivity.
Qed.

Lemma lineFeeds_renderWord (st : Style) (active w : CaptionWord) :
  lineFeeds (renderWord st active w) = lineFeeds (word w).
Proof.
  unfold renderWord.
  destruct (_ && _); rewrite !lineFeeds_app, ?lineFeeds_hexToASSColor; reflexivity.
Qed.

Lemma lineFeeds_join (sep : string) (xs : list string) :
  lineFeeds sep = 0%nat ->
  lineFeeds (JS.join sep xs) = list_sum (List.map lineFeeds xs).
Proof.
  intros Hsep. induction xs as [|x [|y ys] IH]; [reflexivity|cbn; lia|].
  change (JS.join sep (x :: y :: ys)) with (x ++ sep ++ JS.join sep (y :: ys)).
  rewrite !lineFeeds_app, Hsep, IH. reflexivity.
Qed.

Lemma lineFeeds_karaokeCue (st : Style) (ws : list CaptionWord) (active : CaptionWord) :
  (forall w, In w ws -> lineFeeds (word w) = 0%nat) ->
  lineFeeds (karaokeCue st ws active) = 1%nat.
Proof.
  intros Hplain. unfold karaokeCue.
  rewrite !lineFeeds_app, !lineFeeds_formatASSTime, lineFeeds_join by reflexivity.
  assert (Hzero : list_sum (List.map lineFeeds (List.map (renderWord st active) ws))
                  = 0%nat).
  { induction ws as [|w ws IH]; [reflexivity|].
    cbn [List.map list_sum]. rewrite lineFeeds_renderWord, Hplain by (now left).
    apply IH. intros v Hv. apply Hplain. now right. }
  rewrite Hzero. reflexivity.
Qed.

Lemma list_sum_ones {A} (f : A -> nat) (xs : list A) :
  (forall x, In x xs -> f x = 1%nat) ->
  list_sum (List.map f xs) = List.length xs.
Proof.
  induction xs as [|x xs IH]; intros Hone; [reflexivity|].
  change (f x + list_sum (List.map f xs) = S (List.length xs))%nat.
  rewrite Hone by (now left).
  rewrite IH; [reflexivity|]. intros y Hy. apply Hone. now right.
Qed.

Lemma lineFeeds_allCues (c : CaptionsResult) :
  singleLineWords c ->
  lineFeeds (JS.join "" (allCues c)) = List.length (allCues c).
Proof.
  intros Hplain. rewrite lineFeeds_join by reflexivity.
  apply list_sum_ones. intros cue Hcue. unfold allCues in Hcue.
  apply in_flat_map in Hcue as (segment & Hsegment & Hcue).
  unfold karaokeCues in Hcue. apply in_map_iff in Hcue as (w & <- & Hw).
  apply lineFeeds_karaokeCue. intros v Hv. now apply (Hplain segment).
Qed.

End LineFacts.

Section CueClaims.
Import Captions.

(** The track of a segment of three words, as the encoder writes it. *)
Example captionsToASS_demoPlain :
  captionsToASS integerToString demoPlain = "[Script Info]
Title: Clipwise Captions
ScriptType: v4.00+
WrapStyle: 0
ScaledBorderAndShadow: yes
YCbCr Matrix: None
PlayResY: 1920

[V4+ Styles]
Format: Name, Fontname, Fontsize, PrimaryColour, SecondaryColour, OutlineColour, BackColour, Bold, Italic, Underline, StrikeOut, ScaleX, ScaleY, Spacing, Angle, BorderStyle, Outline, Shadow, Alignment, MarginL, MarginR, MarginV, Encoding
Style: Default,Arial,36,&H00FFFFFF,&H00FFFFFF,&H00000000,&H80000000,1,0,0,0,100,100,0,0,1,2,1,2,10,10,480,1
Style: Highlight,Arial,36,&H0000D7FF,&H0000D7FF,&H00000000,&H3300D7FF,1,0,0,0,100,100,0,0,1,2,1,2,10,10,480,1

[Events]
Format: Layer, Start, End, Style, Name, MarginL, MarginR, MarginV, Effect, Text
Dialogue: 0,0:00:00.00,0:00:00.50,Default,,0,0,0,,{\1c&H0000D7FF\3c&H00000000\bord3}Hola {\1c&H00FFFFFF\3c&H00000000\bord2}a {\1c&H00FFFFFF\3c&H00000000\bord2}todos
Dialogue: 0,0:00:00.50,0:00:00.75,Default,,0,0,0,,{\1c&H00FFFFFF\3c&H00000000\bord2}Hola {\1c&H0000D7FF\3c&H00000000\bord3}a {\1c&H00FFFFFF\3c&H00000000\bord2}todos
Dialogue: 0,0:00:00.75,0:00:01.25,Default,,0,0,0,,{\1c&H00FFFFFF\3c&H00000000\bord2}Hola {\1c&H00FFFFFF\3c&H00000000\bord2}a {\1c&H0000D7FF\3c&H00000000\bord3}todos
".
Proof. vm_compute. reflexivity. Qed.

(** C3, as amended.  [captionsToASS] writes the header and then the cues
    of all segments in order; a segment contributes one cue for each of its
    words, so their number is the sum of the word counts of the segments.
    The cue of a word is a [Dialogue] entry whose start and end are the
    start and end time of that word printed by [formatASSTime].  For a
    time that is a binary64 number and not negative the stamp is
    [H:MM:SS.cc]: hours, then minutes, seconds and centiseconds on two
    digits, where the centiseconds are those of the time or, when the
    product by 100 rounds up to an integer, one more.  The text of the cue
    is the whole segment, the words joined by spaces; when the words of the
    segment start at pairwise distinct times, the word of the cue, and only
    that word, carries the highlight colour, and every other word carries
    white.  When no word contains a line feed, the events have exactly one
    line per cue. *)
Theorem captionsToASS_one_cue_per_word :
  forall (Number_toString : Q -> string) (c : CaptionsResult),
    captionsToASS Number_toString c
      = header Number_toString (style c) ++ JS.join "" (allCues c) /\
    allCues c = concat (List.map (fun segment => karaokeCues segment (style c))
                                 (captions c)) /\
    List.length (allCues c)
      = list_sum (List.map (fun segment => List.length (words segment)) (captions c)) /\
    (forall segment,
        List.length (karaokeCues segment (style c)) = List.length (words segment)) /\
    (singleLineWords c ->
     lineFeeds (JS.join "" (allCues c)) = List.length (allCues c)) /\
    (forall segment i w,
        words segment !! i = Some w ->
        karaokeCues segment (style c) !! i =
          Some ("Dialogue: 0," ++ formatASSTime (startTime w) ++ ","
                  ++ formatASSTime (endTime w) ++ ",Default,,0,0,0,,"
                  ++ JS.join " " (List.map (renderWord (style c) w) (words segment))
                  ++ LF) /\
        (distinctStarts (words segment) ->
         List.map (renderWord (style c) w) (words segment) =
         imap (fun j v =>
                 if (j =? i)%nat
                 then "{\1c" ++ hexToASSColor (highlightColor (style c)) 1
                        ++ "\3c&H00000000\bord3}" ++ word v
                 else "{\1c&H00FFFFFF\3c&H00000000\bord2}" ++ word v)
              (words segment))) /\
    (forall seconds,
        (0 <= seconds)%Q -> JS.isDouble seconds = true ->
        formatASSTime seconds =
          JS.Z_toString 10 (wholeSeconds seconds / 3600)
            ++ ":" ++ twoDigits (wholeSeconds seconds mod 3600 / 60)
            ++ ":" ++ twoDigits (wholeSeconds seconds mod 60)
            ++ "." ++ twoDigits (printedCentiseconds seconds) /\
        0 <= wholeSeconds seconds / 3600 /\
        0 <= printedCentiseconds seconds < 100 /\
        wholeCentiseconds seconds mod 100 <= printedCentiseconds seconds
          <= wholeCentiseconds seconds mod 100 + 1).
Proof.
  intros Number_toString c.
  split; [|split; [|split; [|split; [|split; [|split]]]]].
  - apply captionsToASS_text.
  - unfold allCues. apply flat_map_concat_map.
  - unfold allCues. rewrite length_flat_map. f_equal.
    apply map_ext. intros segment. apply length_map.
  - intros segment. apply length_map.
  - apply lineFeeds_allCues.
  - intros segment i w Hw. split.
    + unfold karaokeCues. rewrite lookup_map, Hw. reflexivity.
    + intros Hdistinct. now apply fullText_highlights_one.
  - intros seconds Hs Hdouble. split; [now apply formatASSTime_nonneg|].
    split; [|split].
    + apply Z.div_pos; [|lia]. unfold wholeSeconds.
      change 0 with (Qfloor 0). now apply Qfloor_resp_le.
    + now apply printedCentiseconds_double.
    + now apply printedCentiseconds_near.
Qed.

Lemma captionsToASS_one_cue_per_word_witness :
  List.length (allCues demoTrack) = 9%nat /\
  lineFeeds (JS.join "" (allCues demoTrack)) = 9%nat /\
  allCues demoTrack !! 1%nat =
    Some ("Dialogue: 0,0:00:00.50,0:00:00.75,Default,,0,0,0,,"
            ++ "{\1c&H00FFFFFF\3c&H00000000\bord2}Hola "
            ++ "{\1c&H0000D7FF\3c&H00000000\bord3}a "
            ++ "{\1c&H00FFFFFF\3c&H00000000\bord2}todos" ++ LF) /\
  formatASSTime (3726 + (3 # 4)) = "1:02:06.75" /\
  formatASSTime (double (435 # 100)) = "0:00:04.34" /\
  formatASSTime (double (35 # 100)) = "0:00:00.35".
Proof.
  pose proof (captionsToASS_one_cue_per_word integerToString
                demoTrack) as (_ & _ & Hcount & _ & Hlines & Hcue & Htime).
  split; [|split; [|split; [|split; [|split]]]].
  - rewrite Hcount. reflexivity.
  - rewrite Hlines, Hcount; [reflexivity|].
    intros segment w Hsegment Hw. cbn in Hsegment.
    repeat (destruct Hsegment as [<-|Hsegment]; [cbn in Hw|]);
      try contradiction;
      repeat (destruct Hw as [<-|Hw]; [reflexivity|]); contradiction.
  - destruct (Hcue (demoSegment [demoCaptionWord "Hola" 0 (1 # 2);
                                 demoCaptionWord "a" (1 # 2) (3 # 4);
                                 demoCaptionWord "todos" (3 # 4) (5 # 4)])
                   1%nat (demoCaptionWord "a" (1 # 2) (3 # 4)) eq_refl)
      as [Hline Htext].
    assert (Hdistinct : distinctStarts
              [demoCaptionWord "Hola" 0 (1 # 2);
               demoCaptionWord "a" (1 # 2) (3 # 4);
               demoCaptionWord "todos" (3 # 4) (5 # 4)]).
    { clear. intros [|[|[|i]]] [|[|[|j]]] wi wj Hi Hj Heq;
        try reflexivity; try discriminate;
        injection Hi as <-; injection Hj as <-; discriminate. }
    specialize (Htext Hdistinct).
    change (allCues demoTrack !! 1%nat)
      with (karaokeCues (demoSegment [demoCaptionWord "Hola" 0 (1 # 2);
                                      demoCaptionWord "a" (1 # 2) (3 # 4);
                                      demoCaptionWord "todos" (3 # 4) (5 # 4)])
                        (style demoTrack) !! 1%nat).
    rewrite Hline, Htext. vm_compute. reflexivity.
  - destruct (Htime (3726 + (3 # 4))%Q) as (-> & _);
      [vm_compute; discriminate|vm_compute; reflexivity|].
    vm_compute. reflexivity.
  - destruct (Htime (double (435 # 100))) as (-> & _);
      [vm_compute; discriminate|vm_compute; reflexivity|].
    vm_compute. reflexivity.
  - destruct (Htime (double (35 # 100))) as (-> & _);
      [vm_compute; discriminate|vm_compute; reflexivity|].
    vm_compute. reflexivity.
Defined.

(** C3, the claim as stated fails for some results: [generateCaptions]
    checks the texts of the words only, so it returns a word whose start
    time is negative or whose text contains a line feed, and
    [captionsToASS] neither rejects nor repairs them.  The cue of a word
    that starts at -0.5 s carries the stamp [-1:-1:-1.-50], which is not
    [H:MM:SS.cc], and a word with a line feed in it makes one cue span two
    lines, so the events have more lines than words. *)
Lemma captionsToASS_malformed_cues :
  fst (generateCaptions JS.toLowerCase JS.trim true
         (fun _ _ => Return demoEarlyWord) demoTranscript noOptions 0%nat)
    = Return demoEarlyWord /\
  allCues demoEarlyWord =
    [ "Dialogue: 0,-1:-1:-1.-50,0:00:00.50,Default,,0,0,0,,"
        ++ "{\1c&H0000D7FF\3c&H00000000\bord3}Hola" ++ LF ] /\
  fst (generateCaptions JS.toLowerCase JS.trim true
         (fun _ _ => Return demoBrokenWord) demoTranscript noOptions 0%nat)
    = Return demoBrokenWord /\
  List.length (allCues demoBrokenWord) = 1%nat /\
  lineFeeds (JS.join "" (allCues demoBrokenWord)) = 2%nat.
Proof.
  repeat split; vm_compute; reflexivity.
Qed.

End CueClaims.

(** ** The header and the emphasis flag *)

Section HeaderFacts.
Import Captions.
Variable Number_toString : Q -> string.

(** The words of the header, as the template literal of the source spells
    them. *)
Lemma headerLines_text (st : Style) :
  headerLines Number_toString st =
  [ "[Script Info]";
    "Title: Clipwise Captions";
    "ScriptType: v4.00+";
    "WrapStyle: 0";
    "ScaledBorderAndShadow: yes";
    "YCbCr Matrix: None";
    "PlayResY: 1920";
    "";
    "[V4+ Styles]";
    "Format: Name, Fontname, Fontsize, PrimaryColour, SecondaryColour, OutlineColour, BackColour, Bold, Italic, Underline, StrikeOut, ScaleX, ScaleY, Spacing, Angle, BorderStyle, Outline, Shadow, Alignment, MarginL, MarginR, MarginV, Encoding";
    "Style: Default,Arial," ++ Number_toString (fontSize st)
      ++ ",&H00FFFFFF,&H00FFFFFF,&H00000000,&H80000000,1,0,0,0,100,100,0,0,1,2,1,2,10,10,480,1";
    "Style: Highlight,Arial," ++ Number_toString (fontSize st) ++ ","
      ++ hexToASSColor (highlightColor st) 1 ++ ","
      ++ hexToASSColor (highlightColor st) 1 ++ ",&H00000000,"
      ++ hexToASSColor (highlightColor st) (8 # 10)
      ++ ",1,0,0,0,100,100,0,0,1,2,1,2,10,10,480,1";
    "";
    "[Events]";
    "Format: Layer, Start, End, Style, Name, MarginL, MarginR, MarginV, Effect, Text";
    "" ].
Proof. reflexivity. Qed.

Lemma karaokeCue_withoutEmphasis (st : Style) (ws : list CaptionWord)
    (active : CaptionWord) :
  karaokeCue st (List.map withoutEmphasis ws) (withoutEmphasis active)
  = karaokeCue st ws active.
Proof.
  unfold karaokeCue. cbn [withoutEmphasis startTime endTime].
  rewrite map_map. reflexivity.
Qed.

Lemma generateKaraokeEvents_withoutEmphasis (segment : CaptionSegment) (st : Style) :
  generateKaraokeEvents (segmentWithoutEmphasis segment) st
  = generateKaraokeEvents segment st.
Proof.
  unfold generateKaraokeEvents, karaokeCues. cbn [segmentWithoutEmphasis words].
  rewrite map_map. f_equal. apply map_ext. intros w.
  apply karaokeCue_withoutEmphasis.
Qed.

Lemma captionsToASS_withoutEmphasis (c : CaptionsResult) :
  captionsToASS Number_toString (resultWithoutEmphasis c)
  = captionsToASS Number_toString c.
Proof.
  unfold captionsToASS. cbn [resultWithoutEmphasis style captions].
  rewrite map_map. do 2 f_equal. apply map_ext. intros segment.
  apply generateKaraokeEvents_withoutEmphasis.
Qed.

End HeaderFacts.

Section HeaderClaims.
Import Captions.




(** C10: the track does not depend on the emphasis flags.  Two results
    that are equal except in the emphasis flags of their words are encoded
    to the same text; the style chosen from the flag is [Highlight] for
    both values of the flag and no cue uses it: every cue is a [Dialogue]
    line of style [Default]. *)
Theorem captionsToASS_ignores_emphasis :
  forall (Number_toString : Q -> string) (c1 c2 : CaptionsResult),
    equalExceptEmphasis c1 c2 ->
    captionsToASS Number_toString c1 = captionsToASS Number_toString c2 /\
    (forall w, wordStyle w = "Highlight") /\
    (forall segment i w,
        words segment !! i = Some w ->
        exists text,
          karaokeCues segment (style c1) !! i =
            Some ("Dialogue: 0," ++ formatASSTime (startTime w) ++ ","
                    ++ formatASSTime (endTime w) ++ ",Default,,0,0,0,," ++ text)).
Proof.
  intros Number_toString c1 c2 Hsame. split; [|split].
  - rewrite <- (captionsToASS_withoutEmphasis Number_toString c1).
    rewrite <- (captionsToASS_withoutEmphasis Number_toString c2).
    unfold equalExceptEmphasis in Hsame. now rewrite Hsame.
  - intros w. unfold wordStyle. now destruct (emphasis w).
  - intros segment i w Hw. eexists.
    unfold karaokeCues. rewrite lookup_map, Hw. reflexivity.
Qed.

Lemma captionsToASS_ignores_emphasis_witness :
  captionsToASS integerToString demoEmphasized
  = captionsToASS integerToString demoPlain.
Proof.
  apply (captionsToASS_ignores_emphasis integerToString
           demoEmphasized demoPlain).
  reflexivity.
Defined.

End HeaderClaims.

(** ** The crop window *)

Section CropFacts.
Import Processor.

Lemma wider_iff (sourceWidth sourceHeight : Z) :
  0 < sourceHeight ->
  JS.gt (inject_Z sourceWidth / inject_Z sourceHeight) (9 / 16) = true
  <-> 9 * sourceHeight < 16 * sourceWidth.
Proof.
  intros Hh. unfold JS.gt. rewrite negb_true_iff, <- not_true_iff_false, Qle_bool_iff.
  destruct sourceHeight as [|p|p]; try lia.
  change (9 / 16)%Q with (9 # 16).
  unfold Qle, Qdiv, Qmult, Qinv, inject_Z. cbn [Qnum Qden].
  rewrite Z.mul_1_r, Pos.mul_1_l. lia.
Qed.

Lemma floor_times_aspect (n : Z) :
  JS.Math_floor (inject_Z n * (9 / 16)) = 9 * n / 16.
Proof.
  change (9 / 16)%Q with (9 # 16).
  unfold JS.Math_floor, Qfloor, Qmult, inject_Z. cbn [Qnum Qden].
  rewrite Pos.mul_1_l. f_equal. lia.
Qed.

Lemma floor_over_aspect (n : Z) :
  JS.Math_floor (inject_Z n / (9 / 16)) = 16 * n / 9.
Proof.
  change (inject_Z n / (9 / 16))%Q with (inject_Z n * (16 # 9))%Q.
  unfold JS.Math_floor, Qfloor, Qmult, inject_Z. cbn [Qnum Qden].
  rewrite Pos.mul_1_l. f_equal. lia.
Qed.

Lemma floor_half (n : Z) : JS.Math_floor (inject_Z n / 2) = n / 2.
Proof.
  unfold JS.Math_floor. change 2%Q with (inject_Z 2).
  rewrite floor_div_const by lia. now rewrite Qfloor_Z.
Qed.

End CropFacts.

Section CropClaims.
Import Processor.

Lemma cropFilters_cases (sourceWidth sourceHeight width height : Z)
    (position : CropPosition) :
  0 < sourceHeight ->
  cropFilters sourceWidth sourceHeight width height position =
  [ crop (cropWindow sourceWidth sourceHeight position);
    scale {| scale_w := width; scale_h := height |} ].
Proof.
  intros Hh. unfold cropFilters, cropWindow.
  pose proof (wider_iff sourceWidth sourceHeight Hh) as Hwider.
  destruct (JS.gt (inject_Z sourceWidth / inject_Z sourceHeight) (9 / 16)).
  - destruct (decide (9 * sourceHeight < 16 * sourceWidth)) as [_|Hno];
      [|exfalso; apply Hno, Hwider; reflexivity].
    now rewrite floor_times_aspect, floor_half.
  - destruct (decide (9 * sourceHeight < 16 * sourceWidth)) as [Hyes|_];
      [apply Hwider in Hyes; discriminate|].
    rewrite floor_over_aspect. destruct position; now rewrite ?floor_half.
Qed.

Lemma gt_iff (a b : Q) : JS.gt a b = true <-> (b < a)%Q.
Proof.
  unfold JS.gt. rewrite negb_true_iff, <- not_true_iff_false, Qle_bool_iff.
  split; [apply Qnot_le_lt|apply Qlt_not_le].
Qed.

(** C9: when the prober reports a video stream whose width and height are
    present and not zero, [cropToVertical] runs the media engine with a
    crop filter followed by a scale filter to the target resolution,
    1080x1920 unless the options say otherwise.  If the aspect ratio of the
    source exceeds 9/16, the crop window has the full height, the width
    [floor(height * 9/16)], and is centred horizontally:
    [x = floor((width - cropWidth) / 2)], [y = 0].  Otherwise it has the full
    width, the height [floor(width / (9/16))], [x = 0], and [y] is 0 for
    [top], [height - cropHeight] for [bottom], and
    [floor((height - cropHeight) / 2)] for [center], the default.  For
    positive dimensions the floors are integer quotients, the window lies
    inside the frame, and in the first case its left and right margins
    differ by at most one. *)
Theorem cropToVertical_window :
  forall (env : Environment) inputPath outputPath options world
         metadata videoStream sourceWidth sourceHeight,
    ffprobe env inputPath world = Probed metadata ->
    List.find (fun s => String.eqb (codec_type s) "video") (streams metadata)
      = Some videoStream ->
    stream_width videoStream = Some sourceWidth ->
    stream_height videoStream = Some sourceHeight ->
    sourceWidth <> 0 -> sourceHeight <> 0 ->
    let width := default 1080 (options ≫= opt_width) in
    let height := default 1920 (options ≫= opt_height) in
    let position := default center (options ≫= opt_position) in
    let sourceAspect := (inject_Z sourceWidth / inject_Z sourceHeight)%Q in
    let cropWidth := JS.Math_floor (inject_Z sourceHeight * (9 # 16)) in
    let cropHeight := JS.Math_floor (inject_Z sourceWidth / (9 # 16)) in
    exists window,
      cropToVertical env inputPath outputPath options world =
        runEngine env
          (Filter inputPath
                  [crop window; scale {| scale_w := width; scale_h := height |}]
                  outputPath)
          (ret tt) ffmpegError world /\
      ((9 # 16 < sourceAspect)%Q ->
       window = {| crop_w := cropWidth; crop_h := sourceHeight;
                   crop_x := JS.Math_floor (inject_Z (sourceWidth - cropWidth) / 2);
                   crop_y := 0 |}) /\
      ((sourceAspect <= 9 # 16)%Q ->
       window = {| crop_w := sourceWidth; crop_h := cropHeight; crop_x := 0;
                   crop_y :=
                     match position with
                     | top => 0
                     | bottom => sourceHeight - cropHeight
                     | center =>
                         JS.Math_floor (inject_Z (sourceHeight - cropHeight) / 2)
                     end |}) /\
      (0 < sourceWidth -> 0 < sourceHeight ->
       cropWidth = 9 * sourceHeight / 16 /\
       cropHeight = 16 * sourceWidth / 9 /\
       window = cropWindow sourceWidth sourceHeight position /\
       0 <= crop_x window /\ crop_x window + crop_w window <= sourceWidth /\
       0 <= crop_y window /\ crop_y window + crop_h window <= sourceHeight /\
       ((9 # 16 < sourceAspect)%Q ->
        0 <= (sourceWidth - crop_w window - crop_x window) - crop_x window <= 1)).
Proof.
  intros env inputPath outputPath options world metadata videoStream
         sourceWidth sourceHeight Hprobe Hfind Hw Hh Hwnz Hhnz
         width height position sourceAspect cropWidth cropHeight.
  assert (Hrun : cropToVertical env inputPath outputPath options world =
                 runEngine env
                   (Filter inputPath
                      (cropFilters sourceWidth sourceHeight width height position)
                      outputPath)
                   (ret tt) ffmpegError world).
  { unfold cropToVertical. rewrite Hprobe, Hfind, Hw, Hh. cbn [falsy default].
    destruct (Z.eqb_spec sourceWidth 0) as [?|_]; [contradiction|].
    destruct (Z.eqb_spec sourceHeight 0) as [?|_]; [contradiction|].
    reflexivity. }
  pose proof (gt_iff sourceAspect (9 / 16)) as Hgt.
  change (9 / 16)%Q with (9 # 16) in Hgt.
  assert (Hfilters : exists window,
             cropFilters sourceWidth sourceHeight width height position
             = [crop window; scale {| scale_w := width; scale_h := height |}] /\
             ((9 # 16 < sourceAspect)%Q ->
              window = {| crop_w := cropWidth; crop_h := sourceHeight;
                          crop_x := JS.Math_floor
                                      (inject_Z (sourceWidth - cropWidth) / 2);
                          crop_y := 0 |}) /\
             ((sourceAspect <= 9 # 16)%Q ->
              window = {| crop_w := sourceWidth; crop_h := cropHeight; crop_x := 0;
                          crop_y :=
                            match position with
                            | top => 0
                            | bottom => sourceHeight - cropHeight
                            | center =>
                                JS.Math_floor
                                  (inject_Z (sourceHeight - cropHeight) / 2)
                            end |})).
  { unfold cropFilters. fold sourceAspect.
    change (9 / 16)%Q with (9 # 16). fold cropWidth cropHeight.
    destruct (JS.gt sourceAspect (9 # 16)) eqn:Hwide.
    - eexists. split; [reflexivity|]. split; [reflexivity|].
      intros Hle. pose proof (proj1 Hgt eq_refl) as Hlt.
      exfalso. now apply (Qlt_not_le _ _ Hlt).
    - eexists. split; [reflexivity|]. split.
      + intros Hlt. apply Hgt in Hlt. discriminate.
      + intros _. destruct position; reflexivity. }
  destruct Hfilters as (window & Hfilters & Hwide & Htall).
  exists window. rewrite Hrun, Hfilters.
  split; [reflexivity|]. split; [exact Hwide|]. split; [exact Htall|].
  intros Hwpos Hhpos.
  pose proof (floor_times_aspect sourceHeight) as Hcw.
  pose proof (floor_over_aspect sourceWidth) as Hch.
  change (9 / 16)%Q with (9 # 16) in Hcw, Hch. fold cropWidth in Hcw.
  fold cropHeight in Hch.
  rewrite (cropFilters_cases sourceWidth sourceHeight width height position Hhpos)
    in Hfilters.
  injection Hfilters as Hwindow. subst window.
  split; [exact Hcw|]. split; [exact Hch|]. split; [reflexivity|].
  pose proof (wider_iff sourceWidth sourceHeight Hhpos) as Hwider.
  fold sourceAspect in Hwider. change (9 / 16)%Q with (9 # 16) in Hwider.
  rewrite Hgt in Hwider.
  unfold cropWindow.
  destruct (decide (9 * sourceHeight < 16 * sourceWidth)) as [Hyes|Hno];
    cbn [crop_x crop_y crop_w crop_h].
  - repeat split; try (Z.div_mod_to_equations; lia).
  - repeat split; try (intros Hlt; apply Hwider in Hlt; contradiction);
      destruct position; Z.div_mod_to_equations; lia.
Qed.

Lemma cropToVertical_window_witness :
  exists window,
    cropToVertical (demoEnvironment (fun _ => Ended "mp4") (demoProbe 1920 1080))
                   "in.mp4" "out.mp4" None emptyWorld =
      runEngine (demoEnvironment (fun _ => Ended "mp4") (demoProbe 1920 1080))
        (Filter "in.mp4"
                [crop window; scale {| scale_w := 1080; scale_h := 1920 |}]
                "out.mp4")
        (ret tt) ffmpegError emptyWorld /\
    window = {| crop_w := 607; crop_h := 1080; crop_x := 656; crop_y := 0 |}.
Proof.
  destruct (cropToVertical_window
              (demoEnvironment (fun _ => Ended "mp4") (demoProbe 1920 1080))
              "in.mp4" "out.mp4" None emptyWorld _ _ 1920 1080
              eq_refl eq_refl eq_refl eq_refl)
    as (window & Hrun & Hwide & _ & Hinteger); [discriminate|discriminate|].
  exists window. split; [exact Hrun|].
  destruct Hinteger as (_ & _ & Hwindow & _); [reflexivity|reflexivity|].
  rewrite Hwindow. reflexivity.
Defined.

End CropClaims.

(** ** Temporary files *)

Section CleanupFacts.
Import Processor.
Variable env : Environment.
Variable Number_toString : Q -> string.

Lemma preserves_ret {A} path (a : A) : preserves path (ret a).
Proof. intros w Hw. exact Hw. Qed.

Lemma preserves_throw {A} path t : preserves path (@throw World A t).
Proof. intros w Hw. exact Hw. Qed.



Lemma bind_returns {A B} (m : Eff World A) (k : A -> Eff World B) w b w' :
  bind m k w = (Return b, w') ->
  exists a w1, m w = (Return a, w1) /\ k a w1 = (Return b, w').
Proof.
  unfold bind. destruct (m w) as [[a|t] w1]; [|discriminate].
  intros Hk. now exists a, w1.
Qed.

Lemma preserves_Date_now path : preserves path (Date_now env).
Proof. intros w Hw. exact Hw. Qed.








Lemma preserves_runEngine {A} path call (onEnd : Eff World A)
    (onError : string -> Eff World A) :
  path <> outputOf call -> preserves path onEnd ->
  (forall message, preserves path (onError message)) ->
  preserves path (runEngine env call onEnd onError).
Proof.
  intros Hne HonEnd HonError w Hw. unfold runEngine.
  destruct (engine env call w) as [written|message [part|]].
  - apply HonEnd. unfold absent in *. cbn. now rewrite lookup_insert_ne.
  - apply HonError. unfold absent in *. cbn. now rewrite lookup_insert_ne.
  - apply HonError. exact Hw.
Qed.


Lemma preserves_cropToVertical path inputPath outputPath options :
  path <> outputPath ->
  preserves path (cropToVertical env inputPath outputPath options).
Proof.
  intros Hne w Hw. unfold cropToVertical.
  destruct (ffprobe env inputPath w) as [message|metadata]; [exact Hw|].
  destruct (List.find _ (streams metadata)) as [videoStream|]; [|exact Hw].
  destruct (falsy (stream_width videoStream) || falsy (stream_height videoStream));
    [exact Hw|].
  apply preserves_runEngine; [exact Hne|apply preserves_ret| |exact Hw].
  intros message. apply preserves_throw.
Qed.

End CleanupFacts.

Section BurnFacts.
Import Processor.
Variable env : Environment.
Variable Number_toString : Q -> string.

Lemma burnCaptions_unfold inputPath captionsResult outputPath w :
  burnCaptions env Number_toString inputPath captionsResult outputPath w =
  burnWith env (assPathOf env (clock env (clockReads w))) inputPath outputPath
           (Captions.captionsToASS Number_toString captionsResult) (tick w).
Proof. reflexivity. Qed.






(** The subtitle files have other names than the temporary clips. *)
Lemma temporary_not_subtitle (timestamp now : Z) :
  extractedPathOf env timestamp <> assPathOf env now /\
  croppedPathOf env timestamp <> assPathOf env now.
Proof.
  unfold extractedPathOf, croppedPathOf, assPathOf, path_join.
  split; intros Heq; apply (inj (String.app (tmpdir env))) in Heq; discriminate.
Qed.

Lemma createClip_unfold inputVideoPath startTime endTime captionsResult outputPath
    options w :
  createClip env Number_toString inputVideoPath startTime endTime captionsResult
             outputPath options w =
  tryCatch
    (createClipBody env Number_toString inputVideoPath startTime endTime captionsResult outputPath
       (default true (options ≫= opt_cropToVertical))
       (default true (options ≫= opt_burnCaptions))
       (clock env (clockReads w)))
    (fun error =>
       bind (unlinkQuietly env (extractedPathOf env (clock env (clockReads w))))
            (fun _ => bind (unlinkQuietly env (croppedPathOf env (clock env (clockReads w))))
                           (fun _ => throw error)))
    (tick w).
Proof. reflexivity. Qed.



Lemma unlinkQuietly_returns (path : string) w :
  exists w', unlinkQuietly env path w = (Return tt, w').
Proof.
  unfold unlinkQuietly, tryCatch, unlink, ret.
  destruct (files w !! path); [|eauto].
  destruct (unlinkFault env path w); eauto.
Qed.


(** The [catch] clause rethrows what it caught. *)
Lemma cleanup_throws (first second : string) (error : thrown) w :
  fst (cleanup env first second error w) = Throw error.
Proof.
  unfold cleanup, bind, throw.
  destruct (unlinkQuietly_returns first w) as [w1 ->].
  destruct (unlinkQuietly_returns second w1) as [w2 ->]. reflexivity.
Qed.



End BurnFacts.

Section CleanupClaims.
Import Processor.



(** The model is not vacuous: when every stage ends and nothing faults,
    [createClip] returns and leaves exactly the output file. *)
Lemma createClip_success_example :
  createClip (demoEnvironment (fun _ => Ended "mp4") (demoProbe 1920 1080))
             integerToString "in.mp4" 45 70 (Some demoTrack) "out.mp4" None
             emptyWorld
  = (Return tt, {| files := {[ "out.mp4" := "mp4" ]}; clockReads := 2 |}).
Proof. vm_compute. reflexivity. Qed.



End CleanupClaims.

(** * Further properties of the sources *)

(** ** Choosing among highlights *)

Section SelectionFacts.
Import Highlights.

Lemma ge_iff (a b : Q) : JS.ge a b = true <-> (b <= a)%Q.
Proof. unfold JS.ge. apply Qle_bool_iff. Qed.

Lemma not_gt_iff (a b : Q) : JS.gt a b = false <-> (a <= b)%Q.
Proof.
  unfold JS.gt. rewrite negb_false_iff. apply Qle_bool_iff.
Qed.

Lemma better_cases (best current : Highlight) :
  (better best current = current /\ (score best < score current)%Q) \/
  (better best current = best /\ (score current <= score best)%Q).
Proof.
  unfold better. destruct (JS.gt (score current) (score best)) eqn:E.
  - left. split; [reflexivity|now apply gt_iff].
  - right. split; [reflexivity|now apply not_gt_iff].
Qed.

(** The running best of the [reduce]: where it sits in the array. *)
Lemma fold_better_split (rest : list Highlight) :
  forall (acc : Highlight) (pre mid : list Highlight),
    (forall h, In h pre -> (score h < score acc)%Q) ->
    (forall h, In h mid -> (score h <= score acc)%Q) ->
    exists before after,
      (pre ++ acc :: mid ++ rest = before ++ fold_left better rest acc :: after)%list /\
      (forall h, In h before -> (score h < score (fold_left better rest acc))%Q) /\
      (forall h, In h after -> (score h <= score (fold_left better rest acc))%Q).
Proof.
  induction rest as [|current rest IH]; intros acc pre mid Hpre Hmid.
  - exists pre, mid. rewrite app_nil_r. now split.
  - cbn [fold_left].
    destruct (better_cases acc current) as [[-> Hlt]|[-> Hle]].
    + destruct (IH current (pre ++ acc :: mid)%list []) as (before & after & Heq & Hb & Ha).
      * intros h Hin. apply in_app_or in Hin as [Hin|[<-|Hin]].
        -- eapply Qlt_trans; [now apply Hpre|exact Hlt].
        -- exact Hlt.
        -- eapply Qle_lt_trans; [now apply Hmid|exact Hlt].
      * intros h [].
      * exists before, after. split; [|now split].
        rewrite <- Heq. cbn [app]. rewrite <- app_assoc. reflexivity.
    + destruct (IH acc pre (mid ++ [current])%list) as (before & after & Heq & Hb & Ha).
      * exact Hpre.
      * intros h Hin. apply in_app_or in Hin as [Hin|[<-|[]]];
          [now apply Hmid|exact Hle].
      * exists before, after. split; [|now split].
        rewrite <- Heq. rewrite <- app_assoc. reflexivity.
Qed.

Lemma getBestHighlight_split (hs : list Highlight) (best : Highlight) :
  getBestHighlight hs = Some best ->
  exists before after,
    hs = (before ++ best :: after)%list /\
    (forall h, In h before -> (score h < score best)%Q) /\
    (forall h, In h after -> (score h <= score best)%Q).
Proof.
  destruct hs as [|first rest]; [discriminate|].
  cbn [getBestHighlight]. intros [= <-].
  destruct (fold_better_split rest first [] []) as (before & after & Heq & Hb & Ha);
    [intros h []|intros h []|].
  exists before, after. now split.
Qed.

Lemma fold_better_score (rest : list Highlight) (acc : Highlight) :
  (score acc <= score (fold_left better rest acc))%Q.
Proof.
  revert acc. induction rest as [|current rest IH]; intros acc; cbn [fold_left].
  - apply Qle_refl.
  - destruct (better_cases acc current) as [[-> Hlt]|[-> Hle]].
    + eapply Qle_trans; [apply Qlt_le_weak; exact Hlt|apply IH].
    + apply IH.
Qed.

(** Filtering does not disturb a running best that passes the threshold. *)
Lemma fold_better_filter (minScore : Q) (rest : list Highlight) :
  forall acc,
    (minScore <= score acc)%Q ->
    fold_left better (filterHighlightsByScore rest minScore) acc
    = fold_left better rest acc.
Proof.
  induction rest as [|current rest IH]; intros acc Hacc; [reflexivity|].
  unfold filterHighlightsByScore in *. cbn [List.filter fold_left].
  destruct (JS.ge (score current) minScore) eqn:E.
  - cbn [fold_left]. apply IH.
    destruct (better_cases acc current) as [[-> _]|[-> _]];
      [now apply ge_iff|exact Hacc].
  - assert (Hlow : ~ (minScore <= score current)%Q).
    { intros Hle. apply ge_iff in Hle. congruence. }
    destruct (better_cases acc current) as [[_ Hlt]|[-> _]].
    + exfalso. apply Hlow. apply Qlt_le_weak. eapply Qle_lt_trans; eassumption.
    + now apply IH.
Qed.

Lemma getBest_filter_below (minScore : Q) (rest : list Highlight) :
  forall acc,
    ~ (minScore <= score acc)%Q ->
    getBestHighlight (filterHighlightsByScore rest minScore) =
    if JS.ge (score (fold_left better rest acc)) minScore
    then Some (fold_left better rest acc) else None.
Proof.
  induction rest as [|current rest IH]; intros acc Hacc.
  - cbn. destruct (JS.ge (score acc) minScore) eqn:E; [|reflexivity].
    apply ge_iff in E. contradiction.
  - unfold filterHighlightsByScore in *. cbn [List.filter fold_left].
    destruct (JS.ge (score current) minScore) eqn:E.
    + assert (Hcur : (minScore <= score current)%Q) by now apply ge_iff.
      cbn [getBestHighlight].
      pose proof (fold_better_filter minScore rest current Hcur) as Hfold.
      unfold filterHighlightsByScore in Hfold. rewrite Hfold.
      destruct (better_cases acc current) as [[-> _]|[_ Hle]].
      * assert (Hgood : JS.ge (score (fold_left better rest current)) minScore = true).
        { apply ge_iff. eapply Qle_trans; [exact Hcur|apply fold_better_score]. }
        now rewrite Hgood.
      * exfalso. apply Hacc. eapply Qle_trans; eassumption.
    + apply IH.
      destruct (better_cases acc current) as [[-> _]|[-> _]]; [|exact Hacc].
      intros Hle. apply ge_iff in Hle. congruence.
Qed.

Lemma filterHighlightsByScore_In (hs : list Highlight) (minScore : Q) (h : Highlight) :
  In h (filterHighlightsByScore hs minScore) <->
  In h hs /\ (minScore <= score h)%Q.
Proof.
  unfold filterHighlightsByScore. rewrite filter_In. now rewrite ge_iff.
Qed.

Lemma filter_filter_weaker {A} (p q : A -> bool) (xs : list A) :
  (forall x, q x = true -> p x = true) ->
  List.filter q (List.filter p xs) = List.filter q xs /\
  List.filter p (List.filter q xs) = List.filter q xs.
Proof.
  intros Himp. induction xs as [|x xs [IH1 IH2]]; [now split|].
  cbn [List.filter]. destruct (q x) eqn:Eq.
  - rewrite (Himp x Eq). cbn [List.filter]. rewrite Eq, (Himp x Eq).
    now rewrite IH1, IH2.
  - destruct (p x); cbn [List.filter]; rewrite ?Eq; now split.
Qed.

End SelectionFacts.

Section SelectionProperties.
Import Highlights.

(** X1.  [formatTime] prints a time that is not negative as its whole
    minutes in decimal, a colon and the remaining whole seconds on two
    digits.  The minutes are not wrapped at the hour, the fraction of a
    second is dropped, and sixty times the minutes plus the seconds give
    back the whole seconds of the time. *)
Theorem formatTime_minutes_seconds (seconds : Q) :
  (0 <= seconds)%Q ->
  formatTime seconds =
    JS.Z_toString 10 (wholeSeconds seconds / 60)
      ++ ":" ++ twoDigits (wholeSeconds seconds mod 60) /\
  0 <= wholeSeconds seconds / 60 /\
  0 <= wholeSeconds seconds mod 60 < 60 /\
  60 * (wholeSeconds seconds / 60) + wholeSeconds seconds mod 60
    = wholeSeconds seconds.
Proof.
  intros Hs. unfold formatTime.
  destruct (formatASSTime_fields seconds Hs) as (_ & _ & Hsecs & _).
  rewrite Hsecs.
  assert (Hmins : JS.Math_floor (seconds / 60) = wholeSeconds seconds / 60).
  { unfold JS.Math_floor, wholeSeconds. apply (floor_div_const seconds 60). lia. }
  rewrite Hmins.
  assert (Hfloor : 0 <= wholeSeconds seconds).
  { unfold wholeSeconds. change 0 with (Qfloor 0). now apply Qfloor_resp_le. }
  assert (Hrange : 0 <= wholeSeconds seconds mod 60 < 60) by (apply Z.mod_pos_bound; lia).
  split; [|split; [|split]].
  - f_equal. f_equal. apply (pad2_twoDigits (wholeSeconds seconds mod 60)). lia.
  - apply Z.div_pos; lia.
  - exact Hrange.
  - symmetry. apply Z.div_mod. lia.
Qed.

Lemma formatTime_minutes_seconds_witness :
  formatTime (3725 + (1 # 2)) = "62:05".
Proof.
  destruct (formatTime_minutes_seconds (3725 + (1 # 2))) as (Htext & _).
  - vm_compute. discriminate.
  - rewrite Htext. vm_compute. reflexivity.
Defined.

(** X2.  The thresholds of [filterHighlightsByScore] compose: filtering
    with a lower and then a higher minimum score, in either order, is
    filtering with the higher one.  The result for the higher threshold is
    a subsequence of the result for the lower one, which is a subsequence
    of the input, and an element is kept exactly when its score is at
    least the threshold. *)
Theorem filterHighlightsByScore_thresholds_compose :
  forall (hs : list Highlight) (low high : Q),
    (low <= high)%Q ->
    filterHighlightsByScore (filterHighlightsByScore hs low) high
      = filterHighlightsByScore hs high /\
    filterHighlightsByScore (filterHighlightsByScore hs high) low
      = filterHighlightsByScore hs high /\
    filterHighlightsByScore hs high `sublist_of` filterHighlightsByScore hs low /\
    filterHighlightsByScore hs low `sublist_of` hs /\
    (forall h, In h (filterHighlightsByScore hs low) <->
               In h hs /\ (low <= score h)%Q).
Proof.
  intros hs low high Hle.
  destruct (filter_filter_weaker
              (fun h => JS.ge (score h) low) (fun h => JS.ge (score h) high) hs)
    as [H1 H2].
  { intros h Hh. apply ge_iff. apply ge_iff in Hh. eapply Qle_trans; eassumption. }
  unfold filterHighlightsByScore at 1 2 3 4 5 6.
  split; [exact H1|]. split; [exact H2|]. split; [|split].
  - unfold filterHighlightsByScore. rewrite <- H1. apply filter_sublist.
  - apply filter_sublist.
  - intros h. apply filterHighlightsByScore_In.
Qed.

Lemma filterHighlightsByScore_thresholds_compose_witness :
  filterHighlightsByScore
    (filterHighlightsByScore
       [scoredHighlight "a" 40; scoredHighlight "b" 85; scoredHighlight "c" 70] 50) 80
  = [scoredHighlight "b" 85].
Proof.
  destruct (filterHighlightsByScore_thresholds_compose
              [scoredHighlight "a" 40; scoredHighlight "b" 85; scoredHighlight "c" 70]
              50 80) as (Hcompose & _).
  - vm_compute. discriminate.
  - rewrite Hcompose. vm_compute. reflexivity.
Defined.

(** X3.  [getBestHighlight] returns [null] exactly for the empty array;
    otherwise it returns an element of the array, and no element of the
    array has a higher score. *)
Theorem getBestHighlight_maximal :
  forall hs : list Highlight,
    (getBestHighlight hs = None <-> hs = []) /\
    (forall best,
        getBestHighlight hs = Some best ->
        In best hs /\ forall h, In h hs -> (score h <= score best)%Q).
Proof.
  intros hs. split.
  - destruct hs; cbn; split; congruence.
  - intros best Hbest.
    destruct (getBestHighlight_split hs best Hbest) as (before & after & -> & Hb & Ha).
    split; [apply in_elt|].
    intros h Hin. apply in_app_or in Hin as [Hin|[<-|Hin]].
    + apply Qlt_le_weak. now apply Hb.
    + apply Qle_refl.
    + now apply Ha.
Qed.

Lemma getBestHighlight_maximal_witness :
  getBestHighlight
    [scoredHighlight "a" 40; scoredHighlight "b" 85; scoredHighlight "c" 70]
  = Some (scoredHighlight "b" 85) /\
  (score (scoredHighlight "c" 70) <= score (scoredHighlight "b" 85))%Q.
Proof.
  split; [reflexivity|].
  destruct (getBestHighlight_maximal
              [scoredHighlight "a" 40; scoredHighlight "b" 85; scoredHighlight "c" 70])
    as (_ & Hmax).
  destruct (Hmax (scoredHighlight "b" 85) eq_refl) as (_ & Hle).
  apply Hle. cbn. auto.
Defined.

(** X4.  Among highlights that share the highest score
    [getBestHighlight] returns the earliest: every element before the one
    returned has a strictly lower score, every element after it a score
    that is not higher. *)
Theorem getBestHighlight_earliest_maximum :
  forall (hs : list Highlight) (best : Highlight),
    getBestHighlight hs = Some best ->
    exists before after,
      hs = (before ++ best :: after)%list /\
      (forall h, In h before -> (score h < score best)%Q) /\
      (forall h, In h after -> (score h <= score best)%Q).
Proof. exact getBestHighlight_split. Qed.

Lemma getBestHighlight_earliest_maximum_witness :
  exists before after,
    [scoredHighlight "a" 40; scoredHighlight "b" 85; scoredHighlight "c" 85]
      = (before ++ scoredHighlight "b" 85 :: after)%list /\
    (forall h, In h before -> (score h < 85)%Q) /\
    (forall h, In h after -> (score h <= 85)%Q).
Proof.
  apply (getBestHighlight_earliest_maximum
           [scoredHighlight "a" 40; scoredHighlight "b" 85; scoredHighlight "c" 85]
           (scoredHighlight "b" 85)).
  reflexivity.
Defined.

(** X5.  Filtering by score and then taking the best highlight is taking
    the best highlight and then checking it against the threshold: the best
    of the filtered array is the best of the whole array when that one
    reaches the minimum score, and [null] otherwise. *)
Theorem getBestHighlight_after_filter :
  forall (hs : list Highlight) (minScore : Q),
    getBestHighlight (filterHighlightsByScore hs minScore) =
    match getBestHighlight hs with
    | Some best => if JS.ge (score best) minScore then Some best else None
    | None => None
    end.
Proof.
  intros [|first rest] minScore; [reflexivity|].
  cbn [getBestHighlight].
  destruct (JS.ge (score first) minScore) eqn:E.
  - assert (Hfirst : (minScore <= score first)%Q) by now apply ge_iff.
    unfold filterHighlightsByScore. cbn [List.filter]. rewrite E.
    cbn [getBestHighlight].
    pose proof (fold_better_filter minScore rest first Hfirst) as Hfold.
    unfold filterHighlightsByScore in Hfold. rewrite Hfold.
    assert (Hgood : JS.ge (score (fold_left better rest first)) minScore = true).
    { apply ge_iff. eapply Qle_trans; [exact Hfirst|apply fold_better_score]. }
    now rewrite Hgood.
  - unfold filterHighlightsByScore. cbn [List.filter]. rewrite E.
    apply (getBest_filter_below minScore rest first).
    intros Hle. apply ge_iff in Hle. congruence.
Qed.

End SelectionProperties.

(** ** What highlight detection returns *)

Section DetectionFacts.
Import Highlights.

Lemma slice0_sublist {A} (q : Q) (xs : list A) : JS.slice0 q xs `sublist_of` xs.
Proof. unfold JS.slice0. apply sublist_take. Qed.

Lemma slice0_In {A} (q : Q) (xs : list A) (x : A) :
  In x (JS.slice0 q xs) -> In x xs.
Proof.
  intros Hin. apply list_elem_of_In.
  eapply elem_of_sublist; [apply list_elem_of_In; exact Hin|].
  apply slice0_sublist.
Qed.

Lemma validate_In (limit lo hi : Q) (hs : list Highlight) (h : Highlight) :
  In h (validate limit lo hi hs) ->
  In h hs /\
  (lo <= JS.sub (endTime h) (startTime h))%Q /\
  (JS.sub (endTime h) (startTime h) <= hi)%Q.
Proof.
  unfold validate. intros Hin. apply slice0_In in Hin.
  apply filter_In in Hin as [Hin Hvalid]. split; [exact Hin|].
  now apply isValid_spec.
Qed.

Lemma validate_sublist (limit lo hi : Q) (hs : list Highlight) :
  validate limit lo hi hs `sublist_of` hs.
Proof.
  unfold validate. etransitivity; [apply slice0_sublist|apply filter_sublist].
Qed.

Lemma validate_length (limit lo hi : Q) (hs : list Highlight) :
  (0 <= limit)%Q ->
  Z.of_nat (List.length (validate limit lo hi hs)) <= Qfloor limit.
Proof.
  intros Hlimit. unfold validate. rewrite (slice0_nonneg limit _ Hlimit).
  destruct (trunc_nonneg limit Hlimit) as [_ Hfloor].
  pose proof (firstn_le_length (Z.to_nat (Qfloor limit))
                (List.filter (isValid lo hi) hs)) as Hlen.
  lia.
Qed.

Lemma detectHighlights_returns isAvailable
    (oracle : nat -> Request -> completion HighlightsResult)
    segments options calls result :
  fst (detectHighlights isAvailable oracle segments options calls) = Return result ->
  exists object,
    oracle calls (buildRequest segments options) = Return object /\
    result = {| highlights :=
                  validate (default 5%Q (maxHighlights options))
                           (default 15%Q (minDuration options))
                           (default 60%Q (maxDuration options))
                           (highlights object);
                summary := summary object;
                mainTopics := mainTopics object |}.
Proof.
  destruct isAvailable; [|discriminate].
  rewrite detectHighlights_run. cbn [fst].
  destruct (oracle calls (buildRequest segments options)) as [object|t];
    [|discriminate].
  intros [= <-]. now exists object.
Qed.

End DetectionFacts.

Section DetectionProperties.
Import Highlights.

(** X6.  Whatever the options are, also with a negative limit: when
    [detectHighlights] returns, the model has answered, the highlights
    returned are a subsequence of the highlights of the answer, the summary
    and the main topics are those of the answer, and for every highlight
    returned the duration that the program computes, [endTime - startTime]
    rounded to the nearest binary64 number, is at least [minDuration] and
    at most [maxDuration].  With a limit that is not negative at most that
    many highlights are returned, and with [maxDuration] below
    [minDuration] none is. *)
Theorem detectHighlights_returns_valid_highlights :
  forall (isAvailable : bool)
         (oracle : nat -> Request -> completion HighlightsResult)
         segments options calls result,
    fst (detectHighlights isAvailable oracle segments options calls) = Return result ->
    let lo := default 15%Q (minDuration options) in
    let hi := default 60%Q (maxDuration options) in
    let limit := default 5%Q (maxHighlights options) in
    (exists object,
        oracle calls (buildRequest segments options) = Return object /\
        highlights result `sublist_of` highlights object /\
        summary result = summary object /\
        mainTopics result = mainTopics object) /\
    (forall h, In h (highlights result) ->
               (lo <= JS.sub (endTime h) (startTime h))%Q /\
               (JS.sub (endTime h) (startTime h) <= hi)%Q) /\
    ((0 <= limit)%Q -> Z.of_nat (List.length (highlights result)) <= Qfloor limit) /\
    ((hi < lo)%Q -> highlights result = []).
Proof.
  intros isAvailable oracle segments options calls result Hrun lo hi limit.
  apply detectHighlights_returns in Hrun as (object & Horacle & ->).
  cbn [highlights summary mainTopics]. fold lo hi limit.
  split; [|split; [|split]].
  - exists object. split; [exact Horacle|]. split; [apply validate_sublist|now split].
  - intros h Hin. now apply validate_In in Hin as (_ & Hlo & Hhi).
  - apply validate_length.
  - intros Hempty.
    destruct (validate limit lo hi (highlights object)) as [|h rest] eqn:E;
      [reflexivity|].
    assert (Hin : In h (validate limit lo hi (highlights object)))
      by (rewrite E; now left).
    apply validate_In in Hin as (_ & Hlo & Hhi).
    exfalso. apply (Qlt_not_le _ _ Hempty). eapply Qle_trans; eassumption.
Qed.

Lemma detectHighlights_returns_valid_highlights_witness :
  (15 <= JS.sub (endTime (demoHighlight 45 70)) (startTime (demoHighlight 45 70)))%Q /\
  (JS.sub (endTime (demoHighlight 45 70)) (startTime (demoHighlight 45 70)) <= 60)%Q.
Proof.
  pose proof (detectHighlights_returns_valid_highlights true
                (fun _ _ => Return (demoObject [demoHighlight 45 70;
                                                demoHighlight 120 155]))
                [] (limitedTo (-1)) 0%nat
                (demoObject [demoHighlight 45 70]) eq_refl) as (_ & Hvalid & _).
  apply Hvalid. now left.
Defined.

(** X7.  With the options that the clip routes pass to
    [detectHighlights], a run of a route gets at most five highlights, and
    for each of them the duration that the program computes,
    [endTime - startTime] rounded to the nearest binary64 number, is
    between 15 and 60, whatever the model answers.  The exact difference of
    the two times can fall outside these bounds only by the rounding: it is
    above [15 - 2^-49] and below [60 + 2^-47]. *)
Theorem route_clips_are_bounded :
  forall (isAvailable : bool)
         (oracle : nat -> Request -> completion HighlightsResult)
         segments calls result,
    fst (detectHighlights isAvailable oracle segments
           ProcessRoute.highlightOptions calls) = Return result ->
    (List.length (highlights result) <= 5)%nat /\
    (forall h, In h (highlights result) ->
               (15 <= JS.sub (endTime h) (startTime h))%Q /\
               (JS.sub (endTime h) (startTime h) <= 60)%Q /\
               (15 - (1 # 562949953421312) < endTime h - startTime h)%Q /\
               (endTime h - startTime h < 60 + (1 # 140737488355328))%Q).
Proof.
  intros isAvailable oracle segments calls result Hrun.
  apply detectHighlights_returns in Hrun as (object & _ & ->).
  cbn [highlights ProcessRoute.highlightOptions maxHighlights minDuration
       maxDuration default].
  split.
  - assert (Hlen := validate_length 5 15 60 (highlights object)).
    change (Qfloor 5) with 5 in Hlen.
    assert (Hfive : (0 <= 5)%Q) by (vm_compute; discriminate).
    specialize (Hlen Hfive). unfold id. lia.
  - intros h Hin. apply validate_In in Hin as (_ & Hlo & Hhi).
    unfold id in Hlo, Hhi. split; [exact Hlo|]. split; [exact Hhi|]. split.
    + apply Qnot_le_lt. intros Hshort.
      apply round64_monotone in Hshort. fold (JS.sub (endTime h) (startTime h)) in Hshort.
      assert (Hbelow : (JS.round64 (15 - (1 # 562949953421312)) < 15)%Q)
        by (vm_compute; reflexivity).
      lra.
    + apply Qnot_le_lt. intros Hlong.
      apply round64_monotone in Hlong. fold (JS.sub (endTime h) (startTime h)) in Hlong.
      assert (Habove : (60 < JS.round64 (60 + (1 # 140737488355328)))%Q)
        by (vm_compute; reflexivity).
      lra.
Qed.

Lemma route_clips_are_bounded_witness :
  (List.length [demoHighlight 45 70; demoHighlight 120 155] <= 5)%nat.
Proof.
  pose proof (route_clips_are_bounded true
                (fun _ _ => Return (demoObject [demoHighlight 10 (23 # 2);
                                                demoHighlight 45 70;
                                                demoHighlight 120 155]))
                [] 0%nat
                {| highlights := [demoHighlight 45 70; demoHighlight 120 155];
                   summary := "s"; mainTopics := [] |} eq_refl) as (Hlen & _).
  exact Hlen.
Defined.

End DetectionProperties.

(** ** Failures of caption grouping *)

Section GroupingProperties.
Import Captions.

(** X8.  How [generateCaptions] fails.  Without an API key it throws the
    configuration error as it is and makes no request.  With a key it makes
    exactly one request; when the request fails the error thrown is
    [Failed to generate captions: ] followed by the message of the cause
    ([Unknown error] for a thrown value that is not an [Error]), and every
    error it throws starts with that prefix. *)
Theorem generateCaptions_failure_contract :
  forall (toLowerCase trim : string -> string) (isAvailable : bool)
         (oracle : nat -> Request -> completion CaptionsResult)
         ws options calls,
    let request := buildRequest ws options in
    let outcome :=
      generateCaptions toLowerCase trim isAvailable oracle ws options calls in
    (isAvailable = false ->
     outcome =
       (Throw (ErrorObject
          "OpenAI API key not configured. Please set OPENAI_API_KEY in your .env file."),
        calls)) /\
    (isAvailable = true -> snd outcome = S calls) /\
    (forall t,
        isAvailable = true -> oracle calls request = Throw t ->
        fst outcome =
          Throw (ErrorObject ("Failed to generate captions: " ++ messageOf t))) /\
    (forall t,
        isAvailable = true -> fst outcome = Throw t ->
        exists cause, t = ErrorObject ("Failed to generate captions: " ++ cause)).
Proof.
  intros toLowerCase trim isAvailable oracle ws options calls request outcome.
  subst outcome request. split; [|split; [|split]].
  - intros ->. apply generateCaptions_unconfigured.
  - intros ->. now rewrite generateCaptions_run.
  - intros t -> Horacle. rewrite generateCaptions_run, Horacle. reflexivity.
  - intros t -> . rewrite generateCaptions_run. cbn [fst].
    destruct (oracle calls (buildRequest ws options)) as [object|cause].
    + destruct (0 <? _)%nat; [|discriminate]. intros [= <-]. eauto.
    + intros [= <-]. eauto.
Qed.

Lemma generateCaptions_failure_contract_witness :
  fst (generateCaptions JS.toLowerCase JS.trim true
         (fun _ _ => Throw OtherValue) demoTranscript noOptions 7%nat)
    = Throw (ErrorObject "Failed to generate captions: Unknown error") /\
  snd (generateCaptions JS.toLowerCase JS.trim true
         (fun _ _ => Throw OtherValue) demoTranscript noOptions 7%nat) = 8%nat /\
  generateCaptions JS.toLowerCase JS.trim false
    (fun _ _ => Throw OtherValue) demoTranscript noOptions 7%nat
    = (Throw (ErrorObject
         "OpenAI API key not configured. Please set OPENAI_API_KEY in your .env file."),
       7%nat).
Proof.
  pose proof (generateCaptions_failure_contract JS.toLowerCase JS.trim true
                (fun _ _ => Throw OtherValue) demoTranscript noOptions 7%nat)
    as (_ & Hcalls & Hcause & _).
  pose proof (generateCaptions_failure_contract JS.toLowerCase JS.trim false
                (fun _ _ => Throw OtherValue) demoTranscript noOptions 7%nat)
    as (Hconfig & _).
  split; [exact (Hcause OtherValue eq_refl eq_refl)|].
  split; [exact (Hcalls eq_refl)|exact (Hconfig eq_refl)].
Defined.

End GroupingProperties.

(** ** The words of a clip *)

Section WindowProperties.
Import Captions ProcessRoute.

Lemma clipWords_In words highlight original :
  In original (clipWords words highlight) <->
  In original words /\
  (Highlights.startTime highlight <= ts_start original)%Q /\
  (ts_end original <= Highlights.endTime highlight)%Q.
Proof.
  unfold clipWords. rewrite filter_In, andb_true_iff.
  unfold JS.ge, JS.le. now rewrite !Qle_bool_iff.
Qed.

(** X9.  The words that a clip route hands to [generateCaptions].  The
    words selected for a highlight are the words of the transcription, in
    their order, that start at or after the start of the highlight and end
    at or before its end; a word that crosses either boundary is left out.
    The adjusted words have the same texts in the same order.  The times
    of an adjusted word are those of the selected word minus the start of
    the highlight, in binary64 arithmetic: the start is not negative, the
    end is at most the duration [endTime - startTime] that the route
    computes for the clip, and the start is not after the end when that
    holds of the selected word.  Adding the start of the highlight again
    need not give back the time of the selected word. *)
Theorem adjustedWords_within_clip :
  forall (words : list WordTimestamp) (highlight : Highlights.Highlight),
    let selected := clipWords words highlight in
    let adjusted := adjustedWords selected highlight in
    selected `sublist_of` words /\
    List.map ts_word adjusted = List.map ts_word selected /\
    (forall original,
        In original selected <->
        In original words /\
        (Highlights.startTime highlight <= ts_start original)%Q /\
        (ts_end original <= Highlights.endTime highlight)%Q) /\
    (forall i word,
        adjusted !! i = Some word ->
        exists original,
          selected !! i = Some original /\
          ts_word word = ts_word original /\
          ts_start word
            = JS.sub (ts_start original) (Highlights.startTime highlight) /\
          ts_end word
            = JS.sub (ts_end original) (Highlights.startTime highlight) /\
          (0 <= ts_start word)%Q /\
          (ts_end word <= JS.sub (Highlights.endTime highlight)
                                 (Highlights.startTime highlight))%Q /\
          ((ts_start original <= ts_end original)%Q ->
           (ts_start word <= ts_end word)%Q)).
Proof.
  intros words highlight selected adjusted.
  split; [apply filter_sublist|]. split; [|split].
  - subst adjusted. unfold adjustedWords. rewrite List.map_map. reflexivity.
  - intros original. apply clipWords_In.
  - intros i word Hword. subst adjusted. unfold adjustedWords in Hword.
    rewrite lookup_map in Hword.
    destruct (selected !! i) as [original|] eqn:Hi; [|discriminate].
    injection Hword as <-. exists original. cbn [ts_word ts_start ts_end].
    assert (Hin : In original selected).
    { apply list_elem_of_In. eapply list_elem_of_lookup_2. exact Hi. }
    apply clipWords_In in Hin as (_ & Hstart & Hend).
    repeat split; try reflexivity.
    + now apply sub_nonneg.
    + now apply sub_monotone.
    + intros Hordered. now apply sub_monotone.
Qed.

Lemma adjustedWords_within_clip_witness :
  (exists original,
      clipWords demoTranscript demoWindow !! 0%nat = Some original /\
      ts_word original = "esto") /\
  List.map ts_word (adjustedWords (clipWords demoTranscript demoWindow) demoWindow)
    = ["esto"; "es"; "importante"] /\
  (JS.sub (double (114 # 100)) (double (13 # 100))
     <= JS.sub 20 (double (13 # 100)))%Q /\
  ~ (JS.round64 (JS.sub (double (114 # 100)) (double (13 # 100))
                  + double (13 # 100))
       == double (114 # 100))%Q.
Proof.
  split; [|split; [|split]].
  - destruct (adjustedWords_within_clip demoTranscript demoWindow)
      as (_ & _ & _ & Hat).
    destruct (Hat 0%nat
                (demoWord "esto" (JS.sub (3 # 4) (3 # 4)) (JS.sub (5 # 4) (3 # 4)))
                eq_refl) as (original & Hsel & Hword & _).
    exists original. split; [exact Hsel|]. now rewrite <- Hword.
  - reflexivity.
  - destruct (adjustedWords_within_clip
                [demoWord "uno" (double (13 # 100)) (double (114 # 100))]
                (demoHighlight (double (13 # 100)) 20)) as (_ & _ & _ & Hat).
    destruct (Hat 0%nat
                (demoWord "uno"
                   (JS.sub (double (13 # 100)) (double (13 # 100)))
                   (JS.sub (double (114 # 100)) (double (13 # 100)))))
      as (original & _ & _ & _ & _ & _ & Hend & _).
    + vm_compute. reflexivity.
    + exact Hend.
  - vm_compute. discriminate.
Defined.

(** X10.  From a clip route to the captions: when [generateCaptions]
    returns for the adjusted words of a highlight, every word of every
    caption segment is, up to case and surrounding white space, a word of
    the transcription that is spoken inside the highlight. *)
Theorem clip_captions_use_words_of_the_window :
  forall (toLowerCase trim : string -> string) (isAvailable : bool)
         (oracle : nat -> Request -> completion CaptionsResult)
         (words : list WordTimestamp) (highlight : Highlights.Highlight)
         language calls result,
    fst (generateCaptions toLowerCase trim isAvailable oracle
           (adjustedWords (clipWords words highlight) highlight)
           (captionOptions language) calls) = Return result ->
    forall segment w,
      In segment (captions result) -> In w (Captions.words segment) ->
      exists original,
        In original words /\
        (Highlights.startTime highlight <= ts_start original)%Q /\
        (ts_end original <= Highlights.endTime highlight)%Q /\
        normalize toLowerCase trim (word w)
          = normalize toLowerCase trim (ts_word original).
Proof.
  intros toLowerCase trim isAvailable oracle words highlight language calls result
         Hrun segment w Hsegment Hw.
  destruct isAvailable;
    [|rewrite generateCaptions_unconfigured in Hrun; discriminate].
  rewrite generateCaptions_run in Hrun. cbn [fst] in Hrun.
  destruct (oracle calls _) as [object|t]; [|discriminate].
  destruct (hallucinatedWords toLowerCase trim _ object) as [|bad rest] eqn:Hnone;
    [|discriminate].
  cbn in Hrun. injection Hrun as ->.
  assert (Hknown : normalize toLowerCase trim (word w)
                     ∈ originalWords toLowerCase trim
                         (adjustedWords (clipWords words highlight) highlight)).
  { destruct (decide (normalize toLowerCase trim (word w)
                        ∈ originalWords toLowerCase trim
                            (adjustedWords (clipWords words highlight) highlight)))
      as [Hin|Hout]; [exact Hin|].
    exfalso.
    assert (Hbad : In (normalize toLowerCase trim (word w))
                      (hallucinatedWords toLowerCase trim
                         (adjustedWords (clipWords words highlight) highlight) result)).
    { apply hallucinatedWords_spec. split; [|exact Hout].
      apply captionWords_spec. now exists segment, w. }
    rewrite Hnone in Hbad. exact Hbad. }
  apply originalWords_spec in Hknown as (input & Hinput & Heq).
  unfold adjustedWords in Hinput. apply in_map_iff in Hinput as (original & <- & Hin).
  apply clipWords_In in Hin as (Hin & Hstart & Hend).
  exists original. cbn [ts_word] in Heq. now repeat split.
Qed.

Lemma clip_captions_use_words_of_the_window_witness :
  exists original,
    In original demoTranscript /\
    (3 # 4 <= ts_start original)%Q /\ (ts_end original <= 2)%Q /\
    JS.trim (JS.toLowerCase "esto") = JS.trim (JS.toLowerCase (ts_word original)).
Proof.
  apply (clip_captions_use_words_of_the_window JS.toLowerCase JS.trim true
           (fun _ _ => Return demoWindowAnswer) demoTranscript demoWindow
           (Some "es") 0%nat demoWindowAnswer)
    with (segment := demoSegment [demoCaptionWord "esto" 0 (1 # 2);
                                  demoCaptionWord "es" (1 # 2) (3 # 4)])
         (w := demoCaptionWord "esto" 0 (1 # 2)).
  - vm_compute. reflexivity.
  - cbn. auto.
  - cbn. auto.
Defined.

End WindowProperties.

(** ** What the encoder reads *)

Section EncoderFacts.
Import Captions.
Variable Number_toString : Q -> string.

Lemma karaokeCue_highlightColor (st1 st2 : Style) (ws : list CaptionWord)
    (active : CaptionWord) :
  highlightColor st1 = highlightColor st2 ->
  karaokeCue st1 ws active = karaokeCue st2 ws active.
Proof.
  intros Hcolor. unfold karaokeCue.
  assert (Htext : List.map (renderWord st1 active) ws
                  = List.map (renderWord st2 active) ws).
  { apply map_ext. intros w. unfold renderWord. now rewrite Hcolor. }
  now rewrite Htext.
Qed.

Lemma allCues_words (c : CaptionsResult) :
  allCues c =
  List.flat_map (fun ws => List.map (karaokeCue (style c) ws) ws)
                (List.map words (captions c)).
Proof.
  unfold allCues, karaokeCues.
  induction (captions c) as [|segment rest IH]; [reflexivity|].
  cbn [List.map List.flat_map]. now rewrite IH.
Qed.

Lemma header_style (st1 st2 : Style) :
  fontSize st1 = fontSize st2 -> highlightColor st1 = highlightColor st2 ->
  header Number_toString st1 = header Number_toString st2.
Proof.
  intros Hsize Hcolor. unfold header. rewrite !headerLines_text.
  now rewrite Hsize, Hcolor.
Qed.

Lemma events_skip_empty (st : Style) (segments : list CaptionSegment) :
  JS.join ""
    (List.map (fun segment => generateKaraokeEvents segment st)
       (List.filter (fun segment => negb (List.length (words segment) =? 0)%nat)
                    segments))
  = JS.join "" (List.map (fun segment => generateKaraokeEvents segment st) segments).
Proof.
  induction segments as [|segment rest IH]; [reflexivity|].
  cbn [List.filter List.map].
  destruct (words segment) as [|w ws] eqn:Hwords.
  - cbn [List.length Nat.eqb negb]. rewrite join_empty_cons, IH.
    unfold generateKaraokeEvents, karaokeCues. rewrite Hwords. reflexivity.
  - cbn [List.length Nat.eqb negb List.map]. rewrite !join_empty_cons. now rewrite IH.
Qed.

Lemma events_of_empty (st : Style) (segments : list CaptionSegment) :
  (forall segment, In segment segments -> words segment = []) ->
  JS.join "" (List.map (fun segment => generateKaraokeEvents segment st) segments) = "".
Proof.
  induction segments as [|segment rest IH]; intros Hempty; [reflexivity|].
  cbn [List.map]. rewrite join_empty_cons, IH by (intros s Hs; apply Hempty; now right).
  unfold generateKaraokeEvents, karaokeCues. rewrite (Hempty segment) by now left.
  reflexivity.
Qed.

Lemma substring_beyond (n m : nat) (s : string) :
  (String.length s <= n)%nat -> String.substring n m s = "".
Proof.
  revert s. induction n as [|n IH]; intros [|c s] Hlen; cbn in *;
    try reflexivity; try lia.
  - destruct m; reflexivity.
  - apply IH. lia.
Qed.

Lemma Qfloor_negative (x : Q) : (x < 0)%Q -> Qfloor x < 0.
Proof.
  intros Hx. destruct (Qfloor_bounds x) as [Hlow _].
  assert (Hlt : (inject_Z (Qfloor x) < inject_Z 0)%Q)
    by (eapply Qle_lt_trans; [exact Hlow|exact Hx]).
  rewrite Zlt_Qlt. exact Hlt.
Qed.

End EncoderFacts.

Section EncoderProperties.
Import Captions.

(** X11.  What [captionsToASS] reads.  The track depends on the result
    only through the words of its segments, the font size and the highlight
    colour: the start and end times of the segments, their position, the
    text colour of the style and the hook have no effect on it. *)
Theorem captionsToASS_ignores_layout :
  forall (Number_toString : Q -> string) (c1 c2 : CaptionsResult),
    List.map words (captions c1) = List.map words (captions c2) ->
    fontSize (style c1) = fontSize (style c2) ->
    highlightColor (style c1) = highlightColor (style c2) ->
    captionsToASS Number_toString c1 = captionsToASS Number_toString c2.
Proof.
  intros Number_toString c1 c2 Hwords Hsize Hcolor.
  rewrite !captionsToASS_text, !allCues_words, Hwords.
  rewrite (header_style Number_toString _ _ Hsize Hcolor). do 2 f_equal.
  apply flat_map_ext. intros ws. apply map_ext. intros active.
  now apply karaokeCue_highlightColor.
Qed.

Lemma captionsToASS_ignores_layout_witness :
  captionsToASS integerToString demoRearranged
  = captionsToASS integerToString demoPlain.
Proof.
  apply (captionsToASS_ignores_layout integerToString demoRearranged demoPlain);
    reflexivity.
Defined.

(** X12.  [captionsToASS] does not fail on segments without words: they
    contribute nothing to the track, and a result in which no segment has a
    word is encoded as the header alone. *)
Theorem captionsToASS_skips_empty_segments :
  forall (Number_toString : Q -> string) (c : CaptionsResult),
    captionsToASS Number_toString (withoutEmptySegments c)
      = captionsToASS Number_toString c /\
    ((forall segment, In segment (captions c) -> words segment = []) ->
     captionsToASS Number_toString c = header Number_toString (style c)).
Proof.
  intros Number_toString c. unfold captionsToASS. split.
  - cbn [withoutEmptySegments captions style]. now rewrite events_skip_empty.
  - intros Hempty. rewrite (events_of_empty _ _ Hempty). apply append_empty_r.
Qed.

Lemma captionsToASS_skips_empty_segments_witness :
  captionsToASS integerToString demoWithEmptySegment
    = captionsToASS integerToString demoPlain /\
  captionsToASS integerToString (demoCaptions [demoSegment []; demoSegment []])
    = header integerToString demoStyle.
Proof.
  destruct (captionsToASS_skips_empty_segments integerToString demoWithEmptySegment)
    as [Hskip _].
  destruct (captionsToASS_skips_empty_segments integerToString
              (demoCaptions [demoSegment []; demoSegment []])) as [_ Hheader].
  split.
  - rewrite <- Hskip. reflexivity.
  - apply Hheader. intros segment [<-|[<-|[]]]; reflexivity.
Defined.

(** X13.  The stamp of [formatASSTime] for a time that is a binary64
    number and not negative.  The four fields that the function computes
    are the hours, the minutes below 60, the seconds below 60 and the
    centiseconds below 100 that are printed.  Read as a time they give the
    whole centiseconds of the input or, when the product of the fractional
    part by 100 rounds up to the next integer, one centisecond more: the
    stamp is within a centisecond of the time, and it can be later than the
    time. *)
Theorem formatASSTime_centiseconds :
  forall seconds : Q,
    (0 <= seconds)%Q -> JS.isDouble seconds = true ->
    let hours := JS.Math_floor (seconds / 3600) in
    let minutes := JS.Math_floor (JS.rem seconds 3600 / 60) in
    let secs := JS.Math_floor (JS.rem seconds 60) in
    let centiseconds := JS.Math_floor (JS.mul (JS.rem seconds 1) 100) in
    formatASSTime seconds =
      JS.Z_toString 10 hours ++ ":" ++ twoDigits minutes ++ ":" ++ twoDigits secs
        ++ "." ++ twoDigits centiseconds /\
    0 <= hours /\ 0 <= minutes < 60 /\ 0 <= secs < 60 /\ 0 <= centiseconds < 100 /\
    (centisecondsOf hours minutes secs centiseconds = wholeCentiseconds seconds \/
     centisecondsOf hours minutes secs centiseconds = wholeCentiseconds seconds + 1) /\
    (seconds - (1 # 100)
       < inject_Z (centisecondsOf hours minutes secs centiseconds) / 100)%Q /\
    (inject_Z (centisecondsOf hours minutes secs centiseconds) / 100
       <= seconds + (1 # 100))%Q.
Proof.
  intros seconds Hs Hdouble hours minutes secs centiseconds.
  destruct (formatASSTime_fields seconds Hs) as (Hh & Hm & Hsec & _).
  fold hours in Hh. fold minutes in Hm. fold secs in Hsec.
  pose proof (printedCentiseconds_near seconds Hs) as Hnear.
  pose proof (printedCentiseconds_double seconds Hs Hdouble) as Hrange.
  change (printedCentiseconds seconds) with centiseconds in Hnear, Hrange.
  assert (Hwhole : wholeSeconds seconds = wholeCentiseconds seconds / 100).
  { unfold wholeSeconds, wholeCentiseconds.
    rewrite <- (floor_div_const (seconds * 100) 100) by lia.
    apply Qfloor_comp. change (inject_Z 100) with 100%Q. field. }
  assert (Hfloor : 0 <= wholeCentiseconds seconds).
  { unfold wholeCentiseconds. change 0 with (Qfloor 0). apply Qfloor_resp_le.
    change 0%Q with (0 * 100)%Q. apply Qmult_le_compat_r; [exact Hs|].
    vm_compute. discriminate. }
  assert (Hvalue : centisecondsOf hours minutes secs centiseconds
                   = wholeCentiseconds seconds - wholeCentiseconds seconds mod 100
                     + centiseconds).
  { unfold centisecondsOf. rewrite Hh, Hm, Hsec, Hwhole.
    generalize (wholeCentiseconds seconds) centiseconds. intros C cs.
    Z.div_mod_to_equations. lia. }
  destruct (Qfloor_bounds (seconds * 100)) as [Hlow Hhigh].
  fold (wholeCentiseconds seconds) in Hlow, Hhigh.
  assert (Hcases : centisecondsOf hours minutes secs centiseconds
                     = wholeCentiseconds seconds \/
                   centisecondsOf hours minutes secs centiseconds
                     = wholeCentiseconds seconds + 1) by lia.
  split; [|split; [|split; [|split; [|split; [|split; [|split]]]]]].
  - rewrite (formatASSTime_nonneg seconds Hs Hdouble).
    now rewrite Hh, Hm, Hsec.
  - rewrite Hh, Hwhole. Z.div_mod_to_equations. lia.
  - rewrite Hm. Z.div_mod_to_equations. lia.
  - rewrite Hsec. Z.div_mod_to_equations. lia.
  - exact Hrange.
  - exact Hcases.
  - apply Qlt_shift_div_l; [reflexivity|].
    destruct Hcases as [-> | ->]; [|rewrite inject_Z_plus; change (inject_Z 1) with 1%Q];
      revert Hlow Hhigh; generalize (inject_Z (wholeCentiseconds seconds));
      intros q Hlow Hhigh; lra.
  - apply Qle_shift_div_r; [reflexivity|].
    destruct Hcases as [-> | ->]; [|rewrite inject_Z_plus; change (inject_Z 1) with 1%Q];
      revert Hlow Hhigh; generalize (inject_Z (wholeCentiseconds seconds));
      intros q Hlow Hhigh; lra.
Qed.

Lemma formatASSTime_centiseconds_witness :
  formatASSTime (double (435 # 100)) = "0:00:04.34" /\
  centisecondsOf 0 0 4 34 = wholeCentiseconds (double (435 # 100)) /\
  formatASSTime (double (35 # 100)) = "0:00:00.35" /\
  centisecondsOf 0 0 0 35 = wholeCentiseconds (double (35 # 100)) + 1 /\
  (double (35 # 100) < inject_Z (centisecondsOf 0 0 0 35) / 100)%Q.
Proof.
  destruct (formatASSTime_centiseconds (double (435 # 100)))
    as (Htext1 & _); [vm_compute; discriminate|vm_compute; reflexivity|].
  destruct (formatASSTime_centiseconds (double (35 # 100)))
    as (Htext2 & _); [vm_compute; discriminate|vm_compute; reflexivity|].
  split; [rewrite Htext1; vm_compute; reflexivity|].
  split; [vm_compute; reflexivity|].
  split; [rewrite Htext2; vm_compute; reflexivity|].
  split; vm_compute; reflexivity.
Defined.

(** X14.  [formatASSTime] does not guard against negative times: for a
    negative time the hours are negative and the stamp starts with a minus
    sign. *)
Theorem formatASSTime_negative_time :
  forall seconds : Q,
    (seconds < 0)%Q ->
    JS.Math_floor (seconds / 3600) < 0 /\
    exists rest, formatASSTime seconds = String "-" rest.
Proof.
  intros seconds Hs.
  assert (Hneg : JS.Math_floor (seconds / 3600) < 0).
  { apply Qfloor_negative.
    assert (Hscale : (seconds / 3600 == seconds * (1 # 3600))%Q) by field.
    rewrite Hscale. lra. }
  split; [exact Hneg|].
  unfold formatASSTime, JS.Z_toString at 1.
  apply Z.ltb_lt in Hneg. rewrite Hneg. eexists. reflexivity.
Qed.

Lemma formatASSTime_negative_time_witness :
  formatASSTime (- (1 # 2)) = "-1:-1:-1.-50" /\
  exists rest, formatASSTime (- (1 # 2)) = String "-" rest.
Proof.
  split; [vm_compute; reflexivity|].
  apply (formatASSTime_negative_time (- (1 # 2))). vm_compute. reflexivity.
Defined.

(** X15.  [hexToASSColor] does not validate the colour it is given: when
    fewer than five characters remain after the first [#], as in the
    shorthand [#FFF], there is nothing to parse for the blue channel and
    the token carries [NAN] in its place. *)
Theorem hexToASSColor_short_colour :
  forall (hex : string) (alpha : Q),
    (String.length (JS.removeFirst "#" hex) <= 4)%nat ->
    exists green red,
      hexToASSColor hex alpha =
        "&H" ++ hexByte (Some (JS.Math_round ((1 - alpha) * 255)%Q))
             ++ "NAN" ++ green ++ red.
Proof.
  intros hex alpha Hshort. unfold hexToASSColor.
  exists (hexByte (parseInt16 (JS.substring 2 4 (JS.removeFirst "#" hex)))),
         (hexByte (parseInt16 (JS.substring 0 2 (JS.removeFirst "#" hex)))).
  unfold JS.substring at 1. rewrite (substring_beyond 4 _ _ Hshort).
  reflexivity.
Qed.

Lemma hexToASSColor_short_colour_witness :
  hexToASSColor "#FFF" 1 = "&H00NAN0FFF" /\
  exists green red,
    hexToASSColor "#FFF" 1 =
      "&H" ++ hexByte (Some (JS.Math_round ((1 - 1) * 255)%Q)) ++ "NAN" ++ green ++ red.
Proof.
  split; [vm_compute; reflexivity|].
  apply (hexToASSColor_short_colour "#FFF" 1). vm_compute. lia.
Defined.

End EncoderProperties.

(** ** Files and outcomes of the processor *)

Section FrameFacts.
Import Processor.
Variable env : Environment.
Variable Number_toString : Q -> string.

Lemma keeps_ret {A} path (a : A) : keeps path (ret a).
Proof. intros w. reflexivity. Qed.

Lemma keeps_throw {A} path t : keeps path (@throw World A t).
Proof. intros w. reflexivity. Qed.

Lemma keeps_bind {A B} path (m : Eff World A) (k : A -> Eff World B) :
  keeps path m -> (forall a, keeps path (k a)) -> keeps path (bind m k).
Proof.
  intros Hm Hk w. unfold bind. specialize (Hm w).
  destruct (m w) as [[a|t] w']; cbn [snd] in *; [now rewrite Hk|exact Hm].
Qed.

Lemma keeps_tryCatch {A} path (m : Eff World A) (h : thrown -> Eff World A) :
  keeps path m -> (forall t, keeps path (h t)) -> keeps path (tryCatch m h).
Proof.
  intros Hm Hh w. unfold tryCatch. specialize (Hm w).
  destruct (m w) as [[a|t] w']; cbn [snd] in *; [exact Hm|now rewrite Hh].
Qed.

Lemma keeps_Date_now path : keeps path (Date_now env).
Proof. intros w. reflexivity. Qed.

Lemma keeps_unlink path target : path <> target -> keeps path (unlink env target).
Proof.
  intros Hne w. unfold unlink. destruct (files w !! target); [|reflexivity].
  destruct (unlinkFault env target w); [reflexivity|].
  cbn. now rewrite lookup_delete_ne.
Qed.

Lemma keeps_unlinkQuietly path target :
  path <> target -> keeps path (unlinkQuietly env target).
Proof.
  intros Hne. apply keeps_tryCatch; [now apply keeps_unlink|].
  intros t. apply keeps_ret.
Qed.

Lemma keeps_writeFile path target content :
  path <> target -> keeps path (writeFile env target content).
Proof.
  intros Hne w. unfold writeFile. destruct (writeFault env target w); [reflexivity|].
  cbn. now rewrite lookup_insert_ne.
Qed.

Lemma keeps_rename path oldPath newPath :
  path <> oldPath -> path <> newPath -> keeps path (rename env oldPath newPath).
Proof.
  intros Hold Hnew w. unfold rename.
  destruct (files w !! oldPath); [|reflexivity].
  destruct (renameFault env oldPath newPath w); [reflexivity|].
  cbn. rewrite lookup_insert_ne by congruence. now rewrite lookup_delete_ne.
Qed.

Lemma keeps_runEngine {A} path call (onEnd : Eff World A)
    (onError : string -> Eff World A) :
  path <> outputOf call -> keeps path onEnd ->
  (forall message, keeps path (onError message)) ->
  keeps path (runEngine env call onEnd onError).
Proof.
  intros Hne HonEnd HonError w. unfold runEngine.
  destruct (engine env call w) as [written|message [part|]].
  - rewrite HonEnd. cbn. now rewrite lookup_insert_ne.
  - rewrite HonError. cbn. now rewrite lookup_insert_ne.
  - now rewrite HonError.
Qed.

Lemma keeps_extractClip path inputPath startTime endTime outputPath :
  path <> outputPath ->
  keeps path (extractClip env inputPath startTime endTime outputPath).
Proof.
  intros Hne. apply keeps_runEngine; [exact Hne|apply keeps_ret|].
  intros message. apply keeps_throw.
Qed.

Lemma keeps_cropToVertical path inputPath outputPath options :
  path <> outputPath ->
  keeps path (cropToVertical env inputPath outputPath options).
Proof.
  intros Hne w. unfold cropToVertical.
  destruct (ffprobe env inputPath w) as [message|metadata]; [reflexivity|].
  destruct (List.find _ (streams metadata)) as [videoStream|]; [|reflexivity].
  destruct (falsy (stream_width videoStream) || falsy (stream_height videoStream));
    [reflexivity|].
  apply keeps_runEngine; [exact Hne|apply keeps_ret|].
  intros message. apply keeps_throw.
Qed.

Lemma keeps_burnCaptions path inputPath captionsResult outputPath :
  path <> outputPath -> (forall now, path <> assPathOf env now) ->
  keeps path (burnCaptions env Number_toString inputPath captionsResult outputPath).
Proof.
  intros Hne Hass w. rewrite burnCaptions_unfold.
  set (assPath := assPathOf env (clock env (clockReads w))).
  assert (Hne' : path <> assPath) by apply Hass.
  change (files w !! path) with (files (tick w) !! path).
  generalize (tick w). unfold burnWith.
  apply keeps_bind; [now apply keeps_writeFile|].
  intros _. apply keeps_runEngine; [exact Hne| |].
  - apply keeps_bind; [now apply keeps_unlinkQuietly|]. intros _. apply keeps_ret.
  - intros message. apply keeps_bind; [now apply keeps_unlinkQuietly|].
    intros _. apply keeps_throw.
Qed.

(** The stages between the extraction and the last one leave a file as it
    is when the last one does. *)
Lemma keeps_createClipBody_when path inputVideoPath startTime endTime
    captionsResult outputPath shouldCrop shouldBurnCaptions timestamp :
  path <> extractedPathOf env timestamp -> path <> croppedPathOf env timestamp ->
  (forall processedPath,
      path <> processedPath ->
      keeps path
        (match shouldBurnCaptions, captionsResult with
         | true, Some captionsResult =>
             bind (burnCaptions env Number_toString processedPath
                                captionsResult outputPath)
                  (fun _ => unlink env processedPath)
         | _, _ => rename env processedPath outputPath
         end)) ->
  keeps path (createClipBody env Number_toString inputVideoPath startTime endTime
                captionsResult outputPath shouldCrop shouldBurnCaptions timestamp).
Proof.
  intros Hextracted Hcropped Hfinish. unfold createClipBody.
  apply keeps_bind; [now apply keeps_extractClip|]. intros _.
  destruct shouldCrop.
  - intros w. unfold bind at 1.
    pose proof (keeps_bind path
                  (cropToVertical env (extractedPathOf env timestamp)
                                  (croppedPathOf env timestamp) None)
                  (fun _ => bind (unlink env (extractedPathOf env timestamp))
                                 (fun _ => ret (croppedPathOf env timestamp)))
                  (keeps_cropToVertical _ _ _ _ Hcropped)) as Hcrop.
    specialize (Hcrop (fun _ => keeps_bind _ _ _ (keeps_unlink _ _ Hextracted)
                                           (fun _ => keeps_ret _ _)) w).
    destruct (bind (cropToVertical env _ _ None) _ w) as [[processedPath|t] w1] eqn:E;
      cbn [snd] in *; [|exact Hcrop].
    rewrite <- Hcrop.
    assert (processedPath = croppedPathOf env timestamp) as ->.
    { apply bind_returns in E as (u & w2 & _ & E).
      apply bind_returns in E as (u' & w3 & _ & E). now injection E as <- _. }
    now apply Hfinish.
  - intros w. unfold bind, ret. now apply Hfinish.
Qed.

Lemma keeps_createClipBody path inputVideoPath startTime endTime captionsResult
    outputPath shouldCrop shouldBurnCaptions timestamp :
  path <> outputPath ->
  path <> extractedPathOf env timestamp -> path <> croppedPathOf env timestamp ->
  (forall now, path <> assPathOf env now) ->
  keeps path (createClipBody env Number_toString inputVideoPath startTime endTime
                captionsResult outputPath shouldCrop shouldBurnCaptions timestamp).
Proof.
  intros Hout Hextracted Hcropped Hass.
  apply keeps_createClipBody_when; [exact Hextracted|exact Hcropped|].
  intros processedPath Hprocessed.
  destruct shouldBurnCaptions, captionsResult as [captions|];
    try (now apply keeps_rename).
  apply keeps_bind; [now apply keeps_burnCaptions|].
  intros _. now apply keeps_unlink.
Qed.

(** Without the burn stage the subtitle files need no mention. *)
Lemma keeps_createClipBody_plain path inputVideoPath startTime endTime
    captionsResult outputPath shouldCrop shouldBurnCaptions timestamp :
  captionsResult = None \/ shouldBurnCaptions = false ->
  path <> outputPath ->
  path <> extractedPathOf env timestamp -> path <> croppedPathOf env timestamp ->
  keeps path (createClipBody env Number_toString inputVideoPath startTime endTime
                captionsResult outputPath shouldCrop shouldBurnCaptions timestamp).
Proof.
  intros Hplain Hout Hextracted Hcropped.
  apply keeps_createClipBody_when; [exact Hextracted|exact Hcropped|].
  intros processedPath Hprocessed.
  destruct Hplain as [-> | ->];
    [destruct shouldBurnCaptions|destruct captionsResult];
    now apply keeps_rename.
Qed.

Lemma keeps_createClip path inputVideoPath startTime endTime captionsResult
    outputPath options w :
  path <> outputPath ->
  path <> extractedPathOf env (clock env (clockReads w)) ->
  path <> croppedPathOf env (clock env (clockReads w)) ->
  (forall now, path <> assPathOf env now) ->
  files (snd (createClip env Number_toString inputVideoPath startTime endTime
                         captionsResult outputPath options w)) !! path
  = files w !! path.
Proof.
  intros Hout Hextracted Hcropped Hass. rewrite createClip_unfold.
  change (files w !! path) with (files (tick w) !! path).
  generalize (tick w).
  apply keeps_tryCatch; [now apply keeps_createClipBody|].
  intros t. apply keeps_bind; [now apply keeps_unlinkQuietly|].
  intros _. apply keeps_bind; [now apply keeps_unlinkQuietly|].
  intros _. apply keeps_throw.
Qed.

(** The output of [burnCaptions] exists when it returns. *)
Lemma burnCaptions_output inputPath captionsResult outputPath w u w' :
  (forall now, outputPath <> assPathOf env now) ->
  burnCaptions env Number_toString inputPath captionsResult outputPath w
    = (Return u, w') ->
  exists_ outputPath w'.
Proof.
  intros Hass. rewrite burnCaptions_unfold.
  set (assPath := assPathOf env (clock env (clockReads w))).
  assert (Hne : outputPath <> assPath) by apply Hass.
  generalize (tick w). intros w0. unfold burnWith, bind at 1, writeFile.
  destruct (writeFault env assPath w0); [discriminate|].
  unfold runEngine. destruct (engine env _ _) as [written|message leftBehind].
  - unfold bind, unlinkQuietly, tryCatch, unlink, ret. cbn [files].
    destruct (_ !! assPath); [destruct (unlinkFault env assPath _)|];
      intros [= _ <-]; unfold exists_; cbn [files];
      rewrite ?lookup_delete_ne by congruence; rewrite lookup_insert_eq; eauto.
  - unfold bind, ffmpegError, throw.
    destruct (unlinkQuietly env assPath _) as [[u0|t] w1]; discriminate.
Qed.

Lemma finish_output processedPath captionsResult outputPath shouldBurnCaptions
    w u w' :
  processedPath <> outputPath ->
  (forall now, outputPath <> assPathOf env now) ->
  match shouldBurnCaptions, captionsResult with
  | true, Some captionsResult =>
      bind (burnCaptions env Number_toString processedPath captionsResult outputPath)
           (fun _ => unlink env processedPath)
  | _, _ => rename env processedPath outputPath
  end w = (Return u, w') ->
  exists_ outputPath w'.
Proof.
  intros Hprocessed Hass Hrun.
  assert (Hrename : forall w0 u0 w0',
             rename env processedPath outputPath w0 = (Return u0, w0') ->
             exists_ outputPath w0').
  { intros w0 u0 w0'. unfold rename.
    destruct (files w0 !! processedPath); [|discriminate].
    destruct (renameFault env processedPath outputPath w0); [discriminate|].
    intros [= _ <-]. unfold exists_. cbn [files]. rewrite lookup_insert_eq. eauto. }
  destruct shouldBurnCaptions, captionsResult as [captions|];
    try (now apply (Hrename w u w')).
  apply bind_returns in Hrun as (u1 & w1 & Hburn & Hunlink).
  apply burnCaptions_output in Hburn; [|exact Hass].
  unfold unlink in Hunlink. destruct (files w1 !! processedPath); [|discriminate].
  destruct (unlinkFault env processedPath w1); [discriminate|].
  injection Hunlink as _ <-. unfold exists_ in *. cbn [files].
  rewrite lookup_delete_ne by congruence. exact Hburn.
Qed.

Lemma createClipBody_output inputVideoPath startTime endTime captionsResult
    outputPath shouldCrop shouldBurnCaptions timestamp w u w' :
  outputPath <> extractedPathOf env timestamp ->
  outputPath <> croppedPathOf env timestamp ->
  (forall now, outputPath <> assPathOf env now) ->
  createClipBody env Number_toString inputVideoPath startTime endTime captionsResult
                 outputPath shouldCrop shouldBurnCaptions timestamp w = (Return u, w') ->
  exists_ outputPath w'.
Proof.
  intros Hout1 Hout2 Hass Hrun. unfold createClipBody in Hrun.
  apply bind_returns in Hrun as (u1 & w1 & _ & Hrun).
  apply bind_returns in Hrun as (processedPath & w2 & Hcrop & Hfinish).
  destruct shouldCrop.
  - apply bind_returns in Hcrop as (u2 & w3 & _ & Hcrop).
    apply bind_returns in Hcrop as (u3 & w4 & _ & Hret).
    injection Hret as <- <-.
    eapply finish_output; [|exact Hass|exact Hfinish]. congruence.
  - injection Hcrop as <- <-.
    eapply finish_output; [|exact Hass|exact Hfinish]. congruence.
Qed.

Lemma createClip_outcome inputVideoPath startTime endTime captionsResult outputPath
    options w :
  fst (createClip env Number_toString inputVideoPath startTime endTime captionsResult
                  outputPath options w)
  = fst (createClipBody env Number_toString inputVideoPath startTime endTime
           captionsResult outputPath
           (default true (options ≫= opt_cropToVertical))
           (default true (options ≫= opt_burnCaptions))
           (clock env (clockReads w)) (tick w)).
Proof.
  rewrite createClip_unfold. unfold tryCatch.
  destruct (createClipBody env Number_toString _ _ _ _ _ _ _ _ (tick w))
    as [[u|t] w1]; [reflexivity|].
  apply (cleanup_throws env _ _ t w1).
Qed.

Lemma orZero_cases (value : option Z) :
  (falsy value = true /\ orZero value = 0) \/
  (falsy value = false /\ orZero value <> 0 /\ value = Some (orZero value)).
Proof.
  unfold orZero. destruct value as [n|]; cbn; [|now left].
  destruct (n =? 0)%Z eqn:E; [now left|right].
  apply Z.eqb_neq in E. now repeat split.
Qed.

End FrameFacts.

Section ProbeProperties.
Import Processor.

(** X16.  [cropToVertical] fails with
    [Could not determine video dimensions] exactly when the probe succeeds
    and either reports no video stream or the first video stream lacks a
    width or a height that is not zero; later video streams are not
    consulted.  In that case, and when the probe itself fails (the error is
    then [FFprobe error: ] followed by its message), the world is left as
    it was: no file is written. *)
Theorem cropToVertical_dimension_error :
  forall (env : Environment) inputPath outputPath options world,
    let outcome := cropToVertical env inputPath outputPath options world in
    (fst outcome = Throw (ErrorObject "Could not determine video dimensions") <->
     exists metadata,
       ffprobe env inputPath world = Probed metadata /\
       match List.find isVideo (streams metadata) with
       | Some videoStream =>
           falsy (stream_width videoStream) = true \/
           falsy (stream_height videoStream) = true
       | None => True
       end) /\
    (fst outcome = Throw (ErrorObject "Could not determine video dimensions") ->
     snd outcome = world) /\
    (forall message,
        ffprobe env inputPath world = ProbeError message ->
        outcome = (Throw (ErrorObject ("FFprobe error: " ++ message)), world)).
Proof.
  intros env inputPath outputPath options world outcome. subst outcome.
  unfold cropToVertical, isVideo.
  destruct (ffprobe env inputPath world) as [message|metadata].
  - split; [|split].
    + split; [discriminate|]. intros (metadata & Hprobe & _). discriminate.
    + discriminate.
    + now intros message' [= ->].
  - destruct (List.find _ (streams metadata)) as [videoStream|] eqn:Hfind.
    + destruct (falsy (stream_width videoStream)) eqn:Hw;
        [|destruct (falsy (stream_height videoStream)) eqn:Hh]; cbn [orb].
      * split; [|split]; [|now intros _|discriminate].
        split; [|reflexivity]. intros _. exists metadata. split; [reflexivity|].
        rewrite Hfind. now left.
      * split; [|split]; [|now intros _|discriminate].
        split; [|reflexivity]. intros _. exists metadata. split; [reflexivity|].
        rewrite Hfind. now right.
      * assert (Hrun : fst (runEngine env
                              (Filter inputPath
                                 (cropFilters (default 0 (stream_width videoStream))
                                    (default 0 (stream_height videoStream))
                                    (default 1080 (options ≫= opt_width))
                                    (default 1920 (options ≫= opt_height))
                                    (default center (options ≫= opt_position)))
                                 outputPath) (ret tt) ffmpegError world)
                       <> Throw (ErrorObject "Could not determine video dimensions")).
        { unfold runEngine. destruct (engine env _ _) as [written|message left];
            cbn; discriminate. }
        split; [|split]; [|intros H; now destruct (Hrun H)|discriminate].
        split; [intros H; now destruct (Hrun H)|].
        intros (metadata' & [= <-] & Hbad). rewrite Hfind in Hbad.
        destruct Hbad as [Hbad|Hbad]; congruence.
    + split; [|split]; [|now intros _|discriminate].
      split; [|reflexivity]. intros _. exists metadata. split; [reflexivity|].
      now rewrite Hfind.
Qed.

Lemma cropToVertical_dimension_error_witness :
  fst (cropToVertical
         (demoEnvironment (fun _ => Ended "mp4") demoProbeWithoutDimensions)
         "in.mp4" "out.mp4" None emptyWorld)
  = Throw (ErrorObject "Could not determine video dimensions").
Proof.
  apply (cropToVertical_dimension_error
           (demoEnvironment (fun _ => Ended "mp4") demoProbeWithoutDimensions)
           "in.mp4" "out.mp4" None emptyWorld).
  exists {| streams := [ {| codec_type := "audio"; stream_width := None;
                            stream_height := None |};
                         {| codec_type := "video"; stream_width := None;
                            stream_height := Some 1080 |};
                         {| codec_type := "video"; stream_width := Some 1920;
                            stream_height := Some 1080 |} ] |}.
  split; [reflexivity|]. cbn. now left.
Defined.

(** X17.  [getVideoMetadata] and [cropToVertical] read the same stream.
    When [getVideoMetadata] resolves it leaves the files as they are; if
    the width and the height it reports are not zero, [cropToVertical] on
    the same input runs the media engine with the filters computed from
    exactly these dimensions, and if one of them is zero [cropToVertical]
    fails with [Could not determine video dimensions]. *)
Theorem getVideoMetadata_dimensions_drive_crop :
  forall (env : Environment) (probeFormat : string -> World -> Format)
         inputPath outputPath options world metadata,
    fst (getVideoMetadata env probeFormat inputPath world) = Return metadata ->
    snd (getVideoMetadata env probeFormat inputPath world) = world /\
    (width metadata <> 0 -> height metadata <> 0 ->
     cropToVertical env inputPath outputPath options world =
       runEngine env
         (Filter inputPath
            (cropFilters (width metadata) (height metadata)
               (default 1080 (options ≫= opt_width))
               (default 1920 (options ≫= opt_height))
               (default center (options ≫= opt_position)))
            outputPath)
         (ret tt) ffmpegError world) /\
    (width metadata = 0 \/ height metadata = 0 ->
     cropToVertical env inputPath outputPath options world =
       (Throw (ErrorObject "Could not determine video dimensions"), world)).
Proof.
  intros env probeFormat inputPath outputPath options world metadata.
  unfold getVideoMetadata, cropToVertical.
  destruct (ffprobe env inputPath world) as [message|probed]; [discriminate|].
  destruct (List.find _ (streams probed)) as [videoStream|]; [|discriminate].
  cbn [fst snd]. intros [= <-]. cbn [width height].
  split; [reflexivity|].
  destruct (orZero_cases (stream_width videoStream)) as [[-> ->]|(-> & Hw & Hwidth)];
    [|destruct (orZero_cases (stream_height videoStream))
        as [[-> ->]|(-> & Hh & Hheight)]]; cbn [orb].
  - split; [intros H; now destruct H|reflexivity].
  - split; [intros _ H; now destruct H|reflexivity].
  - split; [|intros [H|H]; contradiction].
    intros _ _. rewrite Hwidth, Hheight at 1. reflexivity.
Qed.

Lemma getVideoMetadata_dimensions_drive_crop_witness :
  cropToVertical (demoEnvironment (fun _ => Ended "mp4") demoProbeWithoutDimensions)
                 "in.mp4" "out.mp4" None emptyWorld
  = (Throw (ErrorObject "Could not determine video dimensions"), emptyWorld) /\
  fst (getVideoMetadata
         (demoEnvironment (fun _ => Ended "mp4") demoProbeWithoutDimensions)
         (fun _ _ => demoFormat) "in.mp4" emptyWorld)
  = Return {| duration := 125 # 2; width := 0; height := 1080;
              format := "unknown"; bitrate := 0 |}.
Proof.
  split; [|reflexivity].
  destruct (getVideoMetadata_dimensions_drive_crop
              (demoEnvironment (fun _ => Ended "mp4") demoProbeWithoutDimensions)
              (fun _ _ => demoFormat) "in.mp4" "out.mp4" None emptyWorld
              {| duration := 125 # 2; width := 0; height := 1080;
                 format := "unknown"; bitrate := 0 |} eq_refl)
    as (_ & _ & Hfails).
  apply Hfails. now left.
Defined.

(** X18.  The outcomes of [getVideoMetadata].  It never changes the
    files.  A failure of the probe is reported as [FFprobe error: ] followed
    by its message; [No video stream found] is thrown exactly when the
    probe succeeds and no stream is a video stream.  Otherwise it resolves:
    the format name is never empty, and the width and the height are those
    of the first video stream, zero standing for one that is missing. *)
Theorem getVideoMetadata_outcome :
  forall (env : Environment) (probeFormat : string -> World -> Format)
         inputPath world,
    let outcome := getVideoMetadata env probeFormat inputPath world in
    snd outcome = world /\
    (forall message,
        ffprobe env inputPath world = ProbeError message ->
        fst outcome = Throw (ErrorObject ("FFprobe error: " ++ message))) /\
    (fst outcome = Throw (ErrorObject "No video stream found") <->
     exists probed,
       ffprobe env inputPath world = Probed probed /\
       Forall (fun s => codec_type s <> "video") (streams probed)) /\
    (forall metadata,
        fst outcome = Return metadata ->
        format metadata <> "" /\
        exists probed videoStream,
          ffprobe env inputPath world = Probed probed /\
          List.find isVideo (streams probed) = Some videoStream /\
          (forall n, stream_width videoStream = Some n -> width metadata = n) /\
          (stream_width videoStream = None -> width metadata = 0) /\
          (forall n, stream_height videoStream = Some n -> height metadata = n) /\
          (stream_height videoStream = None -> height metadata = 0)).
Proof.
  intros env probeFormat inputPath world outcome. subst outcome.
  unfold getVideoMetadata, isVideo.
  assert (Hnone : forall ss : list Stream,
             List.find (fun s => String.eqb (codec_type s) "video") ss = None <->
             Forall (fun s => codec_type s <> "video") ss).
  { intros ss. induction ss as [|s ss IH]; cbn.
    - split; [constructor|reflexivity].
    - destruct (String.eqb_spec (codec_type s) "video") as [Heq|Hne].
      + split; [discriminate|]. intros Hall. now inversion Hall.
      + rewrite IH. split; [now constructor|]. intros Hall. now inversion Hall. }
  destruct (ffprobe env inputPath world) as [message|probed].
  - split; [reflexivity|]. split; [now intros message' [= ->]|].
    split; [|discriminate].
    split; [discriminate|]. intros (probed & Hprobe & _). discriminate.
  - destruct (List.find _ (streams probed)) as [videoStream|] eqn:Hfind.
    + split; [reflexivity|]. split; [discriminate|]. split.
      * split; [discriminate|]. intros (probed' & [= <-] & Hall).
        apply Hnone in Hall. congruence.
      * cbn [fst]. intros metadata [= <-]. cbn [format width height]. split.
        -- unfold orUnknown. destruct (format_name _) as [name|]; [|discriminate].
           destruct (String.eqb_spec name ""); [discriminate|assumption].
        -- exists probed, videoStream. split; [reflexivity|]. split; [exact Hfind|].
           unfold orZero, falsy.
           repeat split; try (intros n ->; cbn; destruct (Z.eqb_spec n 0); congruence);
             intros ->; reflexivity.
    + split; [reflexivity|]. split; [discriminate|]. split; [|discriminate].
      split; [|reflexivity]. intros _. exists probed. split; [reflexivity|].
      now apply Hnone.
Qed.

Lemma getVideoMetadata_outcome_witness :
  fst (getVideoMetadata
         (demoEnvironment (fun _ => Ended "mp4")
            (Probed {| streams := [ {| codec_type := "audio"; stream_width := None;
                                       stream_height := None |} ] |}))
         (fun _ _ => demoFormat) "in.mp3" emptyWorld)
  = Throw (ErrorObject "No video stream found").
Proof.
  apply (getVideoMetadata_outcome
           (demoEnvironment (fun _ => Ended "mp4")
              (Probed {| streams := [ {| codec_type := "audio"; stream_width := None;
                                         stream_height := None |} ] |}))
           (fun _ _ => demoFormat) "in.mp3" emptyWorld).
  eexists. split; [reflexivity|].
  constructor; [discriminate|constructor].
Defined.

End ProbeProperties.

Section ClipProperties.
Import Processor.

(** X19.  [createClip] leaves every other file as it is.  A path that is
    not the output path, not one of the two temporary paths of the
    invocation and not the path of a subtitle file holds after
    [createClip], whether it returns or throws, exactly what it held
    before; in particular the input video is neither removed nor
    rewritten. *)
Theorem createClip_keeps_other_files :
  forall (env : Environment) (Number_toString : Q -> string)
         inputVideoPath startTime endTime captionsResult outputPath options world path,
    let timestamp := clock env (clockReads world) in
    path <> outputPath ->
    path <> extractedPathOf env timestamp ->
    path <> croppedPathOf env timestamp ->
    (forall now, path <> assPathOf env now) ->
    files (snd (createClip env Number_toString inputVideoPath startTime endTime
                           captionsResult outputPath options world)) !! path
    = files world !! path.
Proof.
  intros env Number_toString inputVideoPath startTime endTime captionsResult
         outputPath options world path timestamp.
  apply keeps_createClip.
Qed.

Lemma createClip_keeps_other_files_witness :
  files (snd (createClip (demoEnvironment failingCrop (demoProbe 1920 1080))
                integerToString "/tmp/input-1.mp4" 45 70 (Some demoTrack)
                "/tmp/clip-1.mp4" None demoWorld)) !! "/tmp/input-1.mp4"
  = Some "video".
Proof.
  rewrite (createClip_keeps_other_files
             (demoEnvironment failingCrop (demoProbe 1920 1080))
             integerToString "/tmp/input-1.mp4" 45 70 (Some demoTrack)
             "/tmp/clip-1.mp4" None demoWorld "/tmp/input-1.mp4").
  - vm_compute. reflexivity.
  - discriminate.
  - vm_compute. discriminate.
  - vm_compute. discriminate.
  - intros now. unfold assPathOf, path_join. cbn [tmpdir demoEnvironment].
    intros Heq. apply (inj (String.app "/tmp/")) in Heq. discriminate.
Defined.

(** X20.  When [createClip] returns normally the output file exists,
    provided the output path is not one of the two temporary paths of the
    invocation and not the path of a subtitle file. *)
Theorem createClip_output_exists :
  forall (env : Environment) (Number_toString : Q -> string)
         inputVideoPath startTime endTime captionsResult outputPath options world,
    let timestamp := clock env (clockReads world) in
    let outcome :=
      createClip env Number_toString inputVideoPath startTime endTime
                 captionsResult outputPath options world in
    outputPath <> extractedPathOf env timestamp ->
    outputPath <> croppedPathOf env timestamp ->
    (forall now, outputPath <> assPathOf env now) ->
    fst outcome = Return tt ->
    exists_ outputPath (snd outcome).
Proof.
  intros env Number_toString inputVideoPath startTime endTime captionsResult
         outputPath options world timestamp outcome Hout1 Hout2 Hass.
  subst outcome. rewrite createClip_unfold. unfold tryCatch.
  destruct (createClipBody env Number_toString _ _ _ _ _ _ _ _ (tick world))
    as [[u|t] w1] eqn:Hbody.
  - intros _. cbn [snd].
    exact (createClipBody_output env Number_toString _ _ _ _ _ _ _ _ _ u w1
             Hout1 Hout2 Hass Hbody).
  - intros Hreturn. exfalso.
    pose proof (cleanup_throws env (extractedPathOf env (clock env (clockReads world)))
                  (croppedPathOf env (clock env (clockReads world))) t w1) as Hthrows.
    unfold cleanup in Hthrows. rewrite Hthrows in Hreturn. discriminate.
Qed.

Lemma createClip_output_exists_witness :
  exists_ "/tmp/clip-1.mp4"
    (snd (createClip (demoEnvironment (fun _ => Ended "mp4") (demoProbe 1920 1080))
            integerToString "/tmp/input-1.mp4" 45 70 (Some demoTrack)
            "/tmp/clip-1.mp4" None demoWorld)).
Proof.
  apply (createClip_output_exists
           (demoEnvironment (fun _ => Ended "mp4") (demoProbe 1920 1080))
           integerToString "/tmp/input-1.mp4" 45 70 (Some demoTrack)
           "/tmp/clip-1.mp4" None demoWorld).
  - vm_compute. discriminate.
  - vm_compute. discriminate.
  - intros now. unfold assPathOf, path_join. cbn [tmpdir demoEnvironment].
    intros Heq. apply (inj (String.app "/tmp/c")) in Heq. discriminate.
  - vm_compute. reflexivity.
Defined.

(** X21.  [createClip] settles as its stages do: the [catch] clause
    removes files and rethrows the error it caught unchanged.  In
    particular, when the extraction fails, [createClip] throws
    [FFmpeg error: ] followed by the message of the media engine. *)
Theorem createClip_reports_the_failing_stage :
  forall (env : Environment) (Number_toString : Q -> string)
         inputVideoPath startTime endTime captionsResult outputPath options world,
    let timestamp := clock env (clockReads world) in
    let outcome :=
      createClip env Number_toString inputVideoPath startTime endTime
                 captionsResult outputPath options world in
    fst outcome =
      fst (createClipBody env Number_toString inputVideoPath startTime endTime
             captionsResult outputPath
             (default true (options ≫= opt_cropToVertical))
             (default true (options ≫= opt_burnCaptions))
             timestamp (tick world)) /\
    (forall message leftBehind,
        engine env (Extract inputVideoPath startTime (endTime - startTime)
                            (extractedPathOf env timestamp)) (tick world)
          = Errored message leftBehind ->
        fst outcome = Throw (ErrorObject ("FFmpeg error: " ++ message))).
Proof.
  intros env Number_toString inputVideoPath startTime endTime captionsResult
         outputPath options world timestamp outcome.
  subst outcome. split; [apply createClip_outcome|].
  intros message leftBehind Hengine. rewrite createClip_outcome.
  unfold createClipBody, bind at 1, extractClip, runEngine. fold timestamp.
  now rewrite Hengine.
Qed.

Lemma createClip_reports_the_failing_stage_witness :
  fst (createClip (demoEnvironment failingExtract (demoProbe 1920 1080))
         integerToString "/tmp/input-1.mp4" 45 70 (Some demoTrack)
         "/tmp/clip-1.mp4" None demoWorld)
  = Throw (ErrorObject "FFmpeg error: Invalid data found when processing input").
Proof.
  destruct (createClip_reports_the_failing_stage
              (demoEnvironment failingExtract (demoProbe 1920 1080))
              integerToString "/tmp/input-1.mp4" 45 70 (Some demoTrack)
              "/tmp/clip-1.mp4" None demoWorld) as (_ & Hextract).
  apply (Hextract "Invalid data found when processing input" None). reflexivity.
Defined.

End ClipProperties.

(** ** The optional stages of a clip *)

Section StageFacts.
Import Processor.
Variable env : Environment.
Variable Number_toString : Q -> string.

Lemma clock_bind {A B} (m : Eff World A) (k : A -> Eff World B) :
  (forall w, clockReads (snd (m w)) = clockReads w) ->
  (forall a w, clockReads (snd (k a w)) = clockReads w) ->
  forall w, clockReads (snd (bind m k w)) = clockReads w.
Proof.
  intros Hm Hk w. unfold bind. specialize (Hm w).
  destruct (m w) as [[a|t] w']; cbn [snd] in *; [now rewrite Hk|exact Hm].
Qed.

Lemma clock_unlink target w : clockReads (snd (unlink env target w)) = clockReads w.
Proof.
  unfold unlink. destruct (files w !! target); [|reflexivity].
  now destruct (unlinkFault env target w).
Qed.

Lemma clock_unlinkQuietly target w :
  clockReads (snd (unlinkQuietly env target w)) = clockReads w.
Proof.
  unfold unlinkQuietly, tryCatch, unlink. destruct (files w !! target); [|reflexivity].
  now destruct (unlinkFault env target w).
Qed.

Lemma clock_rename oldPath newPath w :
  clockReads (snd (rename env oldPath newPath w)) = clockReads w.
Proof.
  unfold rename. destruct (files w !! oldPath); [|reflexivity].
  now destruct (renameFault env oldPath newPath w).
Qed.

Lemma clock_extractClip inputPath startTime endTime outputPath w :
  clockReads (snd (extractClip env inputPath startTime endTime outputPath w))
  = clockReads w.
Proof.
  unfold extractClip, runEngine.
  now destruct (engine env _ w) as [written|message [part|]].
Qed.

Lemma clock_cropToVertical inputPath outputPath options w :
  clockReads (snd (cropToVertical env inputPath outputPath options w))
  = clockReads w.
Proof.
  unfold cropToVertical.
  destruct (ffprobe env inputPath w) as [message|metadata]; [reflexivity|].
  destruct (List.find _ (streams metadata)) as [videoStream|]; [|reflexivity].
  destruct (falsy (stream_width videoStream) || falsy (stream_height videoStream));
    [reflexivity|].
  unfold runEngine. now destruct (engine env _ w) as [written|message [part|]].
Qed.

End StageFacts.

Section StageProperties.
Import Processor.

(** X22.  The optional stages of [createClip].  With [cropToVertical]
    switched off the prober is not consulted: the outcome and the files are
    the same with any other prober.  Without captions, or with
    [burnCaptions] switched off, the clock is read once, for the names of
    the temporary files, and no file other than the output and the two
    temporary files is created, removed or rewritten; in particular no
    subtitle file is written. *)
Theorem createClip_optional_stages :
  forall (env : Environment) (Number_toString : Q -> string)
         inputVideoPath startTime endTime captionsResult outputPath options world,
    let timestamp := clock env (clockReads world) in
    let after :=
      snd (createClip env Number_toString inputVideoPath startTime endTime
                      captionsResult outputPath options world) in
    (options ≫= opt_cropToVertical = Some false ->
     forall probe,
       createClip (withProbe env probe) Number_toString inputVideoPath startTime
                  endTime captionsResult outputPath options world
       = createClip env Number_toString inputVideoPath startTime endTime
                    captionsResult outputPath options world) /\
    (captionsResult = None \/ options ≫= opt_burnCaptions = Some false ->
     clockReads after = S (clockReads world) /\
     (forall path,
         path <> outputPath ->
         path <> extractedPathOf env timestamp ->
         path <> croppedPathOf env timestamp ->
         files after !! path = files world !! path) /\
     (forall now,
         assPathOf env now <> outputPath ->
         files after !! assPathOf env now = files world !! assPathOf env now)).
Proof.
  intros env Number_toString inputVideoPath startTime endTime captionsResult
         outputPath options world timestamp after. subst after. split.
  - intros Hcrop probe. rewrite !createClip_unfold. rewrite Hcrop. reflexivity.
  - intros Hplain.
    assert (Hplain' : captionsResult = None \/
                      default true (options ≫= opt_burnCaptions) = false).
    { destruct Hplain as [->| ->]; [now left|now right]. }
    assert (Hkeeps : forall path,
               path <> outputPath ->
               path <> extractedPathOf env timestamp ->
               path <> croppedPathOf env timestamp ->
               files (snd (createClip env Number_toString inputVideoPath startTime
                                      endTime captionsResult outputPath options
                                      world)) !! path
               = files world !! path).
    { intros path Hout Hextracted Hcropped. rewrite createClip_unfold.
      change (files world !! path) with (files (tick world) !! path).
      generalize (tick world).
      apply keeps_tryCatch; [now apply keeps_createClipBody_plain|].
      intros t. apply keeps_bind; [now apply keeps_unlinkQuietly|].
      intros _. apply keeps_bind; [now apply keeps_unlinkQuietly|].
      intros _. apply keeps_throw. }
    split; [|split].
    + rewrite createClip_unfold.
      change (S (clockReads world)) with (clockReads (tick world)).
      generalize (tick world). intros w.
      assert (Hbody : clockReads
                        (snd (createClipBody env Number_toString inputVideoPath
                                startTime endTime captionsResult outputPath
                                (default true (options ≫= opt_cropToVertical))
                                (default true (options ≫= opt_burnCaptions))
                                (clock env (clockReads world)) w))
                      = clockReads w).
      { unfold createClipBody. revert w.
        apply clock_bind; [apply clock_extractClip|]. intros _.
        apply clock_bind.
        - destruct (default true (options ≫= opt_cropToVertical)); [|reflexivity].
          apply clock_bind; [apply clock_cropToVertical|]. intros _.
          apply clock_bind; [apply clock_unlink|reflexivity].
        - intros processedPath w.
          destruct Hplain' as [->| ->].
          + destruct (default true _); apply clock_rename.
          + destruct captionsResult; apply clock_rename. }
      unfold tryCatch.
      destruct (createClipBody env Number_toString _ _ _ _ _ _ _ _ w) as [[u|t] w1];
        cbn [snd] in *; [exact Hbody|].
      rewrite <- Hbody. unfold bind, throw.
      pose proof (clock_unlinkQuietly env
                    (extractedPathOf env (clock env (clockReads world))) w1) as H1.
      destruct (unlinkQuietly_returns env
                  (extractedPathOf env (clock env (clockReads world))) w1) as [w2 E2].
      rewrite E2 in H1 |- *. cbn [snd] in H1.
      pose proof (clock_unlinkQuietly env
                    (croppedPathOf env (clock env (clockReads world))) w2) as H2.
      destruct (unlinkQuietly_returns env
                  (croppedPathOf env (clock env (clockReads world))) w2) as [w3 E3].
      rewrite E3 in H2 |- *. cbn [snd] in *. congruence.
    + exact Hkeeps.
    + intros now Hout.
      destruct (temporary_not_subtitle env timestamp now) as [Hextracted Hcropped].
      apply Hkeeps; [exact Hout|now apply not_eq_sym|now apply not_eq_sym].
Qed.

Lemma createClip_optional_stages_witness :
  createClip (withProbe (demoEnvironment (fun _ => Ended "mp4") (demoProbe 1920 1080))
                        (fun _ _ => ProbeError "moov atom not found"))
             integerToString "/tmp/input-1.mp4" 45 70 None "/tmp/clip-1.mp4"
             (Some withoutCrop) demoWorld
  = createClip (demoEnvironment (fun _ => Ended "mp4") (demoProbe 1920 1080))
               integerToString "/tmp/input-1.mp4" 45 70 None "/tmp/clip-1.mp4"
               (Some withoutCrop) demoWorld /\
  clockReads
    (snd (createClip (demoEnvironment (fun _ => Ended "mp4") (demoProbe 1920 1080))
            integerToString "/tmp/input-1.mp4" 45 70 None "/tmp/clip-1.mp4"
            (Some withoutCrop) demoWorld)) = 1%nat /\
  files
    (snd (createClip (demoEnvironment (fun _ => Ended "mp4") (demoProbe 1920 1080))
            integerToString "/tmp/input-1.mp4" 45 70 None "/tmp/clip-1.mp4"
            (Some withoutCrop) demoWorld)) !! "/tmp/captions-1700000000001.ass"
  = None.
Proof.
  destruct (createClip_optional_stages
              (demoEnvironment (fun _ => Ended "mp4") (demoProbe 1920 1080))
              integerToString "/tmp/input-1.mp4" 45 70 None "/tmp/clip-1.mp4"
              (Some withoutCrop) demoWorld) as [Hprobe Hplain].
  destruct (Hplain (or_introl eq_refl)) as (Hclock & _ & Hsubtitle).
  split; [|split].
  - apply Hprobe. reflexivity.
  - exact Hclock.
  - specialize (Hsubtitle 1700000000001).
    change (assPathOf (demoEnvironment (fun _ => Ended "mp4") (demoProbe 1920 1080))
                      1700000000001)
      with "/tmp/captions-1700000000001.ass" in Hsubtitle.
    rewrite Hsubtitle; [reflexivity|discriminate].
Defined.

End StageProperties.
